(** * prompt-vault-processor: vault store and attribute offload pipeline

    A shallow embedding of the Go sources

    - [processor/promptvaultprocessor/vault.go]       (FilesystemVault),
    - [processor/promptvaultprocessor/storage/filesystem.go]
                                                     (FilesystemBackend),
    - [processor/promptvaultprocessor/config.go]      (Config),
    - [processor/promptvaultprocessor/factory.go]     (createTracesProcessor),
    - the processor file (vaultProcessor, vaultSpan, ConsumeTraces),

    together with models of the library code they call: crypto/sha256,
    encoding/hex, path/filepath, os, fmt.Sscanf and pdata's pcommon.Map.

    Go strings are byte strings: they are [string] here (a list of 8-bit
    [ascii]), and [len] is [String.length].  A [[]byte] is a [list byte].
    Go's [int] is [Z].  State that the Go code mutates in place (the file
    system, the attribute maps of a batch, the log) is passed explicitly. *)

From Stdlib Require Import NArith ZArith List Strings.String Strings.Ascii Strings.Byte Lia.
From stdpp Require Import gmap strings list fin_maps sorting.
Import ListNotations.
Local Open Scope string_scope.
Local Open Scope list_scope.

#[global] Instance byte_eq_decision : EqDecision byte := Byte.byte_eq_dec.

(** ** Results and errors *)

Inductive result (A E : Type) : Type :=
| Ok (a : A)
| Err (e : E).
Arguments Ok {A E} a.
Arguments Err {A E} e.

(** Failures of the operating system calls of the model. *)
Inductive errno : Type := ENOENT | ENOTDIR | EISDIR.

(** The error values the sources build, one constructor per message. *)
Inductive error : Type :=
| ErrOS (e : errno)                                (* an *os.PathError returned as is *)
| ErrCreateVaultDir (e : errno)                    (* "create vault dir: %w" *)
| ErrCreateDateDir (e : errno)                     (* "create date dir: %w" *)
| ErrWriteVaultFile (e : errno)                    (* "write vault file: %w" *)
| ErrVaultRefNotFound (ref : string)               (* "vault ref not found: %s" *)
| ErrCreateVaultDirectory (e : errno)              (* "failed to create vault directory: %w" *)
| ErrCreateObjectDirectory (e : errno)             (* "failed to create object directory: %w" *)
| ErrWriteVaultObject (e : errno)                  (* "failed to write vault object: %w" *)
| ErrInvalidURI (uri : string)                     (* "invalid vault reference URI: %s" *)
| ErrReadVaultObject (e : errno)                   (* "failed to read vault object: %w" *)
| ErrChecksumMismatch (expected got : string)      (* "checksum mismatch: expected %s, got %s" *)
| ErrOther (msg : string).                         (* any other error value *)

(** ** crypto/sha256 (FIPS 180-4), on 32-bit words kept in [N] *)

Module SHA256.
Local Open Scope N_scope.

Definition w32 (x : N) : N := x mod 4294967296.
Definition rotr (n x : N) : N := N.lor (N.shiftr x n) (w32 (N.shiftl x (32 - n))).
Definition shr (n x : N) : N := N.shiftr x n.
Definition not32 (x : N) : N := N.lxor x 4294967295.
Definition Ch (x y z : N) : N := N.lxor (N.land x y) (N.land (not32 x) z).
Definition Maj (x y z : N) : N :=
  N.lxor (N.lxor (N.land x y) (N.land x z)) (N.land y z).
Definition bsig0 (x : N) : N := N.lxor (N.lxor (rotr 2 x) (rotr 13 x)) (rotr 22 x).
Definition bsig1 (x : N) : N := N.lxor (N.lxor (rotr 6 x) (rotr 11 x)) (rotr 25 x).
Definition ssig0 (x : N) : N := N.lxor (N.lxor (rotr 7 x) (rotr 18 x)) (shr 3 x).
Definition ssig1 (x : N) : N := N.lxor (N.lxor (rotr 17 x) (rotr 19 x)) (shr 10 x).

(** A word written as eight hexadecimal digits. *)
Definition hex_value (c : ascii) : N :=
  let n := N_of_ascii c in
  if (48 <=? n) && (n <=? 57) then n - 48 else n - 87.

Fixpoint word_of_hex (acc : N) (s : string) : N :=
  match s with
  | EmptyString => acc
  | String c s' => word_of_hex (16 * acc + hex_value c) s'
  end.

(** The round constants (FIPS 180-4, section 4.2.2). *)
Definition K : list N :=
  Eval vm_compute in
  map (word_of_hex 0)
    [
     "428a2f98"; "71374491"; "b5c0fbcf"; "e9b5dba5"; "3956c25b"; "59f111f1"; "923f82a4"; "ab1c5ed5";
     "d807aa98"; "12835b01"; "243185be"; "550c7dc3"; "72be5d74"; "80deb1fe"; "9bdc06a7"; "c19bf174";
     "e49b69c1"; "efbe4786"; "0fc19dc6"; "240ca1cc"; "2de92c6f"; "4a7484aa"; "5cb0a9dc"; "76f988da";
     "983e5152"; "a831c66d"; "b00327c8"; "bf597fc7"; "c6e00bf3"; "d5a79147"; "06ca6351"; "14292967";
     "27b70a85"; "2e1b2138"; "4d2c6dfc"; "53380d13"; "650a7354"; "766a0abb"; "81c2c92e"; "92722c85";
     "a2bfe8a1"; "a81a664b"; "c24b8b70"; "c76c51a3"; "d192e819"; "d6990624"; "f40e3585"; "106aa070";
     "19a4c116"; "1e376c08"; "2748774c"; "34b0bcb5"; "391c0cb3"; "4ed8aa4a"; "5b9cca4f"; "682e6ff3";
     "748f82ee"; "78a5636f"; "84c87814"; "8cc70208"; "90befffa"; "a4506ceb"; "bef9a3f7"; "c67178f2"
    ]%string.

Record digest : Type :=
  Digest { ha : N; hb : N; hc : N; hd : N; he : N; hf : N; hg : N; hh : N }.

(** The initial hash value (FIPS 180-4, section 5.3.3). *)
Definition H0 : digest :=
  Eval vm_compute in
  Digest (word_of_hex 0 "6a09e667") (word_of_hex 0 "bb67ae85")
         (word_of_hex 0 "3c6ef372") (word_of_hex 0 "a54ff53a")
         (word_of_hex 0 "510e527f") (word_of_hex 0 "9b05688c")
         (word_of_hex 0 "1f83d9ab") (word_of_hex 0 "5be0cd19").

Definition byte_of (n : N) : byte :=
  match Byte.of_N (n mod 256) with Some b => b | None => x00 end.

(** Padding: a 1 bit, zeros up to 56 mod 64, the bit length on 64 bits. *)
Definition pad (msg : list byte) : list byte :=
  let l := N.of_nat (length msg) in
  let zeros := N.to_nat ((119 - l mod 64) mod 64) in
  msg ++ [x80] ++ repeat x00 zeros ++
  map (fun i => byte_of (N.shiftr (8 * l) (8 * i))) [7; 6; 5; 4; 3; 2; 1; 0].

Fixpoint words (bs : list byte) : list N :=
  match bs with
  | b3 :: b2 :: b1 :: b0 :: rest =>
      (Byte.to_N b3 * 16777216 + Byte.to_N b2 * 65536 + Byte.to_N b1 * 256 + Byte.to_N b0)
        :: words rest
  | _ => []
  end.

Fixpoint schedule (n : nat) (w : list N) : list N :=
  match n with
  | O => w
  | S n' =>
      let t := length w in
      let at_ (i : nat) := nth (t - i) w 0 in
      schedule n' (w ++ [w32 (ssig1 (at_ 2%nat) + at_ 7%nat + ssig0 (at_ 15%nat) + at_ 16%nat)])
  end.

Definition round (s : digest) (kw : N * N) : digest :=
  let t1 := w32 (hh s + bsig1 (he s) + Ch (he s) (hf s) (hg s) + fst kw + snd kw) in
  let t2 := w32 (bsig0 (ha s) + Maj (ha s) (hb s) (hc s)) in
  Digest (w32 (t1 + t2)) (ha s) (hb s) (hc s) (w32 (hd s + t1)) (he s) (hf s) (hg s).

Definition block (s : digest) (ws : list N) : digest :=
  let r := fold_left round (combine K (schedule 48 ws)) s in
  Digest (w32 (ha s + ha r)) (w32 (hb s + hb r)) (w32 (hc s + hc r)) (w32 (hd s + hd r))
         (w32 (he s + he r)) (w32 (hf s + hf r)) (w32 (hg s + hg r)) (w32 (hh s + hh r)).

Fixpoint blocks (n : nat) (s : digest) (ws : list N) : digest :=
  match n with
  | O => s
  | S n' =>
      match ws with
      | [] => s
      | _ => blocks n' (block s (firstn 16 ws)) (skipn 16 ws)
      end
  end.

Definition word_bytes (x : N) : list byte :=
  [byte_of (N.shiftr x 24); byte_of (N.shiftr x 16); byte_of (N.shiftr x 8); byte_of x].

(** [sha256.Sum256]: the 32 bytes of the digest. *)
Definition Sum256 (data : list byte) : list byte :=
  let ws := words (pad data) in
  let s := blocks (length ws) H0 ws in
  word_bytes (ha s) ++ word_bytes (hb s) ++ word_bytes (hc s) ++ word_bytes (hd s) ++
  word_bytes (he s) ++ word_bytes (hf s) ++ word_bytes (hg s) ++ word_bytes (hh s).

End SHA256.

(** ** encoding/hex *)

Module hex.

Definition hextable : list ascii := list_ascii_of_string "0123456789abcdef".

Definition digit (n : N) : ascii := nth (N.to_nat n) hextable "f"%char.

(** [hex.EncodeToString]; [fmt.Sprintf("%x", b)] of a byte array prints the same. *)
Fixpoint EncodeToString (bs : list byte) : string :=
  match bs with
  | [] => ""
  | b :: rest =>
      String (digit (Byte.to_N b / 16)) (String (digit (Byte.to_N b mod 16)) (EncodeToString rest))
  end.

End hex.

(** The lowercase hex SHA-256 of a payload, as both stores compute it. *)
Definition checksum_of (data : list byte) : string :=
  hex.EncodeToString (SHA256.Sum256 data).

(** ** path/filepath (Unix)

    A cleaned path is kept as [(rooted, components)]: ["/a/b"] is
    [(true, ["a"; "b"])], ["."] is [(false, [])], ["../a"] is
    [(false, [".."; "a"])]. *)

Module filepath.

Definition is_sep (c : ascii) : bool := Ascii.eqb c "/".

Definition emit (cur : string) : list string :=
  if decide (cur = "") then [] else [cur].

(** The non-empty components of [s] between separators; [cur] is the
    component being read. *)
Fixpoint components_from (cur s : string) : list string :=
  match s with
  | EmptyString => emit cur
  | String c s' =>
      if is_sep c then emit cur ++ components_from "" s'
      else components_from (cur +:+ String c "") s'
  end.

Definition components (s : string) : list string := components_from "" s.

Definition is_rooted (s : string) : bool :=
  match s with
  | String c _ => is_sep c
  | EmptyString => false
  end.

(** One step of Clean's lexical processing; [st] is the output so far,
    last component first. *)
Definition clean_step (rooted : bool) (st : list string) (c : string) : list string :=
  if decide (c = ".") then st
  else if decide (c = "..") then
    match st with
    | top :: st' => if decide (top = "..") then c :: st else st'
    | [] => if rooted then [] else [c]
    end
  else c :: st.

Definition clean_comps (rooted : bool) (cs : list string) : list string :=
  rev (fold_left (clean_step rooted) cs []).

(** [strings.Join(elems, "/")]. *)
Fixpoint join_sep (elems : list string) : string :=
  match elems with
  | [] => ""
  | [e] => e
  | e :: rest => e +:+ "/" +:+ join_sep rest
  end.

Definition normal (s : string) : bool * list string :=
  (is_rooted s, clean_comps (is_rooted s) (components s)).

Definition render (p : bool * list string) : string :=
  if p.1 then "/" +:+ join_sep p.2
  else match p.2 with [] => "." | _ => join_sep p.2 end.

Definition Clean (s : string) : string := render (normal s).

(** Leading empty elements are skipped; the rest is joined and cleaned. *)
Fixpoint Join (elem : list string) : string :=
  match elem with
  | [] => ""
  | e :: rest => if decide (e = "") then Join rest else Clean (join_sep (e :: rest))
  end.

Fixpoint has_sep (s : string) : bool :=
  match s with
  | EmptyString => false
  | String c s' => is_sep c || has_sep s'
  end.

Fixpoint upto_last_sep (s : string) : string :=
  match s with
  | EmptyString => ""
  | String c s' => if has_sep s then String c (upto_last_sep s') else ""
  end.

(** [filepath.Dir]: all but the last element, cleaned. *)
Definition Dir (path : string) : string := Clean (upto_last_sep path).

End filepath.

(** ** os: a file system without links or permissions

    The store is a finite map from cleaned paths to nodes.  Path strings
    are resolved lexically, relative ones from a fixed working directory;
    the roots ["/"] and ["."] (and ["../.."] above the working directory)
    always exist as directories. *)

Inductive node : Type :=
| File (data : list byte)
| Directory.

Record FileInfo : Type := { Name : string; IsDir : bool }.

Module os.

Definition resolve (name : string) : option (bool * list string) :=
  if decide (name = "") then None else Some (filepath.normal name).

Definition implicit_dir (p : bool * list string) : bool :=
  forallb (String.eqb "..") p.2.

Definition lookup_path (fs : gmap (bool * list string) node) (p : bool * list string)
  : option node :=
  if implicit_dir p then Some Directory else fs !! p.

Definition parent (p : bool * list string) : bool * list string :=
  (p.1, removelast p.2).

Definition base_name (p : bool * list string) : string :=
  List.last p.2 (if p.1 then "/" else ".").

Definition info_of (p : bool * list string) (n : node) : FileInfo :=
  {| Name := base_name p; IsDir := match n with Directory => true | File _ => false end |}.

(** [os.Lstat] and [os.Stat] agree: there are no links. *)
Definition Lstat (fs : gmap (bool * list string) node) (name : string)
  : result FileInfo errno :=
  match resolve name with
  | None => Err ENOENT
  | Some p =>
      match lookup_path fs p with
      | Some n => Ok (info_of p n)
      | None => Err ENOENT
      end
  end.

Definition Stat := Lstat.

(** Create the missing directories along [rest], below the prefix [pre]. *)
Fixpoint mkdirs (rooted : bool) (pre rest : list string)
    (fs : gmap (bool * list string) node) : result (gmap (bool * list string) node) errno :=
  match rest with
  | [] => Ok fs
  | c :: rest' =>
      let p := (rooted, pre ++ [c]) in
      match lookup_path fs p with
      | Some Directory => mkdirs rooted (pre ++ [c]) rest' fs
      | Some (File _) => Err ENOTDIR
      | None => mkdirs rooted (pre ++ [c]) rest' (<[p := Directory]> fs)
      end
  end.

Definition MkdirAll (fs : gmap (bool * list string) node) (path : string)
  : result (gmap (bool * list string) node) errno :=
  match resolve path with
  | None => Err ENOENT
  | Some p => mkdirs p.1 [] p.2 fs
  end.

(** [os.WriteFile]: create or truncate, then write all of [data]. *)
Definition WriteFile (fs : gmap (bool * list string) node) (name : string) (data : list byte)
  : result (gmap (bool * list string) node) errno :=
  match resolve name with
  | None => Err ENOENT
  | Some p =>
      if implicit_dir p then Err EISDIR
      else match lookup_path fs (parent p) with
           | None => Err ENOENT
           | Some (File _) => Err ENOTDIR
           | Some Directory =>
               match fs !! p with
               | Some Directory => Err EISDIR
               | _ => Ok (<[p := File data]> fs)
               end
           end
  end.

Definition ReadFile (fs : gmap (bool * list string) node) (name : string)
  : result (list byte) errno :=
  match resolve name with
  | None => Err ENOENT
  | Some p =>
      match lookup_path fs p with
      | Some (File data) => Ok data
      | Some Directory => Err EISDIR
      | None => Err ENOENT
      end
  end.

(** What a directory entry may be called. *)
Definition entry_name (n : string) : bool :=
  negb (String.eqb n "") && negb (filepath.has_sep n)
  && negb (String.eqb n ".") && negb (String.eqb n "..").

Definition child_name (p k : bool * list string) : option string :=
  match last k.2 with
  | Some n =>
      if bool_decide (k = (p.1, p.2 ++ [n])) && entry_name n then Some n else None
  | None => None
  end.

(** The names in a directory, sorted as filepath.Walk reads them. *)
Definition readDirNames (fs : gmap (bool * list string) node) (p : bool * list string)
  : list string :=
  merge_sort String.le (omap (child_name p) (map_to_list fs).*1).

Definition depth (fs : gmap (bool * list string) node) : nat :=
  foldr Nat.max 0%nat ((fun kn : bool * list string * node => length kn.1.2) <$> map_to_list fs).

(** [filepath.walk], as the list of the (path, info) pairs handed to the
    callback, in order.  An entry that cannot be stat'ed yields a call with
    an error, which the callers here ignore: it is left out. *)
Fixpoint walk (fuel : nat) (fs : gmap (bool * list string) node)
    (path : string) (info : FileInfo) : list (string * FileInfo) :=
  match fuel with
  | O => []
  | S fuel' =>
      if negb (IsDir info) then [(path, info)]
      else
        (path, info) ::
        flat_map
          (fun name =>
             let filename := filepath.Join [path; name] in
             match Lstat fs filename with
             | Ok fileInfo => walk fuel' fs filename fileInfo
             | Err _ => []
             end)
          (match resolve path with Some p => readDirNames fs p | None => [] end)
  end.

(** A tree of depth [d] is exhausted with fuel [d + 1]. *)
Definition Walk (fs : gmap (bool * list string) node) (root : string)
  : list (string * FileInfo) :=
  match Lstat fs root with
  | Err _ => []
  | Ok info => walk (S (depth fs)) fs root info
  end.

End os.

(** ** time: the calendar date of an instant, in UTC *)

Module time.

Record Time : Type := { Year : nat; Month : nat; Day : nat }.

Definition digit (n : nat) : ascii :=
  nth (n mod 10) (list_ascii_of_string "0123456789") "0"%char.

(** [t.Format("2006/01/02")], for the four-digit years [time.Now] gives. *)
Definition Format (t : Time) : string :=
  String (digit (Year t / 1000)) (String (digit (Year t / 100))
    (String (digit (Year t / 10)) (String (digit (Year t)) "")))
  +:+ "/" +:+ String (digit (Month t / 10)) (String (digit (Month t)) "")
  +:+ "/" +:+ String (digit (Day t / 10)) (String (digit (Day t)) "").

End time.

(** ** Byte strings *)

Fixpoint string_take (n : nat) (s : string) : string :=
  match n, s with
  | S n', String c s' => String c (string_take n' s')
  | _, _ => ""
  end.

Fixpoint string_drop (n : nat) (s : string) : string :=
  match n, s with
  | S n', String _ s' => string_drop n' s'
  | _, _ => s
  end.

Definition has_suffix (suffix s : string) : bool :=
  String.eqb (string_drop (String.length s - String.length suffix) s) suffix.

(** ** fmt.Sscanf with a format of literal text followed by [%s]

    The blanks are the one-byte ones of Go's [isSpace]. *)

Module fmt.

Definition isSpace (c : ascii) : bool :=
  let n := nat_of_ascii c in
  (Nat.leb 9 n && Nat.leb n 13) || Nat.eqb n 32.

(** The literal text of the format has to be read as it stands. *)
Fixpoint advance (format input : string) : option string :=
  match format, input with
  | EmptyString, _ => Some input
  | String f format', String c input' =>
      if Ascii.eqb f c then advance format' input' else None
  | String _ _, EmptyString => None
  end.

(** Blanks before a verb are skipped; a newline there is an error. *)
Fixpoint SkipSpace (input : string) : option string :=
  match input with
  | EmptyString => Some ""
  | String c input' =>
      if Ascii.eqb c "010" then None
      else if isSpace c then SkipSpace input'
      else Some input
  end.

Fixpoint token (input : string) : string :=
  match input with
  | EmptyString => ""
  | String c input' => if isSpace c then "" else String c (token input')
  end.

(** [Sscanf(str, literal + "%s", &v)]: the word read, or [None] for an error. *)
Definition Sscanf_s (str literal : string) : option string :=
  match advance literal str with
  | None => None
  | Some rest =>
      match SkipSpace rest with
      | None => None
      | Some EmptyString => None
      | Some word => Some (token word)
      end
  end.

(** The strings on which the model above is all of Go's [%s]: they begin
    with a one-byte character that is no blank. *)
Definition starts_visible (s : string) : bool :=
  match s with
  | String c _ => negb (isSpace c) && Nat.ltb (nat_of_ascii c) 128
  | EmptyString => false
  end.

End fmt.

(** ** vault.go: FilesystemVault, content stored under its hash *)

Module FilesystemVault.

Record t : Type := { basePath : string }.

Definition NewFilesystemVault (fs : gmap (bool * list string) node) (basePath : string)
  : gmap (bool * list string) node * result t error :=
  match os.MkdirAll fs basePath with
  | Err e => (fs, Err (ErrCreateVaultDir e))
  | Ok fs' => (fs', Ok {| basePath := basePath |})
  end.

(** [Store]: [now] is what [time.Now().UTC()] returns during the call. *)
Definition Store (v : t) (now : time.Time) (fs : gmap (bool * list string) node)
    (content : list byte) : gmap (bool * list string) node * result string error :=
  let hexHash := checksum_of content in
  let dir := filepath.Join [basePath v; time.Format now] in
  match os.MkdirAll fs dir with
  | Err e => (fs, Err (ErrCreateDateDir e))
  | Ok fs1 =>
      let path := filepath.Join [dir; hexHash +:+ ".vault"] in
      match os.Stat fs1 path with
      | Ok _ => (fs1, Ok ("vault://" +:+ hexHash))
      | Err _ =>
          match os.WriteFile fs1 path content with
          | Err e => (fs1, Err (ErrWriteVaultFile e))
          | Ok fs2 => (fs2, Ok ("vault://" +:+ hexHash))
          end
      end
  end.

(** The hash [Retrieve] looks for: the reference without its [vault://]. *)
Definition hexHash_of (ref : string) : string :=
  if Nat.ltb 8 (String.length ref) && String.eqb (string_take 8 ref) "vault://"
  then string_drop 8 ref else ref.

(** The callback of the walk stops at the first regular file of that name. *)
Definition Retrieve (v : t) (fs : gmap (bool * list string) node) (ref : string)
  : result (list byte) error :=
  let hexHash :=
    if Nat.ltb 8 (String.length ref) && String.eqb (string_take 8 ref) "vault://"
    then string_drop 8 ref else ref in
  let found :=
    match List.find
            (fun pi : string * FileInfo =>
               negb (IsDir pi.2) && String.eqb (Name pi.2) (hexHash +:+ ".vault"))
            (os.Walk fs (basePath v)) with
    | Some pi => pi.1
    | None => ""
    end in
  if String.eqb found "" then Err (ErrVaultRefNotFound ref)
  else match os.ReadFile fs found with
       | Ok data => Ok data
       | Err e => Err (ErrOS e)
       end.

(** [p] lies below the directory [base]. *)
Definition under (base p : bool * list string) : bool :=
  bool_decide (p.1 = base.1 ∧ base.2 `prefix_of` p.2 ∧ p.2 ≠ base.2).

(** How the vault keeps its directory: what is called [x.vault] there is
    a regular file, and [x] is the checksum of its content. *)
Definition object_ok (p : bool * list string) (n : node) : bool :=
  if has_suffix ".vault" (os.base_name p) then
    match n with
    | File c => String.eqb (os.base_name p) (checksum_of c +:+ ".vault")
    | Directory => false
    end
  else true.

Definition content_addressed (fs : gmap (bool * list string) node) (v : t) : bool :=
  forallb (fun kn : bool * list string * node =>
             negb (under (filepath.normal (basePath v)) kn.1) || object_ok kn.1 kn.2)
          (map_to_list fs).

(** No file of the vault has the checksum of [content] and other bytes. *)
Definition collision_free (fs : gmap (bool * list string) node) (v : t)
    (content : list byte) : bool :=
  forallb (fun kn : bool * list string * node =>
             match kn.2 with
             | File c =>
                 negb (under (filepath.normal (basePath v)) kn.1)
                 || negb (String.eqb (checksum_of c) (checksum_of content))
                 || bool_decide (c = content)
             | Directory => true
             end)
          (map_to_list fs).

(** A vault directory as the stores of the vault leave it: the base and
    what is above it are directories, what is called [x.vault] below the
    base is a file named by its checksum, and every regular file below
    the base lies four levels down (year, month, day, object). *)
Definition kept (fs : gmap (bool * list string) node) (v : t) : bool :=
  content_addressed fs v
  && forallb (λ i, match os.lookup_path fs ((filepath.normal (basePath v)).1,
                                            take i (filepath.normal (basePath v)).2) with
                   | Some Directory => true
                   | _ => false
                   end)
       (seq 0 (S (length (filepath.normal (basePath v)).2)))
  && forallb (λ kn : bool * list string * node,
                match kn.2 with
                | File _ =>
                    negb (under (filepath.normal (basePath v)) kn.1)
                    || Nat.eqb (length kn.1.2) (length (filepath.normal (basePath v)).2 + 4)
                | Directory => true
                end)
       (map_to_list fs).

(** Nothing lies below [base]. *)
Definition fresh (fs : gmap (bool * list string) node) (base : string) : bool :=
  forallb (λ kn : bool * list string * node, negb (under (filepath.normal base) kn.1))
    (map_to_list fs).

(** The vault as the [VaultStorage] of a processor.  What a call changes
    is the disk and the time: the state is the disk with the number of
    calls made so far, and [clock n] is what [time.Now] returns during
    call [n]. *)
Definition vaultStorage (v : t) (clock : nat → time.Time)
    (st : gmap (bool * list string) node * nat) (content : list byte)
  : gmap (bool * list string) node * nat * result string error :=
  ((Store v (clock st.2) st.1 content).1, S st.2, (Store v (clock st.2) st.1 content).2).

(** The object [hexHash] is in the vault directory: a regular file
    [hexHash.vault] in a directory three levels below the base, each
    level a directory. *)
Definition holds (v : t) (fs : gmap (bool * list string) node) (hexHash : string) : Prop :=
  ∃ y m d c,
    Forall (λ n, os.entry_name n = true) [y; m; d; hexHash +:+ ".vault"]
    ∧ (∀ i, (i ≤ 3)%nat →
            os.lookup_path fs
              ((filepath.normal (basePath v)).1,
               (filepath.normal (basePath v)).2 ++ take i [y; m; d])
            = Some Directory)
    ∧ fs !! ((filepath.normal (basePath v)).1,
             (filepath.normal (basePath v)).2 ++ [y; m; d; hexHash +:+ ".vault"])
      = Some (File c).

End FilesystemVault.

(** ** storage/filesystem.go: FilesystemBackend, content stored by path *)

Module storage.

(** The reference record of the package, with the fields [Store] fills. *)
Record Reference : Type :=
  { URI : string; Checksum : string; Encrypted : bool; SizeBytes : Z }.

End storage.

Module FilesystemBackend.
Import storage.

Record t : Type := { basePath : string }.

Definition NewFilesystemBackend (fs : gmap (bool * list string) node) (basePath : string)
  : gmap (bool * list string) node * result t error :=
  match os.MkdirAll fs basePath with
  | Err e => (fs, Err (ErrCreateVaultDirectory e))
  | Ok fs' => (fs', Ok {| basePath := basePath |})
  end.

Definition Store (f : t) (fs : gmap (bool * list string) node)
    (traceID spanID attrKey : string) (data : list byte)
  : gmap (bool * list string) node * result Reference error :=
  let filePath := filepath.Join [basePath f; traceID; spanID; attrKey] in
  let fileDir := filepath.Dir filePath in
  match os.MkdirAll fs fileDir with
  | Err e => (fs, Err (ErrCreateObjectDirectory e))
  | Ok fs1 =>
      let checksum := checksum_of data in
      match os.WriteFile fs1 filePath data with
      | Err e => (fs1, Err (ErrWriteVaultObject e))
      | Ok fs2 =>
          (fs2, Ok {| URI := "promptvault://fs/" +:+ traceID +:+ "/" +:+ spanID +:+ "/" +:+ attrKey;
                      Checksum := checksum;
                      Encrypted := false;
                      SizeBytes := Z.of_nat (length data) |})
      end
  end.

Definition Retrieve (f : t) (fs : gmap (bool * list string) node) (ref : Reference)
  : result (list byte) error :=
  match fmt.Sscanf_s (URI ref) "promptvault://fs/" with
  | None => Err (ErrInvalidURI (URI ref))
  | Some _ =>
      let path := string_drop (String.length "promptvault://fs/") (URI ref) in
      let filePath := filepath.Join [basePath f; path] in
      match os.ReadFile fs filePath with
      | Err e => Err (ErrReadVaultObject e)
      | Ok data =>
          let checksum := checksum_of data in
          if negb (String.eqb checksum (Checksum ref))
          then Err (ErrChecksumMismatch (Checksum ref) checksum)
          else Ok data
      end
  end.

(** [Close] has nothing to release. *)
Definition Close (f : t) : option error := None.

End FilesystemBackend.

(** ** pdata: attribute values and maps, spans and batches

    A [pcommon.Map] is a slice of key/value pairs: [Get] returns the first
    pair of a key, [PutStr] overwrites it or appends, [Remove] moves the
    last pair into the place of the first pair of the key. *)

Module pcommon.

#[warnings="-register-all"]
Inductive Value : Type :=
| ValueEmpty
| ValueStr (s : string)
| ValueInt (i : Z)
| ValueDouble (bits : Z)
| ValueBool (b : bool)
| ValueMap (kvs : list (string * Value))
| ValueSlice (vs : list Value)
| ValueBytes (bs : list byte).

(** [Value.Str]: the string of a string value, [""] for any other. *)
Definition Str (v : Value) : string :=
  match v with
  | ValueStr s => s
  | _ => ""
  end.

Fixpoint Get (m : list (string * Value)) (key : string) : option Value :=
  match m with
  | [] => None
  | (k, v) :: rest => if String.eqb k key then Some v else Get rest key
  end.

Fixpoint PutStr (m : list (string * Value)) (key v : string) : list (string * Value) :=
  match m with
  | [] => [(key, ValueStr v)]
  | (k, x) :: rest =>
      if String.eqb k key then (k, ValueStr v) :: rest else (k, x) :: PutStr rest key v
  end.

Fixpoint Remove (m : list (string * Value)) (key : string) : list (string * Value) :=
  match m with
  | [] => []
  | (k, x) :: rest =>
      if String.eqb k key then
        match last rest with
        | Some kv => kv :: removelast rest
        | None => []
        end
      else (k, x) :: Remove rest key
  end.

End pcommon.

Module ptrace.

Record SpanEvent : Type :=
  { EventName : string; EventAttributes : list (string * pcommon.Value) }.

Record Span : Type :=
  { TraceID : string;
    SpanID : string;
    SpanName : string;
    Attributes : list (string * pcommon.Value);
    Events : list SpanEvent }.

Record ScopeSpans : Type := { Spans : list Span }.

Record ResourceSpans : Type :=
  { ResourceAttributes : list (string * pcommon.Value);
    ScopeSpansOf : list ScopeSpans }.

(** [ptrace.Traces]: the resource spans of a batch. *)
Definition Traces : Type := list ResourceSpans.

(** The spans of a batch, in the order the loops of the processor visit them. *)
Definition spans_of (td : Traces) : list Span :=
  flat_map (fun rs => flat_map Spans (ScopeSpansOf rs)) td.

End ptrace.

(** ** config.go *)

Record FilesystemConfig : Type := { BasePath : string }.

Record StorageConfig : Type := { Backend : string; Filesystem : FilesystemConfig }.

Record VaultConfig : Type :=
  { Keys : list string; SizeThreshold : Z; Mode : string }.

Record Config : Type := { Storage : StorageConfig; Vault : VaultConfig }.

Definition createDefaultConfig : Config :=
  {| Storage := {| Backend := "filesystem";
                   Filesystem := {| BasePath := "/data/vault" |} |};
     Vault := {| Keys := ["gen_ai.prompt"; "gen_ai.completion"; "gen_ai.system_instructions";
                          "gen_ai.input.messages"; "gen_ai.output.messages"];
                 SizeThreshold := 0;
                 Mode := "replace_with_ref" |} |}.

(** ** The processor *)

(** What the logger is handed. *)
Inductive LogEntry : Type :=
| LogWarn (msg key : string) (err : error)
| LogDebug (msg key ref : string) (content_bytes : Z).

Record vaultEntry : Type := { key : string; content : string }.

Record vaultProcessor : Type :=
  { config : Config; keysSet : gmap string bool }.

Definition newVaultProcessor (cfg : Config) : vaultProcessor :=
  {| config := cfg;
     keysSet := fold_left (fun m k => <[k := true]> m) (Keys (Vault cfg)) ∅ |}.

(** [p.keysSet[key]]: a missing key reads as [false]. *)
Definition inKeysSet (p : vaultProcessor) (key : string) : bool :=
  default false (keysSet p !! key).

(** The first pass of [vaultSpan]: the entries to vault, in map order. *)
Definition collect (p : vaultProcessor) (attrs : list (string * pcommon.Value))
  : list vaultEntry :=
  omap (fun kv : string * pcommon.Value =>
          if negb (inKeysSet p kv.1) then None
          else
            let content := pcommon.Str kv.2 in
            if (Z.of_nat (String.length content) <? SizeThreshold (Vault (config p)))%Z
            then None
            else Some {| key := kv.1; content := content |})
       attrs.

Section Processor.

(** The [VaultStorage] behind the processor: [V] is whatever state it
    keeps or reaches (a disk, a clock, a remote service); a call may
    change it and returns a reference or an error. *)
Context {V : Type}.
Variable vault_Store : V → list byte → V * result string error.

(** The next consumer of the pipeline, called once per batch. *)
Variable nextConsumer : ptrace.Traces → option error.

(** A reference the vault has returned for some payload. *)
Definition issued (ref : string) : Prop :=
  ∃ st c st', vault_Store st c = (st', Ok ref).

(** The rewrite of one stored entry. *)
Definition rewrite (p : vaultProcessor) (attrs : list (string * pcommon.Value))
    (entry : vaultEntry) (ref : string) : list (string * pcommon.Value) :=
  if String.eqb (Mode (Vault (config p))) "replace_with_ref" then
    pcommon.PutStr (pcommon.PutStr attrs (key entry) ref) (key entry +:+ ".vault_ref") ref
  else if String.eqb (Mode (Vault (config p))) "remove" then
    pcommon.PutStr (pcommon.Remove attrs (key entry)) (key entry +:+ ".vault_ref") ref
  else attrs.

(** The second pass of [vaultSpan]: the loop over [toVault]. *)
Fixpoint offload (p : vaultProcessor) (toVault : list vaultEntry)
    (st : V) (attrs : list (string * pcommon.Value)) (log : list LogEntry)
  : V * list (string * pcommon.Value) * list LogEntry :=
  match toVault with
  | [] => (st, attrs, log)
  | entry :: rest =>
      match vault_Store st (list_byte_of_string (content entry)) with
      | (st', Err err) =>
          offload p rest st' attrs (log ++ [LogWarn "vault store failed" (key entry) err])
      | (st', Ok ref) =>
          offload p rest st' (rewrite p attrs entry ref)
            (log ++ [LogDebug "vaulted attribute" (key entry) ref
                       (Z.of_nat (String.length (content entry)))])
      end
  end.

Definition vaultSpan (p : vaultProcessor) (span : ptrace.Span) (st : V) (log : list LogEntry)
  : V * ptrace.Span * list LogEntry :=
  let attrs := ptrace.Attributes span in
  let toVault := collect p attrs in
  let '(st', attrs', log') := offload p toVault st attrs log in
  (st',
   {| ptrace.TraceID := ptrace.TraceID span;
      ptrace.SpanID := ptrace.SpanID span;
      ptrace.SpanName := ptrace.SpanName span;
      ptrace.Attributes := attrs';
      ptrace.Events := ptrace.Events span |},
   log').

(** The three nested loops of [ConsumeTraces]. *)
Fixpoint vaultSpans (p : vaultProcessor) (spans : list ptrace.Span) (st : V)
    (log : list LogEntry) : V * list ptrace.Span * list LogEntry :=
  match spans with
  | [] => (st, [], log)
  | span :: rest =>
      let '(st1, span', log1) := vaultSpan p span st log in
      let '(st2, rest', log2) := vaultSpans p rest st1 log1 in
      (st2, span' :: rest', log2)
  end.

Fixpoint vaultScopes (p : vaultProcessor) (ilss : list ptrace.ScopeSpans) (st : V)
    (log : list LogEntry) : V * list ptrace.ScopeSpans * list LogEntry :=
  match ilss with
  | [] => (st, [], log)
  | ss :: rest =>
      let '(st1, spans', log1) := vaultSpans p (ptrace.Spans ss) st log in
      let '(st2, rest', log2) := vaultScopes p rest st1 log1 in
      (st2, {| ptrace.Spans := spans' |} :: rest', log2)
  end.

Fixpoint vaultResources (p : vaultProcessor) (rss : list ptrace.ResourceSpans) (st : V)
    (log : list LogEntry) : V * list ptrace.ResourceSpans * list LogEntry :=
  match rss with
  | [] => (st, [], log)
  | rs :: rest =>
      let '(st1, ilss', log1) := vaultScopes p (ptrace.ScopeSpansOf rs) st log in
      let '(st2, rest', log2) := vaultResources p rest st1 log1 in
      (st2,
       {| ptrace.ResourceAttributes := ptrace.ResourceAttributes rs;
          ptrace.ScopeSpansOf := ilss' |} :: rest',
       log2)
  end.

(** The outcome of a call: the state the vault is left in, the batch as
    it is handed on, the log, and the error returned. *)
Record Consumed : Type :=
  { vault_after : V;
    forwarded : ptrace.Traces;
    logged : list LogEntry;
    returned : option error }.

Definition ConsumeTraces (p : vaultProcessor) (st : V) (td : ptrace.Traces) : Consumed :=
  let '(st', td', log) := vaultResources p td st [] in
  {| vault_after := st'; forwarded := td'; logged := log; returned := nextConsumer td' |}.

End Processor.

(** ** The rest of the component: lifecycle and factory *)

(** The fields of the line [Start] logs at Info level. *)
Record StartInfo : Type :=
  { started_msg : string;
    started_vault_keys : Z;
    started_mode : string;
    started_backend : string }.

Definition Start (p : vaultProcessor) : StartInfo * option error :=
  ({| started_msg := "promptvault processor started";
      started_vault_keys := Z.of_nat (size (keysSet p));
      started_mode := Mode (Vault (config p));
      started_backend := Backend (Storage (config p)) |},
   None).

Definition Shutdown (p : vaultProcessor) : option error := None.

Record consumer_Capabilities : Type := { MutatesData : bool }.

Definition Capabilities (p : vaultProcessor) : consumer_Capabilities :=
  {| MutatesData := true |}.

(** factory.go *)
Definition typeStr : string := "promptvault".

(** [createTracesProcessor]: the vault is made at the configured base
    path; the processor is returned with the vault it stores to. *)
Definition createTracesProcessor (fs : gmap (bool * list string) node) (pCfg : Config)
  : gmap (bool * list string) node * result (vaultProcessor * FilesystemVault.t) error :=
  match FilesystemVault.NewFilesystemVault fs (BasePath (Filesystem (Storage pCfg))) with
  | (fs', Err err) => (fs', Err err)
  | (fs', Ok vault) => (fs', Ok (newVaultProcessor pCfg, vault))
  end.

(** ** Notions used in the statements *)

(** The pending entries of a batch, span after span. *)
Definition pending (p : vaultProcessor) (td : ptrace.Traces) : list vaultEntry :=
  flat_map (λ span, collect p (ptrace.Attributes span)) (ptrace.spans_of td).

(** The state of the vault after the calls for [entries], in order. *)
Definition stored {V : Type} (store : V → list byte → V * result string error)
    (entries : list vaultEntry) (st : V) : V :=
  fold_left (λ s e, (store s (list_byte_of_string (content e))).1) entries st.

Definition log_key (e : LogEntry) : string :=
  match e with
  | LogWarn _ k _ => k
  | LogDebug _ k _ _ => k
  end.

(** The identity of a span: what is not its attributes or events. *)
Definition span_ident (span : ptrace.Span) : string * string * string :=
  (ptrace.TraceID span, ptrace.SpanID span, ptrace.SpanName span).

(** The shape of a batch: the resource attributes and, scope by scope,
    the number of spans. *)
Definition batch_shape (td : ptrace.Traces)
  : list (list (string * pcommon.Value) * list nat) :=
  (λ rs, (ptrace.ResourceAttributes rs,
          (λ ss, length (ptrace.Spans ss)) <$> ptrace.ScopeSpansOf rs)) <$> td.

Definition is_lower_hex (c : ascii) : bool := existsb (Ascii.eqb c) hex.hextable.

(** ** Concrete inputs for the examples below *)

Module Examples.

Definition bytes (s : string) : list byte := list_byte_of_string s.

Definition disk0 : gmap (bool * list string) node := ∅.

Definition now : time.Time := {| time.Year := 2024; time.Month := 3; time.Day := 7 |}.

Definition later : time.Time := {| time.Year := 2024; time.Month := 11; time.Day := 30 |}.

Definition vault : FilesystemVault.t := {| FilesystemVault.basePath := "/data/vault" |}.

Definition backend : FilesystemBackend.t := {| FilesystemBackend.basePath := "/data/vault" |}.

(** The vault of the factory, on a disk, at a fixed date. *)
Definition diskStore : gmap (bool * list string) node → list byte
    → gmap (bool * list string) node * result string error :=
  FilesystemVault.Store vault now.

(** A vault kept in memory that takes every payload. *)
Definition memStore (st : list (list byte)) (c : list byte)
  : list (list byte) * result string error :=
  (st ++ [c], Ok ("vault://" +:+ checksum_of c)).

(** A vault that refuses every payload. *)
Definition failStore (st : unit) (c : list byte) : unit * result string error :=
  (st, Err (ErrOther "read-only file system")).

Definition downstream (td : ptrace.Traces) : option error := None.

Definition policy (keys : list string) (threshold : Z) (mode : string) : Config :=
  {| Storage := Storage createDefaultConfig;
     Vault := {| Keys := keys; SizeThreshold := threshold; Mode := mode |} |}.

Definition span_of (attrs : list (string * pcommon.Value)) (events : list ptrace.SpanEvent)
  : ptrace.Span :=
  {| ptrace.TraceID := "0102030405060708090a0b0c0d0e0f10";
     ptrace.SpanID := "0102030405060708";
     ptrace.SpanName := "chat";
     ptrace.Attributes := attrs;
     ptrace.Events := events |}.

Definition batch_of (span : ptrace.Span) : ptrace.Traces :=
  [ {| ptrace.ResourceAttributes := [];
       ptrace.ScopeSpansOf := [ {| ptrace.Spans := [span] |} ] |} ].

(** The attribute of the mode examples of the specification. *)
Definition sensitive : list (string * pcommon.Value) :=
  [("gen_ai.input.messages", pcommon.ValueStr "hello world, this is sensitive")].

(** A span whose only eligible attribute sits on an event. *)
Definition span_with_event : ptrace.Span :=
  span_of [("http.method", pcommon.ValueStr "POST")]
    [ {| ptrace.EventName := "gen_ai.prompt";
         ptrace.EventAttributes :=
           [("gen_ai.prompt",
             pcommon.ValueStr "A long prompt that should be vaulted from the event attributes")] |} ].

(** An eligible attribute next to an attribute that already has the name
    of its sibling. *)
Definition with_sibling : list (string * pcommon.Value) :=
  [("gen_ai.prompt", pcommon.ValueStr "Tell me about quantum computing");
   ("gen_ai.prompt.vault_ref", pcommon.ValueStr "set upstream")].

(** A vault directory that holds one object. *)
Definition disk1 : gmap (bool * list string) node :=
  (FilesystemVault.Store vault now disk0 (bytes "abc")).1.

Definition trace_id : string := "0102030405060708090a0b0c0d0e0f10".

Definition span_id : string := "0102030405060708".

(** The file of the backend for [gen_ai.prompt] of that span. *)
Definition object_file : string :=
  filepath.Join [FilesystemBackend.basePath backend; trace_id; span_id; "gen_ai.prompt"].

(** The disk after the backend has stored ["abc"] for that attribute, and
    the reference it has returned. *)
Definition bdisk1 : gmap (bool * list string) node :=
  (FilesystemBackend.Store backend disk0 trace_id span_id "gen_ai.prompt" (bytes "abc")).1.

Definition ref_abc : storage.Reference :=
  {| storage.URI :=
       "promptvault://fs/0102030405060708090a0b0c0d0e0f10/0102030405060708/gen_ai.prompt";
     storage.Checksum := "ba7816bf8f01cfea414140de5dae2223b00361a396177a9cb410ff61f20015ad";
     storage.Encrypted := false;
     storage.SizeBytes := 3 |}.

(** The same reference as a legacy one: no checksum, size unknown. *)
Definition ref_legacy : storage.Reference :=
  {| storage.URI := storage.URI ref_abc;
     storage.Checksum := "";
     storage.Encrypted := false;
     storage.SizeBytes := -1 |}.

(** The object file altered after the store. *)
Definition bdisk_altered : gmap (bool * list string) node :=
  match os.WriteFile bdisk1 object_file (bytes "abd") with
  | Ok fs => fs
  | Err _ => bdisk1
  end.

(** The disk after a second store for the same attribute of the same span. *)
Definition bdisk2 : gmap (bool * list string) node :=
  (FilesystemBackend.Store backend bdisk1 trace_id span_id "gen_ai.prompt" (bytes "xyz")).1.

(** The span attributes of the processor's own test. *)
Definition quantum : list (string * pcommon.Value) :=
  [("gen_ai.prompt", pcommon.ValueStr "Tell me about quantum computing");
   ("gen_ai.completion", pcommon.ValueStr "Quantum computing uses qubits...")].

(** A clock that is past midnight after the first call. *)
Definition clock (n : nat) : time.Time :=
  match n with
  | O => now
  | _ => later
  end.

Definition s49 : string := "0123456789012345678901234567890123456789012345678".

Definition s50 : string := "01234567890123456789012345678901234567890123456789".

End Examples.
(** * Properties *)

(** ** Attribute maps *)

Lemma String_eqb_decide (a b : string) : String.eqb a b = bool_decide (a = b).
Proof.
  destruct (String.eqb_spec a b) as [H|H].
  - by rewrite bool_decide_eq_true_2.
  - by rewrite bool_decide_eq_false_2.
Qed.

Lemma Get_PutStr_eq (m : list (string * pcommon.Value)) (k v : string) :
  pcommon.Get (pcommon.PutStr m k v) k = Some (pcommon.ValueStr v).
Proof.
  induction m as [|[k' x] m IH]; simpl.
  - by rewrite String.eqb_refl.
  - destruct (String.eqb k' k) eqn:E; simpl; rewrite E; [done | exact IH].
Qed.

Lemma Get_PutStr_ne (m : list (string * pcommon.Value)) (k k' v : string) :
  k ≠ k' → pcommon.Get (pcommon.PutStr m k v) k' = pcommon.Get m k'.
Proof.
  intros Hne. induction m as [|[k0 x] m IH]; simpl.
  - destruct (String.eqb_spec k k'); [done | reflexivity].
  - destruct (String.eqb_spec k0 k) as [->|Hk]; simpl.
    + destruct (String.eqb_spec k k'); [done | reflexivity].
    + destruct (String.eqb_spec k0 k'); [reflexivity | exact IH].
Qed.

Lemma PutStr_keys (m : list (string * pcommon.Value)) (k v : string) :
  (pcommon.PutStr m k v).*1 = if bool_decide (k ∈ m.*1) then m.*1 else m.*1 ++ [k].
Proof.
  induction m as [|[k0 x] m IH].
  - rewrite bool_decide_eq_false_2; [done | apply not_elem_of_nil].
  - cbn [pcommon.PutStr]. destruct (String.eqb_spec k0 k) as [->|Hk].
    + rewrite bool_decide_eq_true_2; [done | apply elem_of_cons; by left].
    + rewrite fmap_cons, IH. destruct (decide (k ∈ m.*1)) as [Hin|Hin].
      * rewrite !bool_decide_eq_true_2; [done | | done]. apply elem_of_cons; by right.
      * rewrite !bool_decide_eq_false_2; [done | | done].
        rewrite fmap_cons, not_elem_of_cons. simpl. split; [congruence | done].
Qed.

Lemma NoDup_PutStr (m : list (string * pcommon.Value)) (k v : string) :
  NoDup m.*1 → NoDup (pcommon.PutStr m k v).*1.
Proof.
  intros Hnd. rewrite PutStr_keys. case_bool_decide as Hin; [done|].
  apply NoDup_app. split; [done|]. split.
  - intros x Hx ->%list_elem_of_singleton. done.
  - apply NoDup_singleton.
Qed.

Lemma Get_None (m : list (string * pcommon.Value)) (k : string) :
  pcommon.Get m k = None ↔ k ∉ m.*1.
Proof.
  induction m as [|[k0 x] m IH]; simpl.
  - split; [intros _; apply not_elem_of_nil | done].
  - destruct (String.eqb_spec k0 k) as [->|Hk].
    + split; [done|]. intros H. exfalso. apply H, elem_of_cons. by left.
    + rewrite IH, not_elem_of_cons. split; [by split | by intros [_ ?]].
Qed.

Lemma Get_Some (m : list (string * pcommon.Value)) (k : string) (v : pcommon.Value) :
  NoDup m.*1 → pcommon.Get m k = Some v ↔ (k, v) ∈ m.
Proof.
  induction m as [|[k0 x] m IH]; simpl; intros Hnd.
  - split; [done | intros []%elem_of_nil].
  - apply NoDup_cons in Hnd as [Hk0 Hnd].
    destruct (String.eqb_spec k0 k) as [->|Hk].
    + split.
      * intros [= ->]. apply elem_of_cons; by left.
      * intros [[= ->]|Hin]%elem_of_cons; [done|].
        exfalso. apply Hk0. apply list_elem_of_fmap. by exists (k, v).
    + rewrite (IH Hnd), elem_of_cons. split; [by right | intros [[= ? ?]|?]; congruence].
Qed.

Lemma Get_Permutation (m m' : list (string * pcommon.Value)) (k : string) :
  NoDup m.*1 → m ≡ₚ m' → pcommon.Get m k = pcommon.Get m' k.
Proof.
  intros Hnd Hp.
  assert (Hnd' : NoDup m'.*1) by (by rewrite <- Hp).
  destruct (pcommon.Get m k) as [v|] eqn:E.
  - apply (Get_Some _ _ _ Hnd) in E. symmetry. apply (Get_Some _ _ _ Hnd'). by rewrite <- Hp.
  - apply Get_None in E. symmetry. apply Get_None. by rewrite <- Hp.
Qed.

Lemma filter_all {A} (P : A → Prop) `{!∀ x, Decision (P x)} (l : list A) :
  Forall P l → filter P l = l.
Proof.
  induction 1 as [|x l Hx _ IH]; [done|]. by rewrite filter_cons_True, IH.
Qed.

(** [Remove] drops the first pair of the key and keeps the others, in
    another order. *)
Lemma Remove_Permutation (m : list (string * pcommon.Value)) (k : string) :
  NoDup m.*1 → pcommon.Remove m k ≡ₚ filter (λ kv, kv.1 ≠ k) m.
Proof.
  induction m as [|[k0 x] m IH]; simpl; intros Hnd; [done|].
  apply NoDup_cons in Hnd as [Hk0 Hnd].
  destruct (String.eqb_spec k0 k) as [->|Hk].
  - rewrite filter_cons_False by (simpl; by intros ?).
    assert (Hf : filter (λ kv : string * pcommon.Value, kv.1 ≠ k) m = m).
    { apply filter_all, Forall_forall. intros [k1 v1] Hin Heq. simpl in Heq. subst k1.
      apply Hk0, list_elem_of_fmap. by exists (k, v1). }
    rewrite Hf. destruct (last m) as [kv|] eqn:El.
    + apply last_Some in El as [l' ->]. rewrite removelast_last.
      by rewrite Permutation_cons_append.
    + apply last_None in El. by subst.
  - rewrite filter_cons_True by done. by rewrite (IH Hnd).
Qed.

Lemma NoDup_Remove (m : list (string * pcommon.Value)) (k : string) :
  NoDup m.*1 → NoDup (pcommon.Remove m k).*1.
Proof.
  intros Hnd. rewrite (Remove_Permutation _ _ Hnd).
  eapply sublist_NoDup; [exact Hnd|]. apply fmap_sublist, sublist_filter.
Qed.

Lemma Get_Remove_eq (m : list (string * pcommon.Value)) (k : string) :
  NoDup m.*1 → pcommon.Get (pcommon.Remove m k) k = None.
Proof.
  intros Hnd. apply Get_None. rewrite (Remove_Permutation _ _ Hnd).
  intros ([k1 v1] & -> & Hin)%list_elem_of_fmap.
  apply list_elem_of_filter in Hin as [Hne _]. by apply Hne.
Qed.

Lemma Get_Remove_ne (m : list (string * pcommon.Value)) (k k' : string) :
  NoDup m.*1 → k ≠ k' → pcommon.Get (pcommon.Remove m k) k' = pcommon.Get m k'.
Proof.
  intros Hnd Hne.
  rewrite (Get_Permutation _ _ k' (NoDup_Remove _ k Hnd) (Remove_Permutation _ _ Hnd)).
  induction m as [|[k0 x] m IH]; simpl; [done|].
  apply NoDup_cons in Hnd as [Hk0 Hnd].
  destruct (decide (k0 = k)) as [->|Hk].
  - rewrite filter_cons_False by (simpl; by intros ?).
    destruct (String.eqb_spec k k'); [done|]. by apply IH.
  - rewrite filter_cons_True by done. simpl.
    destruct (String.eqb_spec k0 k'); [done|]. by apply IH.
Qed.

(** ** The key set and the first pass *)

Lemma length_append (a b : string) :
  String.length (a +:+ b) = (String.length a + String.length b)%nat.
Proof. induction a as [|c a IH]; simpl; [done | by rewrite IH]. Qed.

Lemma sibling_ne (k : string) : k +:+ ".vault_ref" ≠ k.
Proof.
  intros H. apply (f_equal String.length) in H. rewrite length_append in H. simpl in H. lia.
Qed.

Lemma keysSet_fold (l : list string) (m : gmap string bool) (k : string) :
  fold_left (fun m k => <[k := true]> m) l m !! k
  = if bool_decide (k ∈ l) then Some true else m !! k.
Proof.
  revert m. induction l as [|k0 l IH]; intros m.
  - rewrite bool_decide_eq_false_2; [done | apply not_elem_of_nil].
  - cbn [fold_left]. rewrite IH. destruct (decide (k = k0)) as [->|Hne].
    + rewrite lookup_insert_eq.
      rewrite (bool_decide_eq_true_2 (k0 ∈ k0 :: l)) by (apply elem_of_cons; by left).
      by case_bool_decide.
    + rewrite lookup_insert_ne by done.
      destruct (decide (k ∈ l)) as [Hin|Hin].
      * rewrite !bool_decide_eq_true_2; [done | apply elem_of_cons; by right | done].
      * rewrite !bool_decide_eq_false_2; [done | | done].
        rewrite not_elem_of_cons. by split.
Qed.

(** The key set built by [newVaultProcessor] holds the configured keys. *)
Lemma inKeysSet_new (cfg : Config) (k : string) :
  inKeysSet (newVaultProcessor cfg) k = true ↔ k ∈ Keys (Vault cfg).
Proof.
  unfold inKeysSet, newVaultProcessor. simpl. rewrite keysSet_fold.
  case_bool_decide as Hin; simpl.
  - by split.
  - rewrite lookup_empty. simpl. by split.
Qed.

Lemma elem_of_collect (p : vaultProcessor) (attrs : list (string * pcommon.Value))
    (e : vaultEntry) :
  e ∈ collect p attrs ↔
  ∃ kv, kv ∈ attrs ∧ inKeysSet p kv.1 = true
        ∧ (SizeThreshold (Vault (config p)) ≤ Z.of_nat (String.length (pcommon.Str kv.2)))%Z
        ∧ e = {| key := kv.1; content := pcommon.Str kv.2 |}.
Proof.
  unfold collect. rewrite list_elem_of_omap. split.
  - intros (kv & Hin & Hf). exists kv. split; [done|].
    destruct (inKeysSet p kv.1); simpl in Hf; [|done].
    destruct (Z.ltb_spec (Z.of_nat (String.length (pcommon.Str kv.2)))
                (SizeThreshold (Vault (config p)))); [done|].
    by injection Hf as <-.
  - intros (kv & Hin & Hk & Hlen & ->). exists kv. split; [done|].
    rewrite Hk. simpl.
    destruct (Z.ltb_spec (Z.of_nat (String.length (pcommon.Str kv.2)))
                (SizeThreshold (Vault (config p)))); [lia | done].
Qed.

(** ** The second pass *)

Section ProcessorFacts.
Context {V : Type}.
Variable store : V → list byte → V * result string error.

Lemma NoDup_rewrite (p : vaultProcessor) (attrs : list (string * pcommon.Value))
    (e : vaultEntry) (ref : string) :
  NoDup attrs.*1 → NoDup (rewrite p attrs e ref).*1.
Proof.
  intros Hnd. unfold rewrite.
  destruct (String.eqb _ "replace_with_ref").
  - by do 2 apply NoDup_PutStr.
  - destruct (String.eqb _ "remove"); [|done].
    by apply NoDup_PutStr, NoDup_Remove.
Qed.

(** A rewrite touches the key of its entry and the sibling key only. *)
Lemma Get_rewrite_other (p : vaultProcessor) (attrs : list (string * pcommon.Value))
    (e : vaultEntry) (ref K : string) :
  NoDup attrs.*1 → key e ≠ K → key e +:+ ".vault_ref" ≠ K →
  pcommon.Get (rewrite p attrs e ref) K = pcommon.Get attrs K.
Proof.
  intros Hnd H1 H2. unfold rewrite.
  destruct (String.eqb _ "replace_with_ref").
  - by rewrite !Get_PutStr_ne.
  - destruct (String.eqb _ "remove"); [|done].
    by rewrite Get_PutStr_ne, Get_Remove_ne.
Qed.

(** Whatever a rewrite does to a key, it leaves it as it was, absent, or
    holding the reference. *)
Lemma Get_rewrite_cases (p : vaultProcessor) (attrs : list (string * pcommon.Value))
    (e : vaultEntry) (ref K : string) :
  NoDup attrs.*1 →
  pcommon.Get (rewrite p attrs e ref) K = pcommon.Get attrs K
  ∨ pcommon.Get (rewrite p attrs e ref) K = None
  ∨ pcommon.Get (rewrite p attrs e ref) K = Some (pcommon.ValueStr ref).
Proof.
  intros Hnd. unfold rewrite.
  destruct (String.eqb _ "replace_with_ref").
  - destruct (decide (key e +:+ ".vault_ref" = K)) as [<-|H2].
    { right; right. apply Get_PutStr_eq. }
    rewrite Get_PutStr_ne by done.
    destruct (decide (key e = K)) as [<-|H1].
    { right; right. apply Get_PutStr_eq. }
    left. by rewrite Get_PutStr_ne.
  - destruct (String.eqb _ "remove"); [|by left].
    destruct (decide (key e +:+ ".vault_ref" = K)) as [<-|H2].
    { right; right. apply Get_PutStr_eq. }
    rewrite Get_PutStr_ne by done.
    destruct (decide (key e = K)) as [<-|H1].
    { right; left. by apply Get_Remove_eq. }
    left. by rewrite Get_Remove_ne.
Qed.

(** In the mode that replaces, a rewrite removes nothing. *)
Lemma Get_rewrite_replace (p : vaultProcessor) (attrs : list (string * pcommon.Value))
    (e : vaultEntry) (ref K : string) :
  Mode (Vault (config p)) = "replace_with_ref" →
  pcommon.Get (rewrite p attrs e ref) K = pcommon.Get attrs K
  ∨ pcommon.Get (rewrite p attrs e ref) K = Some (pcommon.ValueStr ref).
Proof.
  intros Hm. unfold rewrite. rewrite Hm. simpl.
  destruct (decide (key e +:+ ".vault_ref" = K)) as [<-|H2].
  { right. apply Get_PutStr_eq. }
  rewrite Get_PutStr_ne by done.
  destruct (decide (key e = K)) as [<-|H1].
  { right. apply Get_PutStr_eq. }
  left. by rewrite Get_PutStr_ne.
Qed.

Lemma vaultSpan_attrs (p : vaultProcessor) (span : ptrace.Span) (st : V)
    (log : list LogEntry) :
  ptrace.Attributes (vaultSpan store p span st log).1.2
  = (offload store p (collect p (ptrace.Attributes span)) st (ptrace.Attributes span) log).1.2.
Proof.
  unfold vaultSpan. by destruct (offload store p _ st _ log) as [[st' attrs'] log'].
Qed.

(** An invariant of the attribute map that every rewrite of an entry
    satisfying [Q] keeps is kept by the loop. *)
Lemma offload_preserves (p : vaultProcessor) (P : list (string * pcommon.Value) → Prop)
    (Q : vaultEntry → Prop) :
  (∀ attrs e ref, issued store ref → Q e → NoDup attrs.*1 → P attrs →
                  P (rewrite p attrs e ref)) →
  ∀ toVault st attrs log,
    Forall Q toVault → NoDup attrs.*1 → P attrs →
    NoDup (offload store p toVault st attrs log).1.2.*1
    ∧ P (offload store p toVault st attrs log).1.2.
Proof.
  intros Hstep toVault. induction toVault as [|e rest IH]; intros st attrs log HQ Hnd HP.
  - by split.
  - apply Forall_cons in HQ as [He HQ]. simpl.
    destruct (store st (list_byte_of_string (content e))) as [st' [ref|err]] eqn:E.
    + apply IH; [done | by apply NoDup_rewrite |].
      apply Hstep; [by exists st, (list_byte_of_string (content e)), st' | done..].
    + by apply IH.
Qed.

(** Once an entry whose store succeeds has been rewritten, what its
    rewrite establishes and the later ones keep holds at the end. *)
Lemma offload_establishes (p : vaultProcessor) (P : list (string * pcommon.Value) → Prop)
    (Q : vaultEntry → Prop) (e0 : vaultEntry) :
  (∀ attrs e ref, issued store ref → Q e → NoDup attrs.*1 → P attrs →
                  P (rewrite p attrs e ref)) →
  (∀ attrs ref, issued store ref → NoDup attrs.*1 → P (rewrite p attrs e0 ref)) →
  (∀ st, ∃ st' ref, store st (list_byte_of_string (content e0)) = (st', Ok ref)) →
  ∀ toVault st attrs log,
    e0 ∈ toVault → Forall Q toVault → NoDup attrs.*1 →
    P (offload store p toVault st attrs log).1.2.
Proof.
  intros Hstep Hhit Hok toVault.
  induction toVault as [|e rest IH]; intros st attrs log Hin HQ Hnd.
  - by apply elem_of_nil in Hin.
  - apply Forall_cons in HQ as [He HQ]. simpl.
    apply elem_of_cons in Hin as [<-|Hin].
    + destruct (Hok st) as (st' & ref & E). rewrite E.
      apply (offload_preserves p P Q Hstep); [done | by apply NoDup_rewrite |].
      apply Hhit; [by exists st, (list_byte_of_string (content e0)), st' | done].
    + destruct (store st (list_byte_of_string (content e))) as [st' [ref|err]].
      * apply IH; [done | done | by apply NoDup_rewrite].
      * by apply IH.
Qed.

(** A key that is neither the key nor the sibling key of a pending entry
    reads the same after the loop. *)
Lemma offload_frame (p : vaultProcessor) (K : string) :
  ∀ toVault st attrs log,
    NoDup attrs.*1 →
    Forall (λ e, key e ≠ K ∧ key e +:+ ".vault_ref" ≠ K) toVault →
    pcommon.Get (offload store p toVault st attrs log).1.2 K = pcommon.Get attrs K.
Proof.
  intros toVault st attrs log Hnd HQ.
  apply (offload_preserves p (λ m, pcommon.Get m K = pcommon.Get attrs K)
           (λ e, key e ≠ K ∧ key e +:+ ".vault_ref" ≠ K)); [|done|done|done].
  intros m e ref _ [H1 H2] Hm Heq. by rewrite Get_rewrite_other.
Qed.

(** In the mode that removes, a rewrite clears the key of its entry. *)
Lemma Get_rewrite_remove (p : vaultProcessor) (attrs : list (string * pcommon.Value))
    (e : vaultEntry) (ref K : string) :
  Mode (Vault (config p)) = "remove" → NoDup attrs.*1 → key e +:+ ".vault_ref" ≠ K →
  pcommon.Get (rewrite p attrs e ref) K
  = if decide (key e = K) then None else pcommon.Get attrs K.
Proof.
  intros Hm Hnd H2. unfold rewrite. rewrite Hm. simpl.
  rewrite Get_PutStr_ne by done.
  destruct (decide (key e = K)) as [<-|H1].
  - by apply Get_Remove_eq.
  - by apply Get_Remove_ne.
Qed.

(** Replace mode: the attribute of a stored entry ends up holding a
    reference the vault has returned. *)
Lemma offload_replaced (p : vaultProcessor) (e0 : vaultEntry) :
  Mode (Vault (config p)) = "replace_with_ref" →
  (∀ st, ∃ st' ref, store st (list_byte_of_string (content e0)) = (st', Ok ref)) →
  ∀ toVault st attrs log,
    e0 ∈ toVault → NoDup attrs.*1 →
    ∃ ref, issued store ref
           ∧ pcommon.Get (offload store p toVault st attrs log).1.2 (key e0)
             = Some (pcommon.ValueStr ref).
Proof.
  intros Hm Hok toVault st attrs log Hin Hnd.
  apply (offload_establishes p
           (λ m, ∃ ref, issued store ref ∧ pcommon.Get m (key e0) = Some (pcommon.ValueStr ref))
           (λ _, True) e0); [| |done|done| |done].
  - intros m e ref Hi _ _ (ref0 & Hi0 & Hg).
    destruct (Get_rewrite_replace p m e ref (key e0) Hm) as [->| ->].
    + by exists ref0.
    + by exists ref.
  - intros m ref Hi _. exists ref. split; [done|].
    unfold rewrite. rewrite Hm. simpl.
    rewrite Get_PutStr_ne by apply sibling_ne. apply Get_PutStr_eq.
  - by apply Forall_forall.
Qed.

(** Remove mode: the attribute of a stored entry is gone at the end,
    unless a pending entry has it for sibling key. *)
Lemma offload_removed (p : vaultProcessor) (e0 : vaultEntry) :
  Mode (Vault (config p)) = "remove" →
  (∀ st, ∃ st' ref, store st (list_byte_of_string (content e0)) = (st', Ok ref)) →
  ∀ toVault st attrs log,
    e0 ∈ toVault → NoDup attrs.*1 →
    Forall (λ e, key e +:+ ".vault_ref" ≠ key e0) toVault →
    pcommon.Get (offload store p toVault st attrs log).1.2 (key e0) = None.
Proof.
  intros Hm Hok toVault st attrs log Hin Hnd HQ.
  apply (offload_establishes p (λ m, pcommon.Get m (key e0) = None)
           (λ e, key e +:+ ".vault_ref" ≠ key e0) e0); [| |done|done|done|done].
  - intros m e ref _ He Hm' Hg. rewrite Get_rewrite_remove by done. by case_decide.
  - intros m ref _ Hm'. rewrite Get_rewrite_remove by (done || apply sibling_ne).
    by rewrite decide_True.
Qed.

(** Whatever the mode, a stored entry whose attribute was no string does
    not keep its value. *)
Lemma offload_overwritten (p : vaultProcessor) (e0 : vaultEntry) (v : pcommon.Value) :
  Mode (Vault (config p)) = "replace_with_ref" ∨ Mode (Vault (config p)) = "remove" →
  (∀ s, v ≠ pcommon.ValueStr s) →
  (∀ st, ∃ st' ref, store st (list_byte_of_string (content e0)) = (st', Ok ref)) →
  ∀ toVault st attrs log,
    e0 ∈ toVault → NoDup attrs.*1 →
    pcommon.Get (offload store p toVault st attrs log).1.2 (key e0) ≠ Some v.
Proof.
  intros Hm Hv Hok toVault st attrs log Hin Hnd.
  apply (offload_establishes p (λ m, pcommon.Get m (key e0) ≠ Some v) (λ _, True) e0);
    [| |done|done| |done].
  - intros m e ref _ _ Hm' Hg.
    destruct (Get_rewrite_cases p m e ref (key e0) Hm') as [->|[->| ->]]; [done|done|].
    intros [= <-]. by eapply Hv.
  - intros m ref _ Hm'. destruct Hm as [Hm|Hm].
    + unfold rewrite. rewrite Hm. simpl.
      rewrite Get_PutStr_ne by apply sibling_ne. rewrite Get_PutStr_eq.
      intros [= <-]. by eapply Hv.
    + rewrite Get_rewrite_remove by (done || apply sibling_ne). by rewrite decide_True.
  - by apply Forall_forall.
Qed.

(** The loop goes through the whole list: a failure ends one iteration only. *)
Lemma offload_app (p : vaultProcessor) (l1 l2 : list vaultEntry) (st : V)
    (attrs : list (string * pcommon.Value)) (log : list LogEntry) :
  offload store p (l1 ++ l2) st attrs log
  = let r := offload store p l1 st attrs log in offload store p l2 r.1.1 r.1.2 r.2.
Proof.
  revert st attrs log. induction l1 as [|e l1 IH]; intros st attrs log; simpl; [done|].
  destruct (store st (list_byte_of_string (content e))) as [st' [ref|err]]; apply IH.
Qed.

(** With a mode that is neither of the two of the switch, no attribute is
    written. *)
Lemma offload_other_mode (p : vaultProcessor) :
  Mode (Vault (config p)) ≠ "replace_with_ref" → Mode (Vault (config p)) ≠ "remove" →
  ∀ toVault st attrs log, (offload store p toVault st attrs log).1.2 = attrs.
Proof.
  intros H1 H2 toVault. induction toVault as [|e rest IH]; intros st attrs log; simpl; [done|].
  destruct (store st (list_byte_of_string (content e))) as [st' [ref|err]]; [|apply IH].
  rewrite IH. unfold rewrite.
  destruct (String.eqb_spec (Mode (Vault (config p))) "replace_with_ref"); [done|].
  by destruct (String.eqb_spec (Mode (Vault (config p))) "remove").
Qed.

(** With a vault that fails on every call, no attribute is written. *)
Lemma offload_all_fail (p : vaultProcessor) :
  (∀ st c, ∃ st' err, store st c = (st', Err err)) →
  ∀ toVault st attrs log, (offload store p toVault st attrs log).1.2 = attrs.
Proof.
  intros Hfail toVault. induction toVault as [|e rest IH]; intros st attrs log; simpl; [done|].
  destruct (Hfail st (list_byte_of_string (content e))) as (st' & err & ->). apply IH.
Qed.

(** When the second pass writes nothing, the batch is handed on as received. *)
Lemma vaultSpan_id (p : vaultProcessor) :
  (∀ toVault st attrs log, (offload store p toVault st attrs log).1.2 = attrs) →
  ∀ span st log, (vaultSpan store p span st log).1.2 = span.
Proof.
  intros H span st log. unfold vaultSpan.
  specialize (H (collect p (ptrace.Attributes span)) st (ptrace.Attributes span) log).
  destruct (offload store p _ st _ log) as [[st' attrs'] log'].
  simpl in *. subst attrs'. by destruct span.
Qed.

Lemma vaultSpans_id (p : vaultProcessor) :
  (∀ toVault st attrs log, (offload store p toVault st attrs log).1.2 = attrs) →
  ∀ spans st log, (vaultSpans store p spans st log).1.2 = spans.
Proof.
  intros H spans. induction spans as [|span rest IH]; intros st log; simpl; [done|].
  pose proof (vaultSpan_id p H span st log) as Hs.
  destruct (vaultSpan store p span st log) as [[st1 span'] log1].
  specialize (IH st1 log1).
  destruct (vaultSpans store p rest st1 log1) as [[st2 rest'] log2].
  simpl in *. by subst.
Qed.

Lemma vaultScopes_id (p : vaultProcessor) :
  (∀ toVault st attrs log, (offload store p toVault st attrs log).1.2 = attrs) →
  ∀ ilss st log, (vaultScopes store p ilss st log).1.2 = ilss.
Proof.
  intros H ilss. induction ilss as [|ss rest IH]; intros st log; simpl; [done|].
  pose proof (vaultSpans_id p H (ptrace.Spans ss) st log) as Hs.
  destruct (vaultSpans store p (ptrace.Spans ss) st log) as [[st1 spans'] log1].
  specialize (IH st1 log1).
  destruct (vaultScopes store p rest st1 log1) as [[st2 rest'] log2].
  simpl in *. subst. by destruct ss.
Qed.

Lemma vaultResources_id (p : vaultProcessor) :
  (∀ toVault st attrs log, (offload store p toVault st attrs log).1.2 = attrs) →
  ∀ rss st log, (vaultResources store p rss st log).1.2 = rss.
Proof.
  intros H rss. induction rss as [|rs rest IH]; intros st log; simpl; [done|].
  pose proof (vaultScopes_id p H (ptrace.ScopeSpansOf rs) st log) as Hs.
  destruct (vaultScopes store p (ptrace.ScopeSpansOf rs) st log) as [[st1 ilss'] log1].
  specialize (IH st1 log1).
  destruct (vaultResources store p rest st1 log1) as [[st2 rest'] log2].
  simpl in *. subst. by destruct rs.
Qed.

(** The loops rewrite attributes of spans and nothing else of a span. *)
Lemma vaultSpans_events (p : vaultProcessor) (spans : list ptrace.Span) (st : V)
    (log : list LogEntry) :
  ptrace.Events <$> (vaultSpans store p spans st log).1.2 = ptrace.Events <$> spans.
Proof.
  revert st log. induction spans as [|span rest IH]; intros st log; simpl; [done|].
  unfold vaultSpan.
  destruct (offload store p _ st _ log) as [[st1 attrs'] log1].
  specialize (IH st1 log1).
  destruct (vaultSpans store p rest st1 log1) as [[st2 rest'] log2].
  simpl in *. f_equal. exact IH.
Qed.

Lemma vaultScopes_events (p : vaultProcessor) (ilss : list ptrace.ScopeSpans) (st : V)
    (log : list LogEntry) :
  ptrace.Events <$> flat_map ptrace.Spans (vaultScopes store p ilss st log).1.2
  = ptrace.Events <$> flat_map ptrace.Spans ilss.
Proof.
  revert st log. induction ilss as [|ss rest IH]; intros st log; simpl; [done|].
  pose proof (vaultSpans_events p (ptrace.Spans ss) st log) as Hs.
  destruct (vaultSpans store p (ptrace.Spans ss) st log) as [[st1 spans'] log1].
  specialize (IH st1 log1).
  destruct (vaultScopes store p rest st1 log1) as [[st2 rest'] log2].
  simpl in *. by rewrite !fmap_app, Hs, IH.
Qed.

Lemma vaultResources_events (p : vaultProcessor) (rss : ptrace.Traces) (st : V)
    (log : list LogEntry) :
  ptrace.Events <$> ptrace.spans_of (vaultResources store p rss st log).1.2
  = ptrace.Events <$> ptrace.spans_of rss.
Proof.
  revert st log. induction rss as [|rs rest IH]; intros st log; simpl; [done|].
  pose proof (vaultScopes_events p (ptrace.ScopeSpansOf rs) st log) as Hs.
  destruct (vaultScopes store p (ptrace.ScopeSpansOf rs) st log) as [[st1 ilss'] log1].
  specialize (IH st1 log1).
  destruct (vaultResources store p rest st1 log1) as [[st2 rest'] log2].
  simpl in *. by rewrite !fmap_app, Hs, IH.
Qed.

End ProcessorFacts.

(** ** Checksums *)

Lemma Sum256_length (data : list byte) : length (SHA256.Sum256 data) = 32%nat.
Proof. reflexivity. Qed.

Lemma EncodeToString_length (bs : list byte) :
  String.length (hex.EncodeToString bs) = (2 * length bs)%nat.
Proof. induction bs as [|b bs IH]; simpl; [done | rewrite IH; lia]. Qed.

Lemma checksum_of_length (data : list byte) : String.length (checksum_of data) = 64%nat.
Proof. unfold checksum_of. by rewrite EncodeToString_length, Sum256_length. Qed.

(** The digests of the empty message and of ["abc"] (FIPS 180-4 test vectors). *)
Example checksum_of_empty :
  checksum_of [] = "e3b0c44298fc1c149afbf4c8996fb92427ae41e4649b934ca495991b7852b855".
Proof. vm_compute. reflexivity. Qed.

Example checksum_of_abc :
  checksum_of (Examples.bytes "abc")
  = "ba7816bf8f01cfea414140de5dae2223b00361a396177a9cb410ff61f20015ad".
Proof. vm_compute. reflexivity. Qed.

Example checksum_of_two_blocks :
  checksum_of (Examples.bytes "abcdbcdecdefdefgefghfghighijhijkijkljklmklmnlmnomnopnopq")
  = "248d6a61d20638b8e5c026930c3e6039a33ce45964ff2167f6ecedd419db06c1".
Proof. vm_compute. reflexivity. Qed.

Lemma checksum_of_nonempty (data : list byte) : checksum_of data ≠ "".
Proof.
  intros H. apply (f_equal String.length) in H. rewrite checksum_of_length in H. discriminate H.
Qed.

(** ** The file system *)

Lemma mkdirs_lookup (rooted : bool) (rest pre : list string)
    (fs fs' : gmap (bool * list string) node) (p : bool * list string) :
  os.mkdirs rooted pre rest fs = Ok fs' →
  fs' !! p = fs !! p ∨ (fs !! p = None ∧ fs' !! p = Some Directory).
Proof.
  revert pre fs. induction rest as [|c rest IH]; intros pre fs H; simpl in H.
  - injection H as <-. by left.
  - destruct (os.lookup_path fs (rooted, pre ++ [c])) as [[d|]|] eqn:E; [done| |].
    + by apply (IH _ _ H).
    + destruct (IH _ _ H) as [Heq|[Hn Hd]].
      * destruct (decide ((rooted, pre ++ [c]) = p)) as [<-|Hne].
        -- right. rewrite Heq, lookup_insert_eq. split; [|done].
           unfold os.lookup_path in E. by destruct (os.implicit_dir _).
        -- left. by rewrite Heq, lookup_insert_ne.
      * destruct (decide ((rooted, pre ++ [c]) = p)) as [<-|Hne].
        -- by rewrite lookup_insert_eq in Hn.
        -- right. by rewrite lookup_insert_ne in Hn.
Qed.

(** [MkdirAll] creates directories and leaves every file as it is. *)
Lemma MkdirAll_files (fs fs' : gmap (bool * list string) node) (path : string)
    (p : bool * list string) (d : list byte) :
  os.MkdirAll fs path = Ok fs' → (fs' !! p = Some (File d) ↔ fs !! p = Some (File d)).
Proof.
  unfold os.MkdirAll. destruct (os.resolve path) as [q|]; [|done]. intros H.
  destruct (mkdirs_lookup _ _ _ _ _ p H) as [->|[Hn Hd]]; [done|].
  rewrite Hn, Hd. split; discriminate.
Qed.

Lemma ReadFile_Ok (fs : gmap (bool * list string) node) (name : string) (d : list byte) :
  os.ReadFile fs name = Ok d ↔
  ∃ p, os.resolve name = Some p ∧ os.implicit_dir p = false ∧ fs !! p = Some (File d).
Proof.
  unfold os.ReadFile, os.lookup_path. split.
  - destruct (os.resolve name) as [p|]; [|done].
    destruct (os.implicit_dir p) eqn:Ei; [done|].
    destruct (fs !! p) as [[d'|]|] eqn:E; [|done|done].
    intros [= ->]. by exists p.
  - intros (p & -> & -> & ->). done.
Qed.

Lemma MkdirAll_ReadFile (fs fs' : gmap (bool * list string) node) (path name : string)
    (d : list byte) :
  os.MkdirAll fs path = Ok fs' → (os.ReadFile fs' name = Ok d ↔ os.ReadFile fs name = Ok d).
Proof.
  intros H. rewrite !ReadFile_Ok.
  split; intros (p & Hr & Hi & Hl); exists p; repeat split; try done;
    by apply (MkdirAll_files _ _ _ p d H).
Qed.

Lemma WriteFile_Ok (fs fs' : gmap (bool * list string) node) (name : string)
    (data : list byte) :
  os.WriteFile fs name data = Ok fs' →
  ∃ p, os.resolve name = Some p ∧ os.implicit_dir p = false
       ∧ fs !! p ≠ Some Directory ∧ fs' = <[p := File data]> fs.
Proof.
  unfold os.WriteFile. destruct (os.resolve name) as [p|]; [|done].
  destruct (os.implicit_dir p) eqn:Ei; [done|].
  destruct (os.lookup_path fs (os.parent p)) as [[?|]|]; [done| |done].
  destruct (fs !! p) as [[?|]|] eqn:E; [|done|]; intros [= <-];
    exists p; repeat split; try done; by rewrite E.
Qed.

(** What has been written is what is read. *)
Lemma ReadFile_WriteFile (fs fs' : gmap (bool * list string) node) (name : string)
    (data : list byte) :
  os.WriteFile fs name data = Ok fs' → os.ReadFile fs' name = Ok data.
Proof.
  intros (p & Hr & Hi & _ & ->)%WriteFile_Ok. apply ReadFile_Ok.
  exists p. by rewrite lookup_insert_eq.
Qed.

(** A write leaves the files at the other paths as they are. *)
Lemma ReadFile_WriteFile_other (fs fs' : gmap (bool * list string) node)
    (name name' : string) (data d : list byte) :
  os.WriteFile fs name data = Ok fs' → os.resolve name' ≠ os.resolve name →
  (os.ReadFile fs' name' = Ok d ↔ os.ReadFile fs name' = Ok d).
Proof.
  intros (p & Hr & Hi & _ & ->)%WriteFile_Ok Hne. rewrite !ReadFile_Ok.
  split; intros (q & Hq & Hqi & Hl); exists q; repeat split; try done.
  - rewrite lookup_insert_ne in Hl; [done | congruence].
  - rewrite lookup_insert_ne; [done | congruence].
Qed.

Lemma Stat_Err (fs : gmap (bool * list string) node) (name : string) (e : errno)
    (p : bool * list string) :
  os.Stat fs name = Err e → os.resolve name = Some p → fs !! p = None.
Proof.
  unfold os.Stat, os.Lstat, os.lookup_path. intros H Hr. rewrite Hr in H.
  destruct (os.implicit_dir p); [done|]. by destruct (fs !! p).
Qed.

(** ** storage/filesystem.go *)

Lemma Join_nonempty_head (e : string) (rest : list string) :
  e ≠ "" → filepath.Join (e :: rest) = filepath.Clean (filepath.join_sep (e :: rest)).
Proof. intros H. simpl. by rewrite decide_False. Qed.

(** [Retrieve] reads the path that [Store] wrote. *)
Lemma backend_same_path (base traceID spanID attrKey : string) :
  base ≠ "" →
  filepath.Join
    [base; string_drop (String.length "promptvault://fs/")
             ("promptvault://fs/" +:+ traceID +:+ "/" +:+ spanID +:+ "/" +:+ attrKey)]
  = filepath.Join [base; traceID; spanID; attrKey].
Proof. intros H. by rewrite !Join_nonempty_head. Qed.

Lemma Sscanf_visible (traceID rest : string) :
  fmt.starts_visible traceID = true →
  fmt.Sscanf_s ("promptvault://fs/" +:+ traceID +:+ rest) "promptvault://fs/" ≠ None.
Proof.
  destruct traceID as [|c t]; [done|]. simpl. intros [Hs _]%andb_prop.
  apply negb_true_iff in Hs. unfold fmt.Sscanf_s. simpl.
  destruct (Ascii.eqb_spec c "010") as [->|_]; [done|]. by rewrite Hs.
Qed.

Lemma backend_Store_Ok (f : FilesystemBackend.t) (fs fs' : gmap (bool * list string) node)
    (traceID spanID attrKey : string) (data : list byte) (ref : storage.Reference) :
  FilesystemBackend.Store f fs traceID spanID attrKey data = (fs', Ok ref) →
  ref = {| storage.URI := "promptvault://fs/" +:+ traceID +:+ "/" +:+ spanID +:+ "/" +:+ attrKey;
           storage.Checksum := checksum_of data;
           storage.Encrypted := false;
           storage.SizeBytes := Z.of_nat (length data) |}
  ∧ ∃ fs1, os.MkdirAll fs
             (filepath.Dir (filepath.Join [FilesystemBackend.basePath f; traceID; spanID; attrKey]))
           = Ok fs1
           ∧ os.WriteFile fs1
               (filepath.Join [FilesystemBackend.basePath f; traceID; spanID; attrKey]) data
             = Ok fs'.
Proof.
  unfold FilesystemBackend.Store.
  destruct (os.MkdirAll fs _) as [fs1|e] eqn:Em; [|done].
  destruct (os.WriteFile fs1 _ data) as [fs2|e] eqn:Ew; [|done].
  intros [= <- <-]. split; [done|]. by exists fs1.
Qed.

(** [Retrieve] on a reference of the shape [Store] returns, in a state
    where its file holds [data']. *)
Lemma backend_Retrieve_read (f : FilesystemBackend.t) (fs : gmap (bool * list string) node)
    (traceID spanID attrKey checksum : string) (enc : bool) (size : Z) (data' : list byte) :
  FilesystemBackend.basePath f ≠ "" →
  fmt.starts_visible traceID = true →
  os.ReadFile fs (filepath.Join [FilesystemBackend.basePath f; traceID; spanID; attrKey])
  = Ok data' →
  FilesystemBackend.Retrieve f fs
    {| storage.URI := "promptvault://fs/" +:+ traceID +:+ "/" +:+ spanID +:+ "/" +:+ attrKey;
       storage.Checksum := checksum; storage.Encrypted := enc; storage.SizeBytes := size |}
  = if String.eqb (checksum_of data') checksum then Ok data'
    else Err (ErrChecksumMismatch checksum (checksum_of data')).
Proof.
  intros Hb Hv Hr. unfold FilesystemBackend.Retrieve.
  cbn [storage.URI storage.Checksum].
  destruct (fmt.Sscanf_s _ "promptvault://fs/") eqn:Es.
  - rewrite backend_same_path by done. rewrite Hr.
    by destruct (String.eqb (checksum_of data') checksum).
  - by apply (Sscanf_visible traceID ("/" +:+ spanID +:+ "/" +:+ attrKey)) in Es.
Qed.

(** ** Paths *)

Lemma append_cons (x : ascii) (a b : string) : String x a +:+ b = String x (a +:+ b).
Proof. reflexivity. Qed.

Lemma append_nil_l (b : string) : "" +:+ b = b.
Proof. reflexivity. Qed.

Lemma has_sep_app (a b : string) :
  filepath.has_sep (a +:+ b) = filepath.has_sep a || filepath.has_sep b.
Proof.
  induction a as [|c a IH]; [done|].
  rewrite append_cons. simpl. rewrite IH. by destruct (filepath.is_sep c).
Qed.

Lemma append_assoc (a b c : string) : (a +:+ b) +:+ c = a +:+ b +:+ c.
Proof. induction a as [|x a IH]; [done|]. by rewrite !append_cons, IH. Qed.

Lemma append_nil_r (a : string) : a +:+ "" = a.
Proof. induction a as [|x a IH]; [done|]. by rewrite append_cons, IH. Qed.

(** A separator ends the component being read. *)
Lemma components_from_sep (a b cur : string) :
  filepath.components_from cur (a +:+ "/" +:+ b)
  = filepath.components_from cur a ++ filepath.components b.
Proof.
  revert cur. induction a as [|c a IH]; intros cur; [done|].
  rewrite append_cons. simpl. destruct (filepath.is_sep c).
  - by rewrite IH, app_assoc.
  - apply IH.
Qed.

Lemma components_sep (a b : string) :
  filepath.components (a +:+ "/" +:+ b) = filepath.components a ++ filepath.components b.
Proof. apply components_from_sep. Qed.

Lemma components_from_nosep (s cur : string) :
  filepath.has_sep s = false → filepath.components_from cur s = filepath.emit (cur +:+ s).
Proof.
  revert cur. induction s as [|c s IH]; intros cur; simpl.
  - by rewrite append_nil_r.
  - intros [Hc Hs]%orb_false_elim. rewrite Hc, (IH _ Hs). by rewrite append_assoc, append_cons.
Qed.

Lemma components_single (c : string) :
  c ≠ "" → filepath.has_sep c = false → filepath.components c = [c].
Proof.
  intros Hne Hs. unfold filepath.components. rewrite components_from_nosep by done.
  simpl. unfold filepath.emit. by rewrite decide_False.
Qed.

Lemma components_from_ok (s cur : string) :
  filepath.has_sep cur = false →
  Forall (λ c, c ≠ "" ∧ filepath.has_sep c = false) (filepath.components_from cur s).
Proof.
  revert cur. induction s as [|c s IH]; intros cur Hcur; simpl.
  - unfold filepath.emit. case_decide; [constructor|]. by repeat constructor.
  - destruct (filepath.is_sep c) eqn:Ec.
    + apply Forall_app. split; [|by apply IH].
      unfold filepath.emit. case_decide; [constructor|]. by repeat constructor.
    + apply IH. rewrite has_sep_app, Hcur. simpl. by rewrite Ec.
Qed.

Lemma components_ok (s : string) :
  Forall (λ c, c ≠ "" ∧ filepath.has_sep c = false) (filepath.components s).
Proof. by apply components_from_ok. Qed.

Lemma components_join_sep (cs : list string) :
  Forall (λ c, c ≠ "" ∧ filepath.has_sep c = false) cs →
  filepath.components (filepath.join_sep cs) = cs.
Proof.
  induction 1 as [|c cs [Hne Hs] Hcs IH]; [done|].
  destruct cs as [|c' cs].
  - simpl. by apply components_single.
  - change (filepath.join_sep (c :: c' :: cs))
      with (c +:+ "/" +:+ filepath.join_sep (c' :: cs)).
    unfold filepath.components. rewrite components_from_sep.
    fold (filepath.components c). by rewrite components_single, IH.
Qed.

Lemma components_slash (x : string) :
  filepath.components ("/" +:+ x) = filepath.components x.
Proof. reflexivity. Qed.

Lemma entry_name_spec (n : string) :
  os.entry_name n = true ↔ n ≠ "" ∧ filepath.has_sep n = false ∧ n ≠ "." ∧ n ≠ "..".
Proof.
  unfold os.entry_name. rewrite !andb_true_iff, !negb_true_iff.
  rewrite !(String_eqb_decide n), !bool_decide_eq_false. tauto.
Qed.

(** A name is pushed by [Clean]. *)
Lemma clean_fold_names (rooted : bool) (names st : list string) :
  Forall (λ n, os.entry_name n = true) names →
  fold_left (filepath.clean_step rooted) names st = rev names ++ st.
Proof.
  intros H. revert st. induction H as [|n names Hn _ IH]; intros st; simpl; [done|].
  apply entry_name_spec in Hn as (_ & _ & H1 & H2).
  rewrite IH. unfold filepath.clean_step. rewrite !decide_False by done.
  by rewrite <- app_assoc.
Qed.

Lemma clean_fold_dots (k j : nat) :
  fold_left (filepath.clean_step false) (repeat ".." k) (repeat ".." j)
  = repeat ".." (k + j).
Proof.
  revert j. induction k as [|k IH]; intros j; simpl; [done|].
  replace (filepath.clean_step false (repeat ".." j) "..") with (repeat ".." (S j)).
  - rewrite IH. by replace (k + S j)%nat with (S (k + j)) by lia.
  - unfold filepath.clean_step. simpl. by destruct j.
Qed.

(** The output of the lexical processing: [..] elements (none when
    rooted), then names. *)
Lemma clean_fold_normal (rooted : bool) (cs st : list string) :
  Forall (λ c, c ≠ "" ∧ filepath.has_sep c = false) cs →
  (∃ k names, st = names ++ repeat ".." k
              ∧ Forall (λ n, os.entry_name n = true) names
              ∧ (rooted = true → k = 0%nat)) →
  ∃ k names, fold_left (filepath.clean_step rooted) cs st = names ++ repeat ".." k
             ∧ Forall (λ n, os.entry_name n = true) names
             ∧ (rooted = true → k = 0%nat).
Proof.
  intros H. revert st. induction H as [|c cs [Hne Hs] _ IH]; intros st Hst; simpl; [done|].
  apply IH. destruct Hst as (k & names & -> & Hn & Hk).
  unfold filepath.clean_step. case_decide as H1; [by exists k, names|].
  case_decide as H2.
  - subst c. destruct names as [|n names]; simpl.
    + destruct k as [|k]; simpl.
      * destruct rooted; [by exists 0%nat, [] | by exists 1%nat, []].
      * exists (S (S k)), []. split; [done|]. split; [done|].
        intros Hr. by specialize (Hk Hr).
    + apply Forall_cons in Hn as [Hn Hns].
      apply entry_name_spec in Hn as (_ & _ & _ & Hdd).
      rewrite decide_False by done. by exists k, names.
  - exists k, (c :: names). split; [done|]. split; [|done].
    apply Forall_cons. split; [|done]. by apply entry_name_spec.
Qed.

Lemma clean_comps_normal (rooted : bool) (cs : list string) :
  Forall (λ c, c ≠ "" ∧ filepath.has_sep c = false) cs →
  ∃ k names, filepath.clean_comps rooted cs = repeat ".." k ++ names
             ∧ Forall (λ n, os.entry_name n = true) names
             ∧ (rooted = true → k = 0%nat).
Proof.
  intros H. destruct (clean_fold_normal rooted cs [] H) as (k & names & E & Hn & Hk).
  { by exists 0%nat, []. }
  exists k, (rev names). unfold filepath.clean_comps.
  rewrite E, rev_app_distr, rev_repeat. split; [done|]. split; [|done].
  by apply Forall_rev.
Qed.

(** Cleaning a cleaned path changes nothing. *)
Lemma clean_comps_idem (rooted : bool) (k : nat) (names : list string) :
  Forall (λ n, os.entry_name n = true) names → (rooted = true → k = 0%nat) →
  filepath.clean_comps rooted (repeat ".." k ++ names) = repeat ".." k ++ names.
Proof.
  intros Hn Hk. unfold filepath.clean_comps. rewrite fold_left_app.
  assert (E : fold_left (filepath.clean_step rooted) (repeat ".." k) [] = repeat ".." k).
  { destruct rooted.
    - by rewrite (Hk eq_refl).
    - pose proof (clean_fold_dots k 0) as Hd. simpl in Hd. rewrite Hd.
      by replace (k + 0)%nat with k by lia. }
  rewrite E, clean_fold_names by done.
  by rewrite rev_app_distr, rev_involutive, rev_repeat.
Qed.

Lemma clean_comps_app_names (rooted : bool) (cs names : list string) :
  Forall (λ n, os.entry_name n = true) names →
  filepath.clean_comps rooted (cs ++ names) = filepath.clean_comps rooted cs ++ names.
Proof.
  intros Hn. unfold filepath.clean_comps.
  by rewrite fold_left_app, clean_fold_names, rev_app_distr, rev_involutive.
Qed.

Lemma is_rooted_app (a b : string) :
  a ≠ "" → filepath.is_rooted (a +:+ b) = filepath.is_rooted a.
Proof. by destruct a. Qed.

Lemma has_sep_head (c : string) (x : string) :
  c ≠ "" → filepath.has_sep c = false → filepath.is_rooted (c +:+ x) = false.
Proof. destruct c as [|a c]; [done|]. simpl. by intros _ [? _]%orb_false_elim. Qed.

Lemma join_sep_cons (c : string) (cs : list string) :
  ∃ x, filepath.join_sep (c :: cs) = c +:+ x.
Proof.
  destruct cs as [|c' cs]; simpl.
  - exists "". by rewrite append_nil_r.
  - by eexists.
Qed.

(** A cleaned path, printed and read again, is the same path. *)
Lemma resolve_render (rooted : bool) (k : nat) (names : list string) :
  Forall (λ n, os.entry_name n = true) names → (rooted = true → k = 0%nat) →
  os.resolve (filepath.render (rooted, repeat ".." k ++ names))
  = Some (rooted, repeat ".." k ++ names).
Proof.
  intros Hn Hk.
  assert (Hc : Forall (λ c, c ≠ "" ∧ filepath.has_sep c = false) (repeat ".." k ++ names)).
  { apply Forall_app. split.
    - apply Forall_forall. intros c Hin%list_elem_of_In%repeat_spec. by subst.
    - eapply Forall_impl; [exact Hn|]. intros n Hx%entry_name_spec. tauto. }
  unfold filepath.render. simpl. destruct rooted.
  - unfold os.resolve. rewrite decide_False by done. f_equal.
    unfold filepath.normal. simpl. f_equal.
    rewrite components_slash, components_join_sep by done. by apply clean_comps_idem.
  - destruct (repeat ".." k ++ names) as [|c cs] eqn:E; [done|].
    apply Forall_cons in Hc as [[Hne Hs] Hcs].
    destruct (join_sep_cons c cs) as [x Hx].
    unfold os.resolve. rewrite decide_False.
    2:{ rewrite Hx. by destruct c. }
    f_equal. unfold filepath.normal.
    assert (Hr : filepath.is_rooted (filepath.join_sep (c :: cs)) = false).
    { rewrite Hx. by apply has_sep_head. }
    rewrite Hr. f_equal. rewrite components_join_sep.
    2:{ apply Forall_cons. by split. }
    rewrite <- E. by apply clean_comps_idem.
Qed.

Lemma resolve_Clean (s : string) : os.resolve (filepath.Clean s) = Some (filepath.normal s).
Proof.
  unfold filepath.Clean, filepath.normal.
  destruct (clean_comps_normal (filepath.is_rooted s) (filepath.components s)
              (components_ok s)) as (k & names & -> & Hn & Hk).
  by apply resolve_render.
Qed.

Lemma resolve_nonempty (s : string) : s ≠ "" → os.resolve s = Some (filepath.normal s).
Proof. intros H. unfold os.resolve. by rewrite decide_False. Qed.

(** Joining names to a path extends its cleaned form by them. *)
Lemma normal_join_names (path : string) (names : list string) (rest : string) :
  path ≠ "" → Forall (λ n, os.entry_name n = true) names →
  filepath.components rest = names →
  filepath.normal (path +:+ "/" +:+ rest)
  = ((filepath.normal path).1, (filepath.normal path).2 ++ names).
Proof.
  intros Hne Hn Hr. unfold filepath.normal. simpl.
  rewrite is_rooted_app by done. f_equal.
  unfold filepath.components. rewrite components_from_sep.
  fold (filepath.components path). rewrite Hr. by apply clean_comps_app_names.
Qed.

Lemma resolve_Join_names (path rest : string) (names : list string) :
  path ≠ "" → Forall (λ n, os.entry_name n = true) names →
  filepath.components rest = names →
  os.resolve (filepath.Join [path; rest])
  = Some ((filepath.normal path).1, (filepath.normal path).2 ++ names).
Proof.
  intros Hne Hn Hr. rewrite Join_nonempty_head by done.
  rewrite resolve_Clean. f_equal. by apply normal_join_names.
Qed.

Lemma Clean_nonempty (s : string) : filepath.Clean s ≠ "".
Proof.
  intros H. pose proof (resolve_Clean s) as Hr. rewrite H in Hr. discriminate Hr.
Qed.

Lemma normal_Clean (s : string) : filepath.normal (filepath.Clean s) = filepath.normal s.
Proof.
  pose proof (resolve_Clean s) as Hr.
  rewrite resolve_nonempty in Hr by apply Clean_nonempty. congruence.
Qed.

(** ** Walking a directory *)

Lemma depth_bound (fs : gmap (bool * list string) node) (k : bool * list string) (n : node) :
  fs !! k = Some n → (length k.2 ≤ os.depth fs)%nat.
Proof.
  intros H%elem_of_map_to_list. unfold os.depth.
  induction (map_to_list fs) as [|x l IH]; [by apply elem_of_nil in H|].
  apply elem_of_cons in H as [<-|H]; simpl; [apply Nat.le_max_l|].
  etrans; [exact (IH H) | apply Nat.le_max_r].
Qed.

Lemma child_name_Some (p k : bool * list string) (n : string) :
  os.child_name p k = Some n ↔ k = (p.1, p.2 ++ [n]) ∧ os.entry_name n = true.
Proof.
  unfold os.child_name. split.
  - destruct (last k.2) as [n'|] eqn:El; [|done].
    destruct (bool_decide _ && _) eqn:E; [|done].
    intros [= <-]. apply andb_prop in E as [E1%bool_decide_eq_true E2]. done.
  - intros [-> Hn]. simpl. rewrite last_snoc, Hn.
    by rewrite bool_decide_eq_true_2.
Qed.

Lemma elem_of_readDirNames (fs : gmap (bool * list string) node) (p : bool * list string)
    (n : string) :
  n ∈ os.readDirNames fs p ↔
  os.entry_name n = true ∧ is_Some (fs !! (p.1, p.2 ++ [n])).
Proof.
  unfold os.readDirNames. rewrite merge_sort_Permutation, list_elem_of_omap. split.
  - intros (k & Hk & [-> Hn]%child_name_Some). split; [done|].
    apply list_elem_of_fmap in Hk as ([k' x] & Hk' & Hin). simpl in Hk'. subst k'.
    apply elem_of_map_to_list in Hin. by exists x.
  - intros [Hn [x Hx]]. exists (p.1, p.2 ++ [n]). split.
    + apply list_elem_of_fmap. exists (p.1, p.2 ++ [n], x). split; [done|].
      by apply elem_of_map_to_list.
    + by apply child_name_Some.
Qed.

Lemma implicit_dir_child (r : bool) (cs : list string) (n : string) :
  os.entry_name n = true → os.implicit_dir (r, cs ++ [n]) = false.
Proof.
  intros (_ & _ & _ & Hdd)%entry_name_spec. unfold os.implicit_dir.
  change ((r, cs ++ [n]).2) with (cs ++ [n]). rewrite forallb_app.
  change (forallb (String.eqb "..") [n]) with (String.eqb ".." n && true).
  rewrite (String_eqb_decide ".." n), bool_decide_eq_false_2 by done.
  by rewrite andb_false_r.
Qed.

Lemma implicit_dir_names (r : bool) (cs names : list string) :
  names ≠ [] → Forall (λ n, os.entry_name n = true) names →
  os.implicit_dir (r, cs ++ names) = false.
Proof.
  intros Hne Hn. destruct (last names) as [n|] eqn:El.
  - apply last_Some in El as [l' ->]. rewrite app_assoc.
    apply implicit_dir_child. apply Forall_app in Hn as [_ Hn].
    by apply (proj1 (Forall_singleton _ _)) in Hn.
  - by apply last_None in El.
Qed.

Lemma Lstat_Ok (fs : gmap (bool * list string) node) (name : string) (info : FileInfo) :
  os.Lstat fs name = Ok info ↔
  ∃ p n, os.resolve name = Some p ∧ os.lookup_path fs p = Some n ∧ info = os.info_of p n.
Proof.
  unfold os.Lstat. split.
  - destruct (os.resolve name) as [p|]; [|done].
    destruct (os.lookup_path fs p) as [n|] eqn:E; [|done].
    intros [= <-]. by exists p, n.
  - intros (p & n & -> & -> & ->). done.
Qed.

Lemma resolve_Some (s : string) (p : bool * list string) :
  os.resolve s = Some p → s ≠ "" ∧ p = filepath.normal s.
Proof. unfold os.resolve. case_decide; [done|]. intros [= <-]. done. Qed.

(** The path handed to the callback for an entry of a directory. *)
Lemma resolve_child (path n : string) (p : bool * list string) :
  os.resolve path = Some p → os.entry_name n = true →
  os.resolve (filepath.Join [path; n]) = Some (p.1, p.2 ++ [n]).
Proof.
  intros [Hne ->]%resolve_Some Hn.
  apply resolve_Join_names; [done | by apply Forall_singleton |].
  apply entry_name_spec in Hn as (H1 & H2 & _). by apply components_single.
Qed.

Lemma walk_S (fs : gmap (bool * list string) node) (fuel : nat) (path : string)
    (info : FileInfo) :
  os.walk (S fuel) fs path info
  = if negb (IsDir info) then [(path, info)]
    else (path, info) ::
         flat_map
           (fun name =>
              match os.Lstat fs (filepath.Join [path; name]) with
              | Ok fileInfo => os.walk fuel fs (filepath.Join [path; name]) fileInfo
              | Err _ => []
              end)
           (match os.resolve path with Some p => os.readDirNames fs p | None => [] end).
Proof. reflexivity. Qed.

(** What the walk reports is there. *)
Lemma walk_sound (fs : gmap (bool * list string) node) (fuel : nat) :
  ∀ path info s fi,
    In (s, fi) (os.walk fuel fs path info) → os.Lstat fs path = Ok info →
    os.Lstat fs s = Ok fi.
Proof.
  induction fuel as [|fuel IH]; intros path info s fi Hin Hl; [by destruct Hin|].
  rewrite walk_S in Hin. destruct (negb (IsDir info)).
  - destruct Hin as [[= <- <-]|[]]. done.
  - destruct Hin as [[= <- <-]|Hin]; [done|].
    apply in_flat_map in Hin as (name & _ & Hin).
    destruct (os.Lstat fs (filepath.Join [path; name])) as [fileInfo|e] eqn:E;
      [|by destruct Hin].
    by apply (IH _ _ _ _ Hin).
Qed.

(** What the walk reports is the root or lies below it. *)
Lemma walk_under (fs : gmap (bool * list string) node) (fuel : nat) :
  ∀ path info p s fi,
    In (s, fi) (os.walk fuel fs path info) → os.resolve path = Some p →
    ∃ q, os.resolve s = Some q ∧ q.1 = p.1 ∧ p.2 `prefix_of` q.2.
Proof.
  induction fuel as [|fuel IH]; intros path info p s fi Hin Hr; [by destruct Hin|].
  rewrite walk_S in Hin.
  assert (Hroot : ∃ q, os.resolve path = Some q ∧ q.1 = p.1 ∧ p.2 `prefix_of` q.2).
  { by exists p. }
  destruct (negb (IsDir info)).
  - destruct Hin as [[= <- <-]|[]]. done.
  - destruct Hin as [[= <- <-]|Hin]; [done|].
    apply in_flat_map in Hin as (name & Hname & Hin).
    rewrite Hr in Hname. apply list_elem_of_In, elem_of_readDirNames in Hname as [Hn _].
    destruct (os.Lstat fs (filepath.Join [path; name])) as [fileInfo|e] eqn:E;
      [|by destruct Hin].
    destruct (IH _ _ _ _ _ Hin (resolve_child _ _ _ Hr Hn)) as (q & Hq & Hq1 & Hq2).
    exists q. split; [done|]. split; [done|]. simpl in Hq2.
    etrans; [|exact Hq2]. by apply prefix_app_r.
Qed.

(** The walk reaches what lies below the root through directories. *)
Lemma walk_complete (fs : gmap (bool * list string) node) :
  ∀ names fuel path info p,
    os.resolve path = Some p → os.Lstat fs path = Ok info →
    length names < fuel →
    Forall (λ n, os.entry_name n = true) names →
    (∀ i, i < length names → os.lookup_path fs (p.1, p.2 ++ take i names) = Some Directory) →
    names = [] ∨ is_Some (fs !! (p.1, p.2 ++ names)) →
    ∃ s fi, In (s, fi) (os.walk fuel fs path info)
            ∧ os.resolve s = Some (p.1, p.2 ++ names).
Proof.
  induction names as [|n rest IH]; intros fuel path info p Hr Hl Hfuel Hn Hdirs Htgt.
  - destruct fuel as [|fuel]; [simpl in Hfuel; lia|]. exists path, info. split.
    + rewrite walk_S. destruct (negb (IsDir info)); by left.
    + rewrite app_nil_r. by destruct p.
  - destruct fuel as [|fuel]; [simpl in Hfuel; lia|].
    apply Forall_cons in Hn as [Hn Hrest].
    apply Lstat_Ok in Hl as (p' & nd & Hr' & Hlk & ->).
    rewrite Hr in Hr'. injection Hr' as <-.
    pose proof (Hdirs 0%nat ltac:(simpl; lia)) as H0. simpl in H0.
    rewrite app_nil_r in H0. replace (p.1, p.2) with p in H0 by by destruct p.
    rewrite H0 in Hlk. injection Hlk as <-.
    assert (Hchild : ∃ nc, fs !! (p.1, p.2 ++ [n]) = Some nc).
    { destruct rest as [|n' rest'].
      - destruct Htgt as [|[nc Hnc]]; [done|]. by exists nc.
      - pose proof (Hdirs 1%nat ltac:(simpl; lia)) as H1. simpl in H1.
        unfold os.lookup_path in H1. rewrite implicit_dir_child in H1 by done.
        by exists Directory. }
    destruct Hchild as [nc Hnc].
    pose proof (resolve_child path n p Hr Hn) as Hrc.
    assert (Hlc : os.Lstat fs (filepath.Join [path; n])
                  = Ok (os.info_of (p.1, p.2 ++ [n]) nc)).
    { apply Lstat_Ok. exists (p.1, p.2 ++ [n]), nc. split; [done|]. split; [|done].
      unfold os.lookup_path. by rewrite implicit_dir_child. }
    destruct (IH fuel (filepath.Join [path; n]) _ (p.1, p.2 ++ [n]) Hrc Hlc) as (s & fi & Hin & Hs).
    + simpl in Hfuel. lia.
    + done.
    + intros i Hi. simpl. rewrite <- app_assoc. simpl.
      apply (Hdirs (S i)). simpl. lia.
    + destruct rest as [|n' rest']; [by left|]. right. simpl. rewrite <- app_assoc. simpl.
      destruct Htgt as [|Ht]; [done | exact Ht].
    + exists s, fi. split.
      * rewrite walk_S. right. apply in_flat_map. exists n. split.
        -- rewrite Hr. apply list_elem_of_In, elem_of_readDirNames. split; [done | by exists nc].
        -- by rewrite Hlc.
      * simpl in Hs. by rewrite <- app_assoc in Hs.
Qed.

(** ** Names in the vault directory *)

Lemma time_digit_ok (n : nat) :
  filepath.is_sep (time.digit n) = false ∧ time.digit n ≠ "."%char.
Proof.
  unfold time.digit.
  assert (H : (n mod 10 < 10)%nat) by (apply Nat.mod_upper_bound; lia).
  destruct (n mod 10)%nat as [|[|[|[|[|[|[|[|[|[|k]]]]]]]]]]; try (by split); lia.
Qed.

Lemma hex_digit_ok (n : N) : filepath.is_sep (hex.digit n) = false.
Proof.
  unfold hex.digit.
  destruct (N.to_nat n) as [|[|[|[|[|[|[|[|[|[|[|[|[|[|[|[|k]]]]]]]]]]]]]]]];
    try reflexivity.
  simpl. by destruct k.
Qed.

Lemma EncodeToString_no_sep (bs : list byte) :
  filepath.has_sep (hex.EncodeToString bs) = false.
Proof.
  induction bs as [|b bs IH]; [done|]. simpl. by rewrite !hex_digit_ok, IH.
Qed.

Lemma string_drop_app (a b : string) : string_drop (String.length a) (a +:+ b) = b.
Proof. induction a as [|c a IH]; [done|]. by rewrite append_cons. Qed.

Lemma has_suffix_app (a suffix : string) : has_suffix suffix (a +:+ suffix) = true.
Proof.
  unfold has_suffix. rewrite length_append.
  replace (String.length a + String.length suffix - String.length suffix)%nat
    with (String.length a) by lia.
  rewrite string_drop_app. apply String.eqb_refl.
Qed.

Lemma has_suffix_short (s suffix : string) :
  (String.length s < String.length suffix)%nat → has_suffix suffix s = false.
Proof.
  intros H. unfold has_suffix.
  replace (String.length s - String.length suffix)%nat with 0%nat by lia.
  replace (string_drop 0 s) with s by (by destruct s).
  destruct (String.eqb_spec s suffix) as [E|]; [|done]. rewrite E in H. lia.
Qed.

Lemma append_inj_l (a b s : string) :
  String.length a = String.length b → a +:+ s = b +:+ s → a = b.
Proof.
  revert b. induction a as [|x a IH]; intros [|y b] Hl H; try done.
  rewrite !append_cons in H. injection H as -> H. f_equal. apply IH; [|done].
  simpl in Hl. lia.
Qed.

(** The name of an object file is one a directory entry can have. *)
Lemma object_name_ok (content : list byte) :
  os.entry_name (checksum_of content +:+ ".vault") = true.
Proof.
  apply entry_name_spec.
  assert (Hl : String.length (checksum_of content +:+ ".vault") = 70%nat).
  { by rewrite length_append, checksum_of_length. }
  repeat split.
  - intros H. rewrite H in Hl. discriminate Hl.
  - rewrite has_sep_app. unfold checksum_of. by rewrite EncodeToString_no_sep.
  - intros H. rewrite H in Hl. discriminate Hl.
  - intros H. rewrite H in Hl. discriminate Hl.
Qed.

(** The date directory of [Store]: year, month and day, none of which
    can be taken for an object file. *)
Lemma Format_components (now : time.Time) :
  ∃ y m d,
    filepath.components (time.Format now) = [y; m; d]
    ∧ Forall (λ n, os.entry_name n = true) [y; m; d]
    ∧ Forall (λ n, has_suffix ".vault" n = false) [y; m; d].
Proof.
  unfold time.Format.
  set (y := String (time.digit (time.Year now / 1000))
              (String (time.digit (time.Year now / 100))
                 (String (time.digit (time.Year now / 10))
                    (String (time.digit (time.Year now)) "")))).
  set (m := String (time.digit (time.Month now / 10)) (String (time.digit (time.Month now)) "")).
  set (d := String (time.digit (time.Day now / 10)) (String (time.digit (time.Day now)) "")).
  assert (Hy : os.entry_name y = true).
  { apply entry_name_spec. subst y. repeat split; try discriminate.
    simpl. by rewrite !(proj1 (time_digit_ok _)). }
  assert (Hm : os.entry_name m = true).
  { apply entry_name_spec. subst m. repeat split; try discriminate.
    - simpl. by rewrite !(proj1 (time_digit_ok _)).
    - intros [= H _]. by apply (proj2 (time_digit_ok _)) in H. }
  assert (Hd : os.entry_name d = true).
  { apply entry_name_spec. subst d. repeat split; try discriminate.
    - simpl. by rewrite !(proj1 (time_digit_ok _)).
    - intros [= H _]. by apply (proj2 (time_digit_ok _)) in H. }
  exists y, m, d. split; [|split].
  - apply entry_name_spec in Hy as (? & ? & _), Hm as (? & ? & _), Hd as (? & ? & _).
    by rewrite !components_sep, !components_single.
  - by repeat constructor.
  - repeat constructor; apply has_suffix_short; simpl; lia.
Qed.

(** ** Directories made by [MkdirAll] *)

Lemma mkdirs_longer (rooted : bool) (rest pre : list string)
    (fs fs' : gmap (bool * list string) node) (p : bool * list string) :
  os.mkdirs rooted pre rest fs = Ok fs' →
  (length pre + length rest < length p.2)%nat → fs' !! p = fs !! p.
Proof.
  revert pre fs. induction rest as [|c rest IH]; intros pre fs H Hlen; simpl in H.
  - by injection H as <-.
  - assert (Hl : (length (pre ++ [c]) + length rest < length p.2)%nat).
    { rewrite length_app. simpl in *. lia. }
    destruct (os.lookup_path fs (rooted, pre ++ [c])) as [[d|]|] eqn:E; [done| |].
    + by apply (IH _ _ H).
    + rewrite (IH _ _ H Hl). apply lookup_insert_ne. intros <-. simpl in Hl.
      rewrite length_app in Hl. simpl in Hl. lia.
Qed.

Lemma lookup_path_mkdirs (rooted : bool) (rest pre : list string)
    (fs fs' : gmap (bool * list string) node) (p : bool * list string) :
  os.mkdirs rooted pre rest fs = Ok fs' →
  os.lookup_path fs p = Some Directory → os.lookup_path fs' p = Some Directory.
Proof.
  intros H. unfold os.lookup_path. destruct (os.implicit_dir p); [done|].
  destruct (mkdirs_lookup _ _ _ _ _ p H) as [->|[_ ->]]; done.
Qed.

(** After [MkdirAll], every prefix of the path is a directory. *)
Lemma mkdirs_dirs (rooted : bool) (rest pre : list string)
    (fs fs' : gmap (bool * list string) node) :
  os.mkdirs rooted pre rest fs = Ok fs' →
  ∀ i, (0 < i ≤ length rest)%nat →
       os.lookup_path fs' (rooted, pre ++ take i rest) = Some Directory.
Proof.
  revert pre fs. induction rest as [|c rest IH]; intros pre fs H i Hi; simpl in *; [lia|].
  destruct i as [|i]; [lia|]. simpl.
  assert (Hc : ∀ fs0, os.mkdirs rooted (pre ++ [c]) rest fs0 = Ok fs' →
                      os.lookup_path fs0 (rooted, pre ++ [c]) = Some Directory →
                      os.lookup_path fs' (rooted, pre ++ c :: take i rest) = Some Directory).
  { intros fs0 H0 Hd. destruct i as [|i].
    - rewrite take_0. by apply (lookup_path_mkdirs _ _ _ _ _ _ H0).
    - replace (pre ++ c :: take (S i) rest) with ((pre ++ [c]) ++ take (S i) rest)
        by (by rewrite <- app_assoc).
      apply (IH _ _ H0). lia. }
  destruct (os.lookup_path fs (rooted, pre ++ [c])) as [[d|]|] eqn:E; [done| |].
  - by apply (Hc fs).
  - apply (Hc _ H). unfold os.lookup_path in *.
    destruct (os.implicit_dir (rooted, pre ++ [c])); [done|]. by rewrite lookup_insert_eq.
Qed.

Lemma MkdirAll_dirs (fs fs' : gmap (bool * list string) node) (path : string)
    (r : bool) (cs : list string) :
  os.MkdirAll fs path = Ok fs' → os.resolve path = Some (r, cs) →
  ∀ i, (i ≤ length cs)%nat → os.lookup_path fs' (r, take i cs) = Some Directory.
Proof.
  unfold os.MkdirAll. intros H Hr. rewrite Hr in H. simpl in H. intros i Hi.
  destruct i as [|i].
  - by rewrite take_0.
  - apply (mkdirs_dirs _ _ [] _ _ H (S i)). lia.
Qed.

(** ** vault.go *)

Lemma under_spec (base p : bool * list string) :
  FilesystemVault.under base p = true ↔
  p.1 = base.1 ∧ base.2 `prefix_of` p.2 ∧ p.2 ≠ base.2.
Proof. unfold FilesystemVault.under. apply bool_decide_eq_true. Qed.

Lemma content_addressed_spec (fs : gmap (bool * list string) node) (v : FilesystemVault.t)
    (q : bool * list string) (n : node) :
  FilesystemVault.content_addressed fs v = true →
  fs !! q = Some n →
  FilesystemVault.under (filepath.normal (FilesystemVault.basePath v)) q = true →
  FilesystemVault.object_ok q n = true.
Proof.
  unfold FilesystemVault.content_addressed. intros H Hq Hu.
  rewrite forallb_forall in H.
  specialize (H (q, n)). cbn [fst snd] in H. rewrite Hu in H. apply H.
  by apply list_elem_of_In, elem_of_map_to_list.
Qed.

Lemma collision_free_spec (fs : gmap (bool * list string) node) (v : FilesystemVault.t)
    (content c : list byte) (q : bool * list string) :
  FilesystemVault.collision_free fs v content = true →
  fs !! q = Some (File c) →
  FilesystemVault.under (filepath.normal (FilesystemVault.basePath v)) q = true →
  checksum_of c = checksum_of content → c = content.
Proof.
  unfold FilesystemVault.collision_free. intros H Hq Hu Hc.
  rewrite forallb_forall in H.
  specialize (H (q, File c)). cbn [fst snd] in H. rewrite Hu, Hc, String.eqb_refl in H.
  apply (bool_decide_eq_true_1 (c = content)), H.
  by apply list_elem_of_In, elem_of_map_to_list.
Qed.

(** The paths of [Store]: the date directory and the object file. *)
Lemma vault_paths (v : FilesystemVault.t) (now : time.Time) (content : list byte) :
  FilesystemVault.basePath v ≠ "" →
  ∃ y m d,
    Forall (λ n, os.entry_name n = true) [y; m; d]
    ∧ Forall (λ n, has_suffix ".vault" n = false) [y; m; d]
    ∧ os.resolve (filepath.Join [FilesystemVault.basePath v; time.Format now])
      = Some ((filepath.normal (FilesystemVault.basePath v)).1,
              (filepath.normal (FilesystemVault.basePath v)).2 ++ [y; m; d])
    ∧ os.resolve
        (filepath.Join [filepath.Join [FilesystemVault.basePath v; time.Format now];
                        checksum_of content +:+ ".vault"])
      = Some ((filepath.normal (FilesystemVault.basePath v)).1,
              (filepath.normal (FilesystemVault.basePath v)).2
              ++ [y; m; d; checksum_of content +:+ ".vault"]).
Proof.
  intros Hb. destruct (Format_components now) as (y & m & d & Hc & Hn & Hs).
  exists y, m, d. split; [done|]. split; [done|].
  assert (Hdir : os.resolve (filepath.Join [FilesystemVault.basePath v; time.Format now])
                 = Some ((filepath.normal (FilesystemVault.basePath v)).1,
                         (filepath.normal (FilesystemVault.basePath v)).2 ++ [y; m; d])).
  { by apply resolve_Join_names. }
  split; [exact Hdir|].
  pose proof (resolve_child _ (checksum_of content +:+ ".vault") _ Hdir
                (object_name_ok content)) as H.
  cbn [fst snd] in H. by rewrite <- app_assoc in H.
Qed.

Lemma string_take_app (a b : string) : string_take (String.length a) (a +:+ b) = a.
Proof. induction a as [|c a IH]; [by destruct b|]. rewrite append_cons. simpl. by rewrite IH. Qed.

(** [Retrieve] reads the hash off a reference made by [Store]. *)
Lemma vault_ref_hash (content : list byte) :
  (if Nat.ltb 8 (String.length ("vault://" +:+ checksum_of content))
      && String.eqb (string_take 8 ("vault://" +:+ checksum_of content)) "vault://"
   then string_drop 8 ("vault://" +:+ checksum_of content)
   else "vault://" +:+ checksum_of content)
  = checksum_of content.
Proof.
  rewrite length_append, checksum_of_length.
  replace (string_take 8 ("vault://" +:+ checksum_of content)) with "vault://"
    by (symmetry; apply (string_take_app "vault://")).
  replace (string_drop 8 ("vault://" +:+ checksum_of content)) with (checksum_of content)
    by (symmetry; apply (string_drop_app "vault://")).
  reflexivity.
Qed.

Lemma lookup_path_File (fs : gmap (bool * list string) node) (p : bool * list string)
    (c : list byte) :
  os.lookup_path fs p = Some (File c) ↔ os.implicit_dir p = false ∧ fs !! p = Some (File c).
Proof.
  unfold os.lookup_path. destruct (os.implicit_dir p); [|by intuition]. by split; [|intros [? _]].
Qed.

(** [Retrieve] finds an object that is in the vault directory, when the
    files of that name there all hold [content]. *)
Lemma vault_Retrieve_found (v : FilesystemVault.t) (fs : gmap (bool * list string) node)
    (content cT : list byte) (y m d : string) :
  FilesystemVault.basePath v ≠ "" →
  Forall (λ n, os.entry_name n = true) [y; m; d] →
  (∀ i, (i ≤ 3)%nat →
        os.lookup_path fs
          ((filepath.normal (FilesystemVault.basePath v)).1,
           (filepath.normal (FilesystemVault.basePath v)).2 ++ take i [y; m; d])
        = Some Directory) →
  fs !! ((filepath.normal (FilesystemVault.basePath v)).1,
         (filepath.normal (FilesystemVault.basePath v)).2
         ++ [y; m; d; checksum_of content +:+ ".vault"]) = Some (File cT) →
  (∀ q c, fs !! q = Some (File c) →
          FilesystemVault.under (filepath.normal (FilesystemVault.basePath v)) q = true →
          os.base_name q = checksum_of content +:+ ".vault" → c = content) →
  FilesystemVault.Retrieve v fs ("vault://" +:+ checksum_of content) = Ok content.
Proof.
  intros Hb Hn Hdirs HT Hall.
  set (p0 := filepath.normal (FilesystemVault.basePath v)) in *.
  set (name := checksum_of content +:+ ".vault") in *.
  assert (Hname : os.entry_name name = true) by apply object_name_ok.
  assert (Hr0 : os.resolve (FilesystemVault.basePath v) = Some p0) by by apply resolve_nonempty.
  assert (Hl0 : os.Lstat fs (FilesystemVault.basePath v) = Ok (os.info_of p0 Directory)).
  { apply Lstat_Ok. exists p0, Directory. split; [done|]. split; [|done].
    specialize (Hdirs 0%nat ltac:(lia)). rewrite take_0, app_nil_r in Hdirs.
    by replace (p0.1, p0.2) with p0 in Hdirs by by destruct p0. }
  assert (Hnames : Forall (λ n, os.entry_name n = true) [y; m; d; name]).
  { apply Forall_app with (l1 := [y; m; d]) (l2 := [name]). split; [done|].
    by apply Forall_singleton. }
  destruct (walk_complete fs [y; m; d; name] (S (os.depth fs))
              (FilesystemVault.basePath v) _ p0 Hr0 Hl0) as (s & fi & Hin & Hs).
  { pose proof (depth_bound _ _ _ HT) as Hd. simpl in Hd. rewrite length_app in Hd.
    simpl in *. lia. }
  { done. }
  { intros i Hi. simpl in Hi.
    replace (take i [y; m; d; name]) with (take i [y; m; d]).
    - apply Hdirs. lia.
    - by destruct i as [|[|[|[|i]]]]; [..|lia]. }
  { right. by rewrite HT. }
  pose proof (walk_sound _ _ _ _ _ _ Hin Hl0) as Hls.
  apply Lstat_Ok in Hls as (T & nT & HrT & HlT & ->).
  rewrite Hs in HrT. injection HrT as <-.
  assert (HnT : nT = File cT).
  { unfold os.lookup_path in HlT.
    rewrite (implicit_dir_names _ _ [y; m; d; name]) in HlT by done.
    cbv iota in HlT. enough (Some nT = Some (File cT)) by congruence.
    rewrite <- HlT. exact HT. }
  subst nT.
  unfold FilesystemVault.Retrieve. rewrite vault_ref_hash. fold name.
  unfold os.Walk. rewrite Hl0.
  destruct (find _ (os.walk (S (os.depth fs)) fs (FilesystemVault.basePath v) _))
    as [[s' fi']|] eqn:Ef.
  - apply find_some in Ef as [Hin' HP]. cbn [fst snd] in HP.
    apply andb_prop in HP as [Hnd Hnm]. apply negb_true_iff in Hnd.
    apply String.eqb_eq in Hnm.
    pose proof (walk_sound _ _ _ _ _ _ Hin' Hl0) as Hls'.
    apply Lstat_Ok in Hls' as (q & nq & Hrq & Hlq & ->).
    destruct (walk_under _ _ _ _ _ _ _ Hin' Hr0) as (q' & Hrq' & Hq1 & Hq2).
    rewrite Hrq in Hrq'. injection Hrq' as <-.
    destruct nq as [c'|]; [|done].
    assert (Hq3 : q.2 ≠ p0.2).
    { intros Heq. apply Lstat_Ok in Hl0 as (p0' & n0 & Hr0' & Hl0' & Hi0).
      rewrite Hr0 in Hr0'. injection Hr0' as <-.
      assert (Hn0 : n0 = Directory).
      { destruct n0; [|done]. by apply (f_equal IsDir) in Hi0. }
      subst n0. replace q with p0 in Hlq by (destruct q, p0; simpl in *; congruence).
      congruence. }
    apply lookup_path_File in Hlq as [Hiq Hfq].
    assert (c' = content) as ->.
    { apply (Hall q c' Hfq); [by apply under_spec | exact Hnm]. }
    cbn [fst]. destruct (String.eqb_spec s' "") as [->|_]; [done|].
    assert (Hread : os.ReadFile fs s' = Ok content).
    { apply ReadFile_Ok. by exists q. }
    by rewrite Hread.
  - exfalso. eapply find_none in Ef; [|exact Hin].
    assert (HP : negb (IsDir (os.info_of (p0.1, p0.2 ++ [y; m; d; name]) (File cT)))
                 && String.eqb (Name (os.info_of (p0.1, p0.2 ++ [y; m; d; name]) (File cT)))
                      name = true).
    { unfold os.info_of, os.base_name. cbn [IsDir Name fst snd negb andb].
      change [y; m; d; name] with ([y; m; d] ++ [name]).
      rewrite app_assoc, last_last. apply String.eqb_refl. }
    exact (eq_true_false_abs _ HP Ef).
Qed.

Lemma base_name_snoc (r : bool) (cs : list string) (n : string) :
  os.base_name (r, cs ++ [n]) = n.
Proof. unfold os.base_name. cbn [fst snd]. apply last_last. Qed.

(** An object file of the vault that has the name of [content] holds
    [content], in a vault that names its files by checksum and has no
    other payload of that checksum. *)
Lemma vault_object_content (v : FilesystemVault.t) (fs : gmap (bool * list string) node)
    (content c : list byte) (q : bool * list string) :
  FilesystemVault.content_addressed fs v = true →
  FilesystemVault.collision_free fs v content = true →
  fs !! q = Some (File c) →
  FilesystemVault.under (filepath.normal (FilesystemVault.basePath v)) q = true →
  os.base_name q = checksum_of content +:+ ".vault" →
  c = content.
Proof.
  intros Hca Hcf Hq Hu Hname.
  pose proof (content_addressed_spec fs v q (File c) Hca Hq Hu) as Hok.
  unfold FilesystemVault.object_ok in Hok.
  rewrite Hname, has_suffix_app in Hok. apply String.eqb_eq in Hok.
  apply (collision_free_spec fs v content c q Hcf Hq Hu).
  symmetry. apply (append_inj_l _ _ ".vault"); [|done].
  by rewrite !checksum_of_length.
Qed.

(** C1, for the vault of vault.go. *)
Lemma vault_round_trip (v : FilesystemVault.t) (now : time.Time)
    (fs fs' : gmap (bool * list string) node) (content : list byte) (ref : string) :
  FilesystemVault.basePath v ≠ "" →
  FilesystemVault.content_addressed fs v = true →
  FilesystemVault.collision_free fs v content = true →
  FilesystemVault.Store v now fs content = (fs', Ok ref) →
  FilesystemVault.Retrieve v fs' ref = Ok content.
Proof.
  intros Hb Hca Hcf HS.
  destruct (vault_paths v now content Hb) as (y & m & d & Hn & Hsuf & Hdir & HT).
  unfold FilesystemVault.Store in HS. cbv zeta in HS.
  destruct (os.MkdirAll fs _) as [fs1|e] eqn:Em; [|done].
  assert (Hd1 : ∀ i, (i ≤ 3)%nat →
                     os.lookup_path fs1
                       ((filepath.normal (FilesystemVault.basePath v)).1,
                        (filepath.normal (FilesystemVault.basePath v)).2 ++ take i [y; m; d])
                     = Some Directory).
  { intros i Hi. rewrite <- take_app_add.
    apply (MkdirAll_dirs _ _ _ _ _ Em Hdir). rewrite length_app. simpl. lia. }
  assert (HT1 : fs1 !! ((filepath.normal (FilesystemVault.basePath v)).1,
                        (filepath.normal (FilesystemVault.basePath v)).2
                        ++ [y; m; d; checksum_of content +:+ ".vault"])
                = fs !! ((filepath.normal (FilesystemVault.basePath v)).1,
                         (filepath.normal (FilesystemVault.basePath v)).2
                         ++ [y; m; d; checksum_of content +:+ ".vault"])).
  { unfold os.MkdirAll in Em. rewrite Hdir in Em. cbn [fst snd] in Em.
    apply (mkdirs_longer _ _ _ _ _ _ Em). cbn [fst snd]. rewrite !length_app. simpl. lia. }
  assert (Hnames : Forall (λ n, os.entry_name n = true)
                     [y; m; d; checksum_of content +:+ ".vault"]).
  { apply Forall_app with (l1 := [y; m; d]) (l2 := [checksum_of content +:+ ".vault"]).
    split; [done|]. apply Forall_singleton, object_name_ok. }
  assert (Hold : ∀ q c, fs1 !! q = Some (File c) →
                        FilesystemVault.under (filepath.normal (FilesystemVault.basePath v)) q
                        = true →
                        os.base_name q = checksum_of content +:+ ".vault" → c = content).
  { intros q c Hq Hu Hname. apply (MkdirAll_files _ _ _ q c Em) in Hq.
    exact (vault_object_content v fs content c q Hca Hcf Hq Hu Hname). }
  assert (HuT : FilesystemVault.under (filepath.normal (FilesystemVault.basePath v))
                  ((filepath.normal (FilesystemVault.basePath v)).1,
                   (filepath.normal (FilesystemVault.basePath v)).2
                   ++ [y; m; d; checksum_of content +:+ ".vault"]) = true).
  { apply under_spec. cbn [fst snd]. split; [done|]. split; [by apply prefix_app_r|].
    intros H. apply (f_equal length) in H. rewrite length_app in H. simpl in H. lia. }
  assert (HbT : os.base_name ((filepath.normal (FilesystemVault.basePath v)).1,
                              (filepath.normal (FilesystemVault.basePath v)).2
                              ++ [y; m; d; checksum_of content +:+ ".vault"])
                = checksum_of content +:+ ".vault").
  { change [y; m; d; checksum_of content +:+ ".vault"]
      with ([y; m; d] ++ [checksum_of content +:+ ".vault"]).
    rewrite app_assoc. apply base_name_snoc. }
  destruct (os.Stat fs1 _) as [info|e] eqn:Es.
  - injection HS as <- <-. unfold os.Stat in Es.
    apply Lstat_Ok in Es as (T & nT & HrT & HlT & _).
    assert (HTeq : T = ((filepath.normal (FilesystemVault.basePath v)).1,
                        (filepath.normal (FilesystemVault.basePath v)).2
                        ++ [y; m; d; checksum_of content +:+ ".vault"])) by congruence.
    subst T. unfold os.lookup_path in HlT.
    rewrite (implicit_dir_names _ _ [y; m; d; checksum_of content +:+ ".vault"]) in HlT by done.
    cbv iota in HlT.
    assert (HnT : ∃ cT, nT = File cT).
    { pose proof HlT as HlT'. rewrite HT1 in HlT'.
      pose proof (content_addressed_spec fs v _ nT Hca HlT' HuT) as Hok.
      unfold FilesystemVault.object_ok in Hok. rewrite HbT, has_suffix_app in Hok.
      destruct nT as [cT|]; [by exists cT | done]. }
    destruct HnT as [cT ->].
    by apply (vault_Retrieve_found v fs1 content cT y m d).
  - destruct (os.WriteFile fs1 _ content) as [fs2|e'] eqn:Ew; [|done].
    injection HS as <- <-.
    apply WriteFile_Ok in Ew as (T & HrT & HiT & _ & ->).
    assert (HTeq : T = ((filepath.normal (FilesystemVault.basePath v)).1,
                        (filepath.normal (FilesystemVault.basePath v)).2
                        ++ [y; m; d; checksum_of content +:+ ".vault"])) by congruence.
    subst T.
    apply (vault_Retrieve_found v _ content content y m d); [done | done | | |].
    + intros i Hi. specialize (Hd1 i Hi). unfold os.lookup_path in *.
      destruct (os.implicit_dir _); [done|]. rewrite lookup_insert_ne; [done|].
      intros [= H]. apply app_inv_head in H.
      apply (f_equal length) in H. rewrite length_take in H. simpl in H. lia.
    + by rewrite lookup_insert_eq.
    + intros q c Hq Hu Hname.
      destruct (decide (((filepath.normal (FilesystemVault.basePath v)).1,
                         (filepath.normal (FilesystemVault.basePath v)).2
                         ++ [y; m; d; checksum_of content +:+ ".vault"]) = q)) as [<-|Hne].
      * rewrite lookup_insert_eq in Hq. congruence.
      * rewrite lookup_insert_ne in Hq by done. by apply (Hold q c).
Qed.

(** No [Store] of the vault changes a file that is there. *)
Lemma vault_Store_keeps_files (v : FilesystemVault.t) (now : time.Time)
    (fs fs' : gmap (bool * list string) node) (content : list byte)
    (r : result string error) (name : string) (d : list byte) :
  FilesystemVault.Store v now fs content = (fs', r) →
  os.ReadFile fs name = Ok d → os.ReadFile fs' name = Ok d.
Proof.
  unfold FilesystemVault.Store. cbv zeta. intros HS Hr.
  destruct (os.MkdirAll fs _) as [fs1|e] eqn:Em; [|by injection HS as <- _].
  apply (MkdirAll_ReadFile _ _ _ name d Em) in Hr.
  destruct (os.Stat fs1 _) as [info|e] eqn:Es; [by injection HS as <- _|].
  destruct (os.WriteFile fs1 _ content) as [fs2|e'] eqn:Ew; [|by injection HS as <- _].
  injection HS as <- _.
  apply WriteFile_Ok in Ew as (T & HrT & HiT & _ & ->).
  apply ReadFile_Ok in Hr as (q & Hq & Hqi & Hl). apply ReadFile_Ok.
  exists q. split; [done|]. split; [done|].
  rewrite lookup_insert_ne; [done|]. intros <-.
  rewrite (Stat_Err _ _ _ _ Es HrT) in Hl. discriminate Hl.
Qed.

Lemma MkdirAll_lookup (fs fs' : gmap (bool * list string) node) (path : string)
    (p : bool * list string) :
  os.MkdirAll fs path = Ok fs' →
  fs' !! p = fs !! p ∨ (fs !! p = None ∧ fs' !! p = Some Directory).
Proof.
  unfold os.MkdirAll. destruct (os.resolve path) as [q|]; [|done].
  apply mkdirs_lookup.
Qed.

(** When the object file is there, [Store] writes no file at all. *)
Lemma vault_Store_dedup (v : FilesystemVault.t) (now : time.Time)
    (fs fs' : gmap (bool * list string) node) (content : list byte)
    (r : result string error) (info : FileInfo) (name : string) (d : list byte) :
  os.Stat fs
    (filepath.Join [filepath.Join [FilesystemVault.basePath v; time.Format now];
                    checksum_of content +:+ ".vault"]) = Ok info →
  FilesystemVault.Store v now fs content = (fs', r) →
  (os.ReadFile fs' name = Ok d ↔ os.ReadFile fs name = Ok d).
Proof.
  unfold FilesystemVault.Store. cbv zeta. intros Hs HS.
  destruct (os.MkdirAll fs _) as [fs1|e] eqn:Em; [|by injection HS as <- _].
  assert (Hs1 : ∃ info1, os.Stat fs1
                  (filepath.Join [filepath.Join [FilesystemVault.basePath v; time.Format now];
                                  checksum_of content +:+ ".vault"]) = Ok info1).
  { unfold os.Stat in *. apply Lstat_Ok in Hs as (T & nT & HrT & HlT & _).
    assert (Hl1 : ∃ n1, os.lookup_path fs1 T = Some n1).
    { unfold os.lookup_path in *. destruct (os.implicit_dir T); [by eexists|].
      destruct (MkdirAll_lookup _ _ _ T Em) as [->|[Hn _]]; [by eexists | congruence]. }
    destruct Hl1 as [n1 Hl1]. exists (os.info_of T n1). apply Lstat_Ok. by exists T, n1. }
  destruct Hs1 as [info1 Hs1]. rewrite Hs1 in HS. injection HS as <- _.
  by apply MkdirAll_ReadFile with (path := filepath.Join [FilesystemVault.basePath v; time.Format now]).
Qed.

Lemma content_addressed_intro (fs : gmap (bool * list string) node) (v : FilesystemVault.t) :
  (∀ q n, fs !! q = Some n →
          FilesystemVault.under (filepath.normal (FilesystemVault.basePath v)) q = true →
          FilesystemVault.object_ok q n = true) →
  FilesystemVault.content_addressed fs v = true.
Proof.
  intros H. unfold FilesystemVault.content_addressed. apply forallb_forall.
  intros [q n] Hin%list_elem_of_In%elem_of_map_to_list. cbn [fst snd].
  destruct (FilesystemVault.under _ q) eqn:Hu; [|done]. by apply H.
Qed.

(** The directories [MkdirAll] makes are prefixes of its path. *)
Lemma mkdirs_new (rooted : bool) (rest pre : list string)
    (fs fs' : gmap (bool * list string) node) (q : bool * list string) :
  os.mkdirs rooted pre rest fs = Ok fs' → fs !! q = None → is_Some (fs' !! q) →
  ∃ i, (0 < i ≤ length rest)%nat ∧ q = (rooted, pre ++ take i rest).
Proof.
  revert pre fs. induction rest as [|c rest IH]; intros pre fs H Hn Hs; simpl in H.
  - injection H as <-. rewrite Hn in Hs. by destruct Hs.
  - assert (Hnext : ∀ fs0, os.mkdirs rooted (pre ++ [c]) rest fs0 = Ok fs' → fs0 !! q = None →
                           ∃ i, (0 < i ≤ length (c :: rest))%nat
                                ∧ q = (rooted, pre ++ take i (c :: rest))).
    { intros fs0 H0 Hn0. destruct (IH _ _ H0 Hn0 Hs) as (i & Hi & ->).
      exists (S i). split; [simpl; lia|]. simpl. by rewrite <- app_assoc. }
    destruct (os.lookup_path fs (rooted, pre ++ [c])) as [[d|]|] eqn:E; [done| |].
    + by apply (Hnext fs).
    + destruct (decide ((rooted, pre ++ [c]) = q)) as [<-|Hne].
      * exists 1%nat. split; [simpl; lia | done].
      * apply (Hnext _ H). by rewrite lookup_insert_ne.
Qed.

(** [Store] keeps the vault directory as it should be: from an empty
    disk, the stores of a vault never leave it otherwise. *)
Lemma Store_content_addressed (v : FilesystemVault.t) (now : time.Time)
    (fs fs' : gmap (bool * list string) node) (content : list byte)
    (r : result string error) :
  FilesystemVault.basePath v ≠ "" →
  FilesystemVault.content_addressed fs v = true →
  FilesystemVault.Store v now fs content = (fs', r) →
  FilesystemVault.content_addressed fs' v = true.
Proof.
  intros Hb Hca HS.
  destruct (vault_paths v now content Hb) as (y & m & d & Hn & Hsuf & Hdir & HT).
  unfold FilesystemVault.Store in HS. cbv zeta in HS.
  destruct (os.MkdirAll fs _) as [fs1|e] eqn:Em; [|by injection HS as <- _].
  assert (H1 : FilesystemVault.content_addressed fs1 v = true).
  { apply content_addressed_intro. intros q n Hq Hu.
    destruct (fs !! q) as [n0|] eqn:E0.
    - destruct (MkdirAll_lookup _ _ _ q Em) as [Heq|[Hnone _]]; [|congruence].
      rewrite Hq, E0 in Heq. injection Heq as ->.
      by apply (content_addressed_spec fs v q n0).
    - unfold os.MkdirAll in Em. rewrite Hdir in Em. cbn [fst snd] in Em.
      destruct (mkdirs_new _ _ _ _ _ q Em E0 ltac:(by exists n)) as (i & Hi & ->).
      destruct (mkdirs_lookup _ _ _ _ _
                  ((filepath.normal (FilesystemVault.basePath v)).1,
                   [] ++ take i ((filepath.normal (FilesystemVault.basePath v)).2 ++ [y; m; d]))
                  Em) as [Heq|[_ Hd]]; [congruence|].
      rewrite Hq in Hd. injection Hd as ->.
      apply under_spec in Hu as (_ & Hpre & Hne). cbn [fst snd app] in Hpre, Hne.
      unfold FilesystemVault.object_ok.
      enough (Hs : has_suffix ".vault"
                     (os.base_name ((filepath.normal (FilesystemVault.basePath v)).1,
                                    [] ++ take i ((filepath.normal (FilesystemVault.basePath v)).2
                                                  ++ [y; m; d]))) = false) by by rewrite Hs.
      cbn [app]. rewrite take_app in Hpre, Hne |- *.
      destruct (decide (i ≤ length (filepath.normal (FilesystemVault.basePath v)).2)%nat)
        as [Hle|Hgt].
      + exfalso. replace (i - length (filepath.normal (FilesystemVault.basePath v)).2)%nat
          with 0%nat in * by lia.
        rewrite take_0, app_nil_r in Hpre, Hne. apply Hne.
        apply prefix_length in Hpre as Hlen. rewrite length_take in Hlen.
        apply take_ge. lia.
      + rewrite take_ge by lia.
        rewrite length_app in Hi. change (length [y; m; d]) with 3%nat in Hi.
        apply Forall_cons in Hsuf as [Hy Hsuf]. apply Forall_cons in Hsuf as [Hm Hsuf].
        apply Forall_cons in Hsuf as [Hd _].
        destruct (i - length (filepath.normal (FilesystemVault.basePath v)).2)%nat
          as [|[|[|[|j]]]] eqn:Ej; [lia| | | |lia]; cbn [take].
        * by rewrite base_name_snoc.
        * change [y; m] with ([y] ++ [m]). by rewrite app_assoc, base_name_snoc.
        * change [y; m; d] with ([y; m] ++ [d]). by rewrite app_assoc, base_name_snoc. }
  destruct (os.Stat fs1 _) as [info|e] eqn:Es; [by injection HS as <- _|].
  destruct (os.WriteFile fs1 _ content) as [fs2|e'] eqn:Ew; [|by injection HS as <- _].
  injection HS as <- _.
  apply WriteFile_Ok in Ew as (T & HrT & HiT & _ & ->).
  assert (HTeq : T = ((filepath.normal (FilesystemVault.basePath v)).1,
                      (filepath.normal (FilesystemVault.basePath v)).2
                      ++ [y; m; d; checksum_of content +:+ ".vault"])) by congruence.
  apply content_addressed_intro. intros q n Hq Hu.
  destruct (decide (T = q)) as [<-|Hne].
  - rewrite lookup_insert_eq in Hq. injection Hq as <-.
    unfold FilesystemVault.object_ok. rewrite HTeq.
    change [y; m; d; checksum_of content +:+ ".vault"]
      with ([y; m; d] ++ [checksum_of content +:+ ".vault"]).
    rewrite app_assoc, base_name_snoc, has_suffix_app. apply String.eqb_refl.
  - rewrite lookup_insert_ne in Hq by done.
    by apply (content_addressed_spec fs1 v q n).
Qed.

Lemma empty_content_addressed (v : FilesystemVault.t) :
  FilesystemVault.content_addressed ∅ v = true.
Proof. apply content_addressed_intro. intros q n Hq. by rewrite lookup_empty in Hq. Qed.

(** ** Batch processing and the offload of span attributes *)

(** C3.  Whatever the vault does, [ConsumeTraces] returns the error of the
    downstream consumer and no other: it returns an error exactly when the
    forwarding call does.  A store that fails ends one iteration of the
    loop: the attributes are as they were (a warning is logged) and the
    loop goes on with the next pending entry; so with a vault that fails
    on every call the batch is handed on as it was received. *)
Theorem consume_error_only_from_downstream {V : Type}
    (store : V → list byte → V * result string error)
    (next : ptrace.Traces → option error) (p : vaultProcessor) (st : V) (td : ptrace.Traces) :
  returned (ConsumeTraces store next p st td)
  = next (forwarded (ConsumeTraces store next p st td))
  ∧ (returned (ConsumeTraces store next p st td) ≠ None
     ↔ next (forwarded (ConsumeTraces store next p st td)) ≠ None)
  ∧ (∀ entry rest s s' err attrs log,
       store s (list_byte_of_string (content entry)) = (s', Err err) →
       offload store p (entry :: rest) s attrs log
       = offload store p rest s' attrs (log ++ [LogWarn "vault store failed" (key entry) err]))
  ∧ ((∀ s c, ∃ s' err, store s c = (s', Err err)) →
     forwarded (ConsumeTraces store next p st td) = td
     ∧ returned (ConsumeTraces store next p st td) = next td).
Proof.
  assert (Hret : returned (ConsumeTraces store next p st td)
                 = next (forwarded (ConsumeTraces store next p st td))).
  { unfold ConsumeTraces. by destruct (vaultResources store p td st []) as [[st' td'] log]. }
  split; [exact Hret|]. split; [by rewrite Hret|]. split.
  - intros entry rest s s' err attrs log E. simpl. by rewrite E.
  - intros Hfail.
    assert (Hfw : forwarded (ConsumeTraces store next p st td) = td).
    { pose proof (vaultResources_id store p (offload_all_fail store p Hfail) td st []) as H.
      unfold ConsumeTraces. destruct (vaultResources store p td st []) as [[st' td'] log].
      exact H. }
    split; [exact Hfw|]. by rewrite Hret, Hfw.
Qed.


(** The boundary of the specification, on the vault of the factory: with
    a threshold of 50 a string of 49 bytes is left as it is and nothing is
    stored; a string of 50 bytes is replaced by a reference. *)
Example threshold_50_example :
  vaultSpan Examples.diskStore
    (newVaultProcessor (Examples.policy ["gen_ai.prompt"] 50 "replace_with_ref"))
    (Examples.span_of [("gen_ai.prompt", pcommon.ValueStr Examples.s49)] []) Examples.disk0 []
  = (Examples.disk0,
     Examples.span_of [("gen_ai.prompt", pcommon.ValueStr Examples.s49)] [], [])
  ∧ ptrace.Attributes
      (vaultSpan Examples.diskStore
         (newVaultProcessor (Examples.policy ["gen_ai.prompt"] 50 "replace_with_ref"))
         (Examples.span_of [("gen_ai.prompt", pcommon.ValueStr Examples.s50)] [])
         Examples.disk0 []).1.2
    = [("gen_ai.prompt", pcommon.ValueStr ("vault://" +:+ checksum_of (Examples.bytes Examples.s50)));
       ("gen_ai.prompt.vault_ref",
        pcommon.ValueStr ("vault://" +:+ checksum_of (Examples.bytes Examples.s50)))].
Proof. split; vm_compute; reflexivity. Qed.





(** C7 as the code has it.  [ConsumeTraces] visits the attributes of
    spans only: the events of every span are handed on as received,
    whatever their attributes, the policy and the vault. *)
Theorem events_are_not_processed {V : Type} (store : V → list byte → V * result string error)
    (next : ptrace.Traces → option error) (p : vaultProcessor) (st : V) (td : ptrace.Traces) :
  ptrace.Events <$> ptrace.spans_of (forwarded (ConsumeTraces store next p st td))
  = ptrace.Events <$> ptrace.spans_of td.
Proof.
  pose proof (vaultResources_events store p td st []) as H.
  unfold ConsumeTraces. destruct (vaultResources store p td st []) as [[st' td'] log].
  exact H.
Qed.

(** Against C7 as stated.  An eligible attribute on an event, with the default policy
    (threshold 0) and a vault that would take it: nothing is stored and
    the event keeps its value. *)
Lemma event_attribute_not_offloaded :
  inKeysSet (newVaultProcessor createDefaultConfig) "gen_ai.prompt" = true
  ∧ forwarded (ConsumeTraces Examples.diskStore Examples.downstream
                 (newVaultProcessor createDefaultConfig) Examples.disk0
                 (Examples.batch_of Examples.span_with_event))
    = Examples.batch_of Examples.span_with_event
  ∧ vault_after (ConsumeTraces Examples.diskStore Examples.downstream
                   (newVaultProcessor createDefaultConfig) Examples.disk0
                   (Examples.batch_of Examples.span_with_event))
    = Examples.disk0
  ∧ logged (ConsumeTraces Examples.diskStore Examples.downstream
              (newVaultProcessor createDefaultConfig) Examples.disk0
              (Examples.batch_of Examples.span_with_event))
    = [].
Proof. repeat split; vm_compute; reflexivity. Qed.




(** C10.  For an attribute of a span (keys distinct) whose key is in the
    key set and whose value is no string, with a threshold of 0: its
    content is read as the empty string and it is put on the pending list
    with that content, so the vault is handed a payload of length zero;
    once that store succeeds, replace mode leaves a reference under the
    key and remove mode leaves the key without its value (absent, unless
    a pending entry has it for sibling key). *)
Theorem non_string_value_vaulted_empty {V : Type}
    (store : V → list byte → V * result string error)
    (p : vaultProcessor) (span : ptrace.Span) (k : string) (v : pcommon.Value) :
  NoDup (ptrace.Attributes span).*1 →
  (k, v) ∈ ptrace.Attributes span →
  inKeysSet p k = true →
  (∀ s, v ≠ pcommon.ValueStr s) →
  SizeThreshold (Vault (config p)) = 0%Z →
  pcommon.Str v = ""
  ∧ {| key := k; content := "" |} ∈ collect p (ptrace.Attributes span)
  ∧ list_byte_of_string (content {| key := k; content := "" |}) = []
  ∧ ((∀ st, ∃ st' ref, store st [] = (st', Ok ref)) →
     ∀ st log,
       (Mode (Vault (config p)) = "replace_with_ref" →
        ∃ ref, issued store ref
               ∧ pcommon.Get (ptrace.Attributes (vaultSpan store p span st log).1.2) k
                 = Some (pcommon.ValueStr ref))
       ∧ (Mode (Vault (config p)) = "remove" →
          pcommon.Get (ptrace.Attributes (vaultSpan store p span st log).1.2) k ≠ Some v
          ∧ (Forall (λ e, key e +:+ ".vault_ref" ≠ k) (collect p (ptrace.Attributes span)) →
             pcommon.Get (ptrace.Attributes (vaultSpan store p span st log).1.2) k = None))).
Proof.
  intros Hnd Hin Hk Hv Hth.
  assert (Hs : pcommon.Str v = "").
  { destruct v; try reflexivity. by destruct (Hv s). }
  assert (Hc : {| key := k; content := "" |} ∈ collect p (ptrace.Attributes span)).
  { apply elem_of_collect. exists (k, v). simpl. rewrite Hs, Hth. simpl.
    split; [done|]. split; [done|]. split; [lia | done]. }
  split; [exact Hs|]. split; [exact Hc|]. split; [reflexivity|].
  intros Hok st log. rewrite vaultSpan_attrs. split.
  - intros Hm.
    exact (offload_replaced store p {| key := k; content := "" |} Hm Hok _ st _ log Hc Hnd).
  - intros Hm. split.
    + exact (offload_overwritten store p {| key := k; content := "" |} v (or_intror Hm) Hv Hok
               _ st _ log Hc Hnd).
    + intros HQ.
      exact (offload_removed store p {| key := k; content := "" |} Hm Hok _ st _ log Hc Hnd HQ).
Qed.

Lemma non_string_value_vaulted_empty_witness :
  (NoDup [("gen_ai.prompt", pcommon.ValueInt 42); ("http.method", pcommon.ValueStr "POST")].*1
   ∧ ("gen_ai.prompt", pcommon.ValueInt 42)
       ∈ [("gen_ai.prompt", pcommon.ValueInt 42); ("http.method", pcommon.ValueStr "POST")]
   ∧ inKeysSet (newVaultProcessor (Examples.policy ["gen_ai.prompt"] 0 "remove"))
       "gen_ai.prompt" = true
   ∧ (∀ s, pcommon.ValueInt 42 ≠ pcommon.ValueStr s)
   ∧ SizeThreshold (Vault (config (newVaultProcessor
                                     (Examples.policy ["gen_ai.prompt"] 0 "remove")))) = 0%Z)
  ∧ pcommon.Str (pcommon.ValueInt 42) = ""
  ∧ {| key := "gen_ai.prompt"; content := "" |}
      ∈ collect (newVaultProcessor (Examples.policy ["gen_ai.prompt"] 0 "remove"))
          [("gen_ai.prompt", pcommon.ValueInt 42); ("http.method", pcommon.ValueStr "POST")].
Proof.
  assert (H1 : NoDup [("gen_ai.prompt", pcommon.ValueInt 42);
                      ("http.method", pcommon.ValueStr "POST")].*1).
  { simpl. apply NoDup_cons. split; [|apply NoDup_singleton].
    intros H. apply list_elem_of_singleton in H. discriminate H. }
  assert (H2 : ("gen_ai.prompt", pcommon.ValueInt 42)
                 ∈ [("gen_ai.prompt", pcommon.ValueInt 42);
                    ("http.method", pcommon.ValueStr "POST")]).
  { apply elem_of_cons. left. reflexivity. }
  assert (H3 : inKeysSet (newVaultProcessor (Examples.policy ["gen_ai.prompt"] 0 "remove"))
                 "gen_ai.prompt" = true).
  { vm_compute. reflexivity. }
  assert (H4 : ∀ s, pcommon.ValueInt 42 ≠ pcommon.ValueStr s).
  { intros s. discriminate. }
  assert (H5 : SizeThreshold (Vault (config (newVaultProcessor
                 (Examples.policy ["gen_ai.prompt"] 0 "remove")))) = 0%Z).
  { reflexivity. }
  split; [exact (conj H1 (conj H2 (conj H3 (conj H4 H5))))|].
  pose proof (non_string_value_vaulted_empty Examples.memStore
                (newVaultProcessor (Examples.policy ["gen_ai.prompt"] 0 "remove"))
                (Examples.span_of [("gen_ai.prompt", pcommon.ValueInt 42);
                                   ("http.method", pcommon.ValueStr "POST")] [])
                "gen_ai.prompt" (pcommon.ValueInt 42) H1 H2 H3 H4 H5) as (Ha & Hb & _).
  exact (conj Ha Hb).
Defined.

(** A value that is an integer, in both modes, on a vault in memory: the
    payload stored has length zero. *)
Example non_string_value_example :
  vaultSpan Examples.memStore (newVaultProcessor (Examples.policy ["gen_ai.prompt"] 0 "remove"))
    (Examples.span_of [("gen_ai.prompt", pcommon.ValueInt 42)] []) [] []
  = ([[]],
     Examples.span_of
       [("gen_ai.prompt.vault_ref",
         pcommon.ValueStr
           "vault://e3b0c44298fc1c149afbf4c8996fb92427ae41e4649b934ca495991b7852b855")] [],
     [LogDebug "vaulted attribute" "gen_ai.prompt"
        "vault://e3b0c44298fc1c149afbf4c8996fb92427ae41e4649b934ca495991b7852b855" 0])
  ∧ ptrace.Attributes
      (vaultSpan Examples.memStore
         (newVaultProcessor (Examples.policy ["gen_ai.prompt"] 0 "replace_with_ref"))
         (Examples.span_of [("gen_ai.prompt", pcommon.ValueInt 42)] []) [] []).1.2
    = [("gen_ai.prompt",
        pcommon.ValueStr
          "vault://e3b0c44298fc1c149afbf4c8996fb92427ae41e4649b934ca495991b7852b855");
       ("gen_ai.prompt.vault_ref",
        pcommon.ValueStr
          "vault://e3b0c44298fc1c149afbf4c8996fb92427ae41e4649b934ca495991b7852b855")].
Proof. split; vm_compute; reflexivity. Qed.

(** ** The stores *)

Lemma pair_eta_snd {A B : Type} (x : A * B) (b : B) : x.2 = b → x = (x.1, b).
Proof. destruct x. simpl. by intros ->. Qed.

(** C1.  For every payload [content], the zero-length one included,
    retrieving the reference of a successful store gives the payload back.
    For the vault of vault.go, which finds the object by the name of its
    checksum, this is in a vault directory kept as its stores keep it and
    that holds no other payload of the same SHA-256; for the backend of
    storage/filesystem.go, whose references carry a path, it is for a
    trace id that [Sscanf] reads as a word. *)
Theorem store_retrieve_round_trip (content : list byte)
    (v : FilesystemVault.t) (now : time.Time) (fs fs' : gmap (bool * list string) node)
    (ref : string)
    (f : FilesystemBackend.t) (traceID spanID attrKey : string)
    (bfs bfs' : gmap (bool * list string) node) (bref : storage.Reference) :
  FilesystemVault.basePath v ≠ "" →
  FilesystemVault.content_addressed fs v = true →
  FilesystemVault.collision_free fs v content = true →
  FilesystemBackend.basePath f ≠ "" →
  fmt.starts_visible traceID = true →
  (FilesystemVault.Store v now fs content = (fs', Ok ref) →
   FilesystemVault.Retrieve v fs' ref = Ok content)
  ∧ (FilesystemBackend.Store f bfs traceID spanID attrKey content = (bfs', Ok bref) →
     FilesystemBackend.Retrieve f bfs' bref = Ok content).
Proof.
  intros Hb Hca Hcf Hbb Hv. split.
  - by apply vault_round_trip.
  - intros (-> & fs1 & _ & Hw)%backend_Store_Ok.
    rewrite backend_Retrieve_read with (data' := content);
      [by rewrite String.eqb_refl | done | done |].
    by apply ReadFile_WriteFile in Hw.
Qed.

Lemma store_retrieve_round_trip_witness :
  (FilesystemVault.basePath Examples.vault ≠ ""
   ∧ FilesystemVault.content_addressed Examples.disk1 Examples.vault = true
   ∧ FilesystemVault.collision_free Examples.disk1 Examples.vault [] = true
   ∧ FilesystemBackend.basePath Examples.backend ≠ ""
   ∧ fmt.starts_visible Examples.trace_id = true)
  ∧ FilesystemVault.Retrieve Examples.vault
      (FilesystemVault.Store Examples.vault Examples.later Examples.disk1 []).1
      "vault://e3b0c44298fc1c149afbf4c8996fb92427ae41e4649b934ca495991b7852b855"
    = Ok []
  ∧ FilesystemBackend.Retrieve Examples.backend
      (FilesystemBackend.Store Examples.backend Examples.bdisk1 Examples.trace_id
         Examples.span_id "gen_ai.completion" []).1
      {| storage.URI :=
           "promptvault://fs/0102030405060708090a0b0c0d0e0f10/0102030405060708/gen_ai.completion";
         storage.Checksum := "e3b0c44298fc1c149afbf4c8996fb92427ae41e4649b934ca495991b7852b855";
         storage.Encrypted := false;
         storage.SizeBytes := 0 |}
    = Ok [].
Proof.
  assert (H1 : FilesystemVault.basePath Examples.vault ≠ "") by discriminate.
  assert (H2 : FilesystemVault.content_addressed Examples.disk1 Examples.vault = true).
  { vm_compute. reflexivity. }
  assert (H3 : FilesystemVault.collision_free Examples.disk1 Examples.vault [] = true).
  { vm_compute. reflexivity. }
  assert (H4 : FilesystemBackend.basePath Examples.backend ≠ "") by discriminate.
  assert (H5 : fmt.starts_visible Examples.trace_id = true) by reflexivity.
  split; [exact (conj H1 (conj H2 (conj H3 (conj H4 H5))))|].
  split.
  - apply (proj1 (store_retrieve_round_trip [] Examples.vault Examples.later Examples.disk1
                    (FilesystemVault.Store Examples.vault Examples.later Examples.disk1 []).1
                    "vault://e3b0c44298fc1c149afbf4c8996fb92427ae41e4649b934ca495991b7852b855"
                    Examples.backend Examples.trace_id Examples.span_id "gen_ai.completion"
                    Examples.bdisk1 Examples.bdisk1 Examples.ref_abc H1 H2 H3 H4 H5)).
    apply pair_eta_snd. vm_compute. reflexivity.
  - apply (proj2 (store_retrieve_round_trip [] Examples.vault Examples.later Examples.disk1
                    Examples.disk1 "" Examples.backend Examples.trace_id Examples.span_id
                    "gen_ai.completion" Examples.bdisk1
                    (FilesystemBackend.Store Examples.backend Examples.bdisk1 Examples.trace_id
                       Examples.span_id "gen_ai.completion" []).1
                    {| storage.URI :=
                         "promptvault://fs/0102030405060708090a0b0c0d0e0f10/0102030405060708/gen_ai.completion";
                       storage.Checksum :=
                         "e3b0c44298fc1c149afbf4c8996fb92427ae41e4649b934ca495991b7852b855";
                       storage.Encrypted := false;
                       storage.SizeBytes := 0 |} H1 H2 H3 H4 H5)).
    apply pair_eta_snd. vm_compute. reflexivity.
Defined.

(** C2.  A reference returned by [Store] has a checksum; when the file
    of the reference later holds other bytes than the payload stored
    (bytes of another SHA-256, as different bytes are unless they
    collide), [Retrieve] returns the checksum-mismatch error, and so not
    the bytes. *)
Theorem checksum_enforced (f : FilesystemBackend.t)
    (fs0 fs1 fs : gmap (bool * list string) node) (traceID spanID attrKey : string)
    (data data' : list byte) (ref : storage.Reference) :
  FilesystemBackend.basePath f ≠ "" →
  fmt.starts_visible traceID = true →
  FilesystemBackend.Store f fs0 traceID spanID attrKey data = (fs1, Ok ref) →
  os.ReadFile fs (filepath.Join [FilesystemBackend.basePath f; traceID; spanID; attrKey])
  = Ok data' →
  data' ≠ data →
  (checksum_of data' = checksum_of data → data' = data) →
  storage.Checksum ref ≠ ""
  ∧ FilesystemBackend.Retrieve f fs ref
    = Err (ErrChecksumMismatch (storage.Checksum ref) (checksum_of data'))
  ∧ ∀ bytes, FilesystemBackend.Retrieve f fs ref ≠ Ok bytes.
Proof.
  intros Hb Hv (-> & _)%backend_Store_Ok Hr Hne Hcol.
  assert (HR : FilesystemBackend.Retrieve f fs
                 {| storage.URI := "promptvault://fs/" +:+ traceID +:+ "/" +:+ spanID
                                   +:+ "/" +:+ attrKey;
                    storage.Checksum := checksum_of data;
                    storage.Encrypted := false;
                    storage.SizeBytes := Z.of_nat (length data) |}
               = Err (ErrChecksumMismatch (checksum_of data) (checksum_of data'))).
  { rewrite backend_Retrieve_read with (data' := data') by done.
    destruct (String.eqb_spec (checksum_of data') (checksum_of data)) as [E|_]; [|done].
    by destruct (Hne (Hcol E)). }
  cbn [storage.Checksum]. split; [apply checksum_of_nonempty|]. split; [exact HR|].
  intros bytes. by rewrite HR.
Qed.

Lemma checksum_enforced_witness :
  (FilesystemBackend.basePath Examples.backend ≠ ""
   ∧ fmt.starts_visible Examples.trace_id = true
   ∧ FilesystemBackend.Store Examples.backend Examples.disk0 Examples.trace_id Examples.span_id
       "gen_ai.prompt" (Examples.bytes "abc") = (Examples.bdisk1, Ok Examples.ref_abc)
   ∧ os.ReadFile Examples.bdisk_altered
       (filepath.Join [FilesystemBackend.basePath Examples.backend; Examples.trace_id;
                       Examples.span_id; "gen_ai.prompt"]) = Ok (Examples.bytes "abd")
   ∧ Examples.bytes "abd" ≠ Examples.bytes "abc"
   ∧ (checksum_of (Examples.bytes "abd") = checksum_of (Examples.bytes "abc") →
      Examples.bytes "abd" = Examples.bytes "abc"))
  ∧ FilesystemBackend.Retrieve Examples.backend Examples.bdisk_altered Examples.ref_abc
    = Err (ErrChecksumMismatch (storage.Checksum Examples.ref_abc)
             (checksum_of (Examples.bytes "abd"))).
Proof.
  assert (H1 : FilesystemBackend.basePath Examples.backend ≠ "") by discriminate.
  assert (H2 : fmt.starts_visible Examples.trace_id = true) by reflexivity.
  assert (H3 : FilesystemBackend.Store Examples.backend Examples.disk0 Examples.trace_id
                 Examples.span_id "gen_ai.prompt" (Examples.bytes "abc")
               = (Examples.bdisk1, Ok Examples.ref_abc)).
  { unfold Examples.bdisk1. apply pair_eta_snd. vm_compute. reflexivity. }
  assert (H4 : os.ReadFile Examples.bdisk_altered
                 (filepath.Join [FilesystemBackend.basePath Examples.backend; Examples.trace_id;
                                 Examples.span_id; "gen_ai.prompt"])
               = Ok (Examples.bytes "abd")).
  { vm_compute. reflexivity. }
  assert (H5 : Examples.bytes "abd" ≠ Examples.bytes "abc").
  { intros H. vm_compute in H. discriminate H. }
  assert (H6 : checksum_of (Examples.bytes "abd") = checksum_of (Examples.bytes "abc") →
               Examples.bytes "abd" = Examples.bytes "abc").
  { intros H. vm_compute in H. discriminate H. }
  split; [exact (conj H1 (conj H2 (conj H3 (conj H4 (conj H5 H6)))))|].
  exact (proj1 (proj2 (checksum_enforced Examples.backend Examples.disk0 Examples.bdisk1
                         Examples.bdisk_altered Examples.trace_id Examples.span_id
                         "gen_ai.prompt" (Examples.bytes "abc") (Examples.bytes "abd")
                         Examples.ref_abc H1 H2 H3 H4 H5 H6))).
Defined.

(** C6 as the code has it.  [Retrieve] compares the checksum of the
    bytes read with the checksum of the reference, whatever that is: for
    a reference whose checksum is empty it never returns bytes, and when
    the file can be read it returns the checksum-mismatch error. *)
Theorem empty_checksum_is_a_mismatch (f : FilesystemBackend.t)
    (fs : gmap (bool * list string) node) (ref : storage.Reference) :
  storage.Checksum ref = "" →
  (∀ data, FilesystemBackend.Retrieve f fs ref ≠ Ok data)
  ∧ (∀ data,
       fmt.Sscanf_s (storage.URI ref) "promptvault://fs/" ≠ None →
       os.ReadFile fs
         (filepath.Join [FilesystemBackend.basePath f;
                         string_drop (String.length "promptvault://fs/") (storage.URI ref)])
       = Ok data →
       FilesystemBackend.Retrieve f fs ref = Err (ErrChecksumMismatch "" (checksum_of data))).
Proof.
  intros Hc. unfold FilesystemBackend.Retrieve. rewrite Hc.
  destruct (fmt.Sscanf_s _ _) as [w|].
  - split.
    + intros data. destruct (os.ReadFile fs _) as [d|e]; [|done].
      destruct (String.eqb_spec (checksum_of d) "") as [E|_]; [|done].
      by apply checksum_of_nonempty in E.
    + intros data _ ->.
      destruct (String.eqb_spec (checksum_of data) "") as [E|_]; [|done].
      by apply checksum_of_nonempty in E.
  - split; [done|]. by intros data H.
Qed.

Lemma empty_checksum_is_a_mismatch_witness :
  storage.Checksum Examples.ref_legacy = ""
  ∧ ∀ data, FilesystemBackend.Retrieve Examples.backend Examples.bdisk1 Examples.ref_legacy
            ≠ Ok data.
Proof.
  split; [reflexivity|].
  exact (proj1 (empty_checksum_is_a_mismatch Examples.backend Examples.bdisk1
                  Examples.ref_legacy eq_refl)).
Defined.

(** Against C6 as stated.  A legacy reference to an object that is there, with the bytes it
    was stored with: [Retrieve] fails. *)
Lemma legacy_reference_rejected :
  storage.Checksum Examples.ref_legacy = ""
  ∧ os.ReadFile Examples.bdisk1 Examples.object_file = Ok (Examples.bytes "abc")
  ∧ FilesystemBackend.Retrieve Examples.backend Examples.bdisk1 Examples.ref_abc
    = Ok (Examples.bytes "abc")
  ∧ FilesystemBackend.Retrieve Examples.backend Examples.bdisk1 Examples.ref_legacy
    = Err (ErrChecksumMismatch ""
             "ba7816bf8f01cfea414140de5dae2223b00361a396177a9cb410ff61f20015ad").
Proof. repeat split; vm_compute; reflexivity. Qed.

(** C9 as the code has it.  A file that is on the disk reads the same
    after a [Store] of the vault of vault.go, whatever the store returns,
    and when the object file is there that store writes no file at all;
    after a [Store] of the backend of storage/filesystem.go it reads the
    same when it is not the file of that trace, span and key, and that
    file holds the payload of the store once it has succeeded. *)
Theorem stores_keep_other_files (v : FilesystemVault.t) (now : time.Time)
    (f : FilesystemBackend.t) (traceID spanID attrKey : string)
    (fs : gmap (bool * list string) node) (content : list byte) (name : string)
    (d : list byte) :
  os.ReadFile fs name = Ok d →
  (∀ fs' r, FilesystemVault.Store v now fs content = (fs', r) →
            os.ReadFile fs' name = Ok d
            ∧ (∀ info,
                 os.Stat fs
                   (filepath.Join
                      [filepath.Join [FilesystemVault.basePath v; time.Format now];
                       checksum_of content +:+ ".vault"]) = Ok info →
                 ∀ name' d', os.ReadFile fs' name' = Ok d' ↔ os.ReadFile fs name' = Ok d'))
  ∧ (∀ fs' r, FilesystemBackend.Store f fs traceID spanID attrKey content = (fs', r) →
              (os.resolve name
               ≠ os.resolve (filepath.Join [FilesystemBackend.basePath f; traceID; spanID; attrKey]) →
               os.ReadFile fs' name = Ok d)
              ∧ (∀ ref, r = Ok ref →
                        os.ReadFile fs'
                          (filepath.Join [FilesystemBackend.basePath f; traceID; spanID; attrKey])
                        = Ok content)).
Proof.
  intros Hr. split.
  - intros fs' r HS. split.
    + by apply (vault_Store_keeps_files v now fs fs' content r).
    + intros info Hs name' d'. by apply (vault_Store_dedup v now fs fs' content r info).
  - intros fs' r HS. unfold FilesystemBackend.Store in HS. cbv zeta in HS.
    destruct (os.MkdirAll fs _) as [fs1|e] eqn:Em.
    2:{ injection HS as <- <-. split; [done | by intros ref H]. }
    apply (MkdirAll_ReadFile _ _ _ name d Em) in Hr.
    destruct (os.WriteFile fs1 _ content) as [fs2|e] eqn:Ew.
    2:{ injection HS as <- <-. split; [done | by intros ref H]. }
    injection HS as <- <-. split.
    + intros Hne. by apply (ReadFile_WriteFile_other _ _ _ name content d Ew Hne).
    + intros ref _. by apply ReadFile_WriteFile in Ew.
Qed.

Lemma stores_keep_other_files_witness :
  os.ReadFile Examples.bdisk1 Examples.object_file = Ok (Examples.bytes "abc")
  ∧ os.ReadFile
      (FilesystemVault.Store Examples.vault Examples.now Examples.bdisk1 (Examples.bytes "xyz")).1
      Examples.object_file
    = Ok (Examples.bytes "abc").
Proof.
  assert (H : os.ReadFile Examples.bdisk1 Examples.object_file = Ok (Examples.bytes "abc")).
  { vm_compute. reflexivity. }
  split; [exact H|].
  exact (proj1 (proj1 (stores_keep_other_files Examples.vault Examples.now Examples.backend
                         Examples.trace_id Examples.span_id "gen_ai.prompt" Examples.bdisk1
                         (Examples.bytes "xyz") Examples.object_file (Examples.bytes "abc") H)
                  _ _ (surjective_pairing _))).
Defined.

(** Against C9 as stated.  A second store of the backend for the same attribute of the same
    span: the object stored first is there when it starts, its bytes are
    replaced, and its reference no longer resolves. *)
Lemma backend_store_overwrites :
  os.ReadFile Examples.bdisk1 Examples.object_file = Ok (Examples.bytes "abc")
  ∧ FilesystemBackend.Retrieve Examples.backend Examples.bdisk1 Examples.ref_abc
    = Ok (Examples.bytes "abc")
  ∧ os.ReadFile Examples.bdisk2 Examples.object_file = Ok (Examples.bytes "xyz")
  ∧ FilesystemBackend.Retrieve Examples.backend Examples.bdisk2 Examples.ref_abc
    = Err (ErrChecksumMismatch
             "ba7816bf8f01cfea414140de5dae2223b00361a396177a9cb410ff61f20015ad"
             "3608bca1e44ea6c4d268eb6db02260269892c0b42b86bbf1e77a6fa16c3c9282").
Proof. repeat split; vm_compute; reflexivity. Qed.

(** * Further properties of the component *)

(** ** The key set, the lifecycle and the first pass *)

Lemma keysSet_lookup (cfg : Config) (k : string) :
  keysSet (newVaultProcessor cfg) !! k
  = if bool_decide (k ∈ Keys (Vault cfg)) then Some true else None.
Proof.
  unfold newVaultProcessor. cbn [keysSet]. rewrite keysSet_fold. by rewrite lookup_empty.
Qed.

Lemma keysSet_gset (cfg : Config) :
  keysSet (newVaultProcessor cfg) = gset_to_gmap true (list_to_set (Keys (Vault cfg))).
Proof.
  apply map_eq. intros k. rewrite keysSet_lookup. symmetry. case_bool_decide as H.
  - apply lookup_gset_to_gmap_Some. split; [|done]. by apply elem_of_list_to_set.
  - apply lookup_gset_to_gmap_None. by rewrite elem_of_list_to_set.
Qed.

Lemma keysSet_size (cfg : Config) :
  size (keysSet (newVaultProcessor cfg)) = length (remove_dups (Keys (Vault cfg))).
Proof.
  rewrite keysSet_gset, <- (size_dom (D := gset string)), dom_gset_to_gmap.
  rewrite <- (size_list_to_set (C := gset string) (remove_dups (Keys (Vault cfg))))
    by apply NoDup_remove_dups.
  f_equal. apply set_eq. intros k. by rewrite !elem_of_list_to_set, elem_of_remove_dups.
Qed.

Lemma collect_ext (p p' : vaultProcessor) (attrs : list (string * pcommon.Value)) :
  (∀ k, inKeysSet p k = inKeysSet p' k) →
  SizeThreshold (Vault (config p)) = SizeThreshold (Vault (config p')) →
  collect p attrs = collect p' attrs.
Proof.
  intros Hk Ht. unfold collect. induction attrs as [|kv attrs IH]; [done|].
  cbn [omap list_omap]. by rewrite IH, Hk, Ht.
Qed.

(** X1.  The key set built by [newVaultProcessor] holds exactly the keys
    listed in the configuration: a key reads as eligible if and only if
    it is listed, and two configurations that list the same keys, in
    whatever order and however often, give the same key set and, with
    the same threshold, the same pending entries for every attribute
    map. *)
Theorem key_set_is_the_listed_keys (cfg cfg' : Config) :
  (∀ k, k ∈ Keys (Vault cfg) ↔ k ∈ Keys (Vault cfg')) →
  (∀ k, inKeysSet (newVaultProcessor cfg) k = true ↔ k ∈ Keys (Vault cfg))
  ∧ keysSet (newVaultProcessor cfg) = keysSet (newVaultProcessor cfg')
  ∧ (SizeThreshold (Vault cfg) = SizeThreshold (Vault cfg') →
     ∀ attrs, collect (newVaultProcessor cfg) attrs = collect (newVaultProcessor cfg') attrs).
Proof.
  intros Hsame.
  assert (Heq : keysSet (newVaultProcessor cfg) = keysSet (newVaultProcessor cfg')).
  { rewrite !keysSet_gset. f_equal. apply set_eq. intros k.
    by rewrite !elem_of_list_to_set. }
  split; [apply inKeysSet_new|]. split; [exact Heq|].
  intros Ht attrs. apply collect_ext; [|exact Ht].
  intros k. unfold inKeysSet. by rewrite Heq.
Qed.

Lemma key_set_is_the_listed_keys_witness :
  (∀ k, k ∈ Keys (Vault (Examples.policy ["gen_ai.prompt"; "gen_ai.completion"; "gen_ai.prompt"]
                           0 "remove"))
        ↔ k ∈ Keys (Vault (Examples.policy ["gen_ai.completion"; "gen_ai.prompt"] 0 "remove")))
  ∧ keysSet (newVaultProcessor
               (Examples.policy ["gen_ai.prompt"; "gen_ai.completion"; "gen_ai.prompt"] 0 "remove"))
    = keysSet (newVaultProcessor
                 (Examples.policy ["gen_ai.completion"; "gen_ai.prompt"] 0 "remove")).
Proof.
  assert (H : ∀ k, k ∈ Keys (Vault (Examples.policy
                                      ["gen_ai.prompt"; "gen_ai.completion"; "gen_ai.prompt"]
                                      0 "remove"))
                   ↔ k ∈ Keys (Vault (Examples.policy ["gen_ai.completion"; "gen_ai.prompt"]
                                        0 "remove"))).
  { intros k. cbn [Examples.policy Keys Vault]. rewrite !elem_of_cons, !elem_of_nil. tauto. }
  split; [exact H|].
  exact (proj1 (proj2 (key_set_is_the_listed_keys _ _ H))).
Defined.

(** X2.  [Start] returns no error, and the line it logs carries the
    mode and the backend of the configuration and, as [vault_keys], the
    number of distinct keys listed (a key listed twice counts once). *)
Theorem Start_logs_the_distinct_keys (cfg : Config) :
  Start (newVaultProcessor cfg)
  = ({| started_msg := "promptvault processor started";
        started_vault_keys := Z.of_nat (length (remove_dups (Keys (Vault cfg))));
        started_mode := Mode (Vault cfg);
        started_backend := Backend (Storage cfg) |},
     None).
Proof. unfold Start. by rewrite keysSet_size. Qed.

Lemma collect_nonpositive (p : vaultProcessor) (attrs : list (string * pcommon.Value)) :
  (SizeThreshold (Vault (config p)) ≤ 0)%Z →
  collect p attrs
  = (λ kv : string * pcommon.Value, {| key := kv.1; content := pcommon.Str kv.2 |})
      <$> filter (λ kv : string * pcommon.Value, inKeysSet p kv.1 = true) attrs.
Proof.
  intros Ht. unfold collect. induction attrs as [|kv attrs IH]; [done|].
  cbn [omap list_omap]. rewrite filter_cons.
  destruct (inKeysSet p kv.1) eqn:Ek; cbn [negb].
  - rewrite decide_True by done. rewrite fmap_cons, <- IH.
    replace (Z.of_nat (String.length (pcommon.Str kv.2)) <? SizeThreshold (Vault (config p)))%Z
      with false by (symmetry; apply Z.ltb_ge; lia).
    reflexivity.
  - rewrite decide_False by done. exact IH.
Qed.

(** X3.  With a size threshold of zero or less, the first pass of
    [vaultSpan] puts every attribute with a listed key on the pending
    list, in the order of the map, whatever its value: no value is too
    short, the empty string and non-string values (read as the empty
    string) included. *)
Theorem nonpositive_threshold_takes_every_listed_key (p : vaultProcessor)
    (attrs : list (string * pcommon.Value)) :
  (SizeThreshold (Vault (config p)) ≤ 0)%Z →
  collect p attrs
  = (λ kv : string * pcommon.Value, {| key := kv.1; content := pcommon.Str kv.2 |})
      <$> filter (λ kv : string * pcommon.Value, inKeysSet p kv.1 = true) attrs.
Proof. apply collect_nonpositive. Qed.

Lemma nonpositive_threshold_takes_every_listed_key_witness :
  (SizeThreshold (Vault (config (newVaultProcessor createDefaultConfig))) ≤ 0)%Z
  ∧ collect (newVaultProcessor createDefaultConfig)
      [("gen_ai.prompt", pcommon.ValueStr ""); ("http.method", pcommon.ValueStr "POST");
       ("gen_ai.completion", pcommon.ValueInt 7)]
    = (λ kv : string * pcommon.Value, {| key := kv.1; content := pcommon.Str kv.2 |})
        <$> filter (λ kv : string * pcommon.Value,
                      inKeysSet (newVaultProcessor createDefaultConfig) kv.1 = true)
              [("gen_ai.prompt", pcommon.ValueStr ""); ("http.method", pcommon.ValueStr "POST");
               ("gen_ai.completion", pcommon.ValueInt 7)].
Proof.
  assert (H : (SizeThreshold (Vault (config (newVaultProcessor createDefaultConfig))) ≤ 0)%Z).
  { cbn. lia. }
  split; [exact H|].
  exact (nonpositive_threshold_takes_every_listed_key (newVaultProcessor createDefaultConfig) _ H).
Defined.

(** ** The loops of [ConsumeTraces] *)

Section BatchFacts.
Context {V : Type}.
Variable store : V → list byte → V * result string error.

Lemma stored_app (l1 l2 : list vaultEntry) (st : V) :
  stored store (l1 ++ l2) st = stored store l2 (stored store l1 st).
Proof. apply fold_left_app. Qed.

Lemma offload_state (p : vaultProcessor) (toVault : list vaultEntry) :
  ∀ st attrs log, (offload store p toVault st attrs log).1.1 = stored store toVault st.
Proof.
  induction toVault as [|e rest IH]; intros st attrs log; [done|].
  cbn [offload]. unfold stored. cbn [fold_left].
  destruct (store st (list_byte_of_string (content e))) as [st' [ref|err]]; apply IH.
Qed.

Lemma offload_log_keys (p : vaultProcessor) (toVault : list vaultEntry) :
  ∀ st attrs log,
    log_key <$> (offload store p toVault st attrs log).2
    = (log_key <$> log) ++ (key <$> toVault).
Proof.
  induction toVault as [|e rest IH]; intros st attrs log.
  - cbn [offload snd fmap list_fmap]. by rewrite app_nil_r.
  - cbn [offload].
    destruct (store st (list_byte_of_string (content e))) as [st' [ref|err]];
      rewrite IH, fmap_app, <- app_assoc; reflexivity.
Qed.

Lemma vaultSpan_eq (p : vaultProcessor) (span : ptrace.Span) (st : V) (log : list LogEntry) :
  vaultSpan store p span st log
  = ((offload store p (collect p (ptrace.Attributes span)) st (ptrace.Attributes span) log).1.1,
     {| ptrace.TraceID := ptrace.TraceID span;
        ptrace.SpanID := ptrace.SpanID span;
        ptrace.SpanName := ptrace.SpanName span;
        ptrace.Attributes :=
          (offload store p (collect p (ptrace.Attributes span)) st
             (ptrace.Attributes span) log).1.2;
        ptrace.Events := ptrace.Events span |},
     (offload store p (collect p (ptrace.Attributes span)) st (ptrace.Attributes span) log).2).
Proof.
  unfold vaultSpan. cbv zeta.
  by destruct (offload store p _ st _ log) as [[st' attrs'] log'].
Qed.

Lemma vaultSpans_cons (p : vaultProcessor) (span : ptrace.Span) (rest : list ptrace.Span)
    (st : V) (log : list LogEntry) :
  vaultSpans store p (span :: rest) st log
  = ((vaultSpans store p rest (vaultSpan store p span st log).1.1
        (vaultSpan store p span st log).2).1.1,
     (vaultSpan store p span st log).1.2
     :: (vaultSpans store p rest (vaultSpan store p span st log).1.1
           (vaultSpan store p span st log).2).1.2,
     (vaultSpans store p rest (vaultSpan store p span st log).1.1
        (vaultSpan store p span st log).2).2).
Proof.
  cbn [vaultSpans]. destruct (vaultSpan store p span st log) as [[st1 span'] log1].
  cbn [fst snd]. by destruct (vaultSpans store p rest st1 log1) as [[st2 rest'] log2].
Qed.

Lemma vaultSpans_app (p : vaultProcessor) (l1 l2 : list ptrace.Span) :
  ∀ st log,
    vaultSpans store p (l1 ++ l2) st log
    = ((vaultSpans store p l2 (vaultSpans store p l1 st log).1.1
          (vaultSpans store p l1 st log).2).1.1,
       (vaultSpans store p l1 st log).1.2
       ++ (vaultSpans store p l2 (vaultSpans store p l1 st log).1.1
             (vaultSpans store p l1 st log).2).1.2,
       (vaultSpans store p l2 (vaultSpans store p l1 st log).1.1
          (vaultSpans store p l1 st log).2).2).
Proof.
  induction l1 as [|span l1 IH]; intros st log.
  - cbn [app vaultSpans fst snd]. by destruct (vaultSpans store p l2 st log) as [[? ?] ?].
  - rewrite <- app_comm_cons, !vaultSpans_cons, IH. reflexivity.
Qed.

(** The nested loops visit the spans of the batch as one loop over
    [spans_of] would. *)
Lemma vaultScopes_flat (p : vaultProcessor) (ilss : list ptrace.ScopeSpans) :
  ∀ st log,
    (vaultScopes store p ilss st log).1.1
    = (vaultSpans store p (flat_map ptrace.Spans ilss) st log).1.1
    ∧ flat_map ptrace.Spans (vaultScopes store p ilss st log).1.2
      = (vaultSpans store p (flat_map ptrace.Spans ilss) st log).1.2
    ∧ (vaultScopes store p ilss st log).2
      = (vaultSpans store p (flat_map ptrace.Spans ilss) st log).2.
Proof.
  induction ilss as [|ss rest IH]; intros st log; [done|].
  cbn [vaultScopes flat_map]. rewrite vaultSpans_app.
  destruct (vaultSpans store p (ptrace.Spans ss) st log) as [[st1 spans'] log1].
  destruct (IH st1 log1) as (H1 & H2 & H3).
  destruct (vaultScopes store p rest st1 log1) as [[st2 rest'] log2].
  cbn [fst snd flat_map ptrace.Spans] in *. by rewrite H1, H2, H3.
Qed.

Lemma vaultResources_flat (p : vaultProcessor) (rss : ptrace.Traces) :
  ∀ st log,
    (vaultResources store p rss st log).1.1
    = (vaultSpans store p (ptrace.spans_of rss) st log).1.1
    ∧ ptrace.spans_of (vaultResources store p rss st log).1.2
      = (vaultSpans store p (ptrace.spans_of rss) st log).1.2
    ∧ (vaultResources store p rss st log).2
      = (vaultSpans store p (ptrace.spans_of rss) st log).2.
Proof.
  induction rss as [|rs rest IH]; intros st log; [done|].
  unfold ptrace.spans_of in *. cbn [vaultResources flat_map]. rewrite vaultSpans_app.
  destruct (vaultScopes_flat p (ptrace.ScopeSpansOf rs) st log) as (G1 & G2 & G3).
  destruct (vaultScopes store p (ptrace.ScopeSpansOf rs) st log) as [[st1 ilss'] log1].
  cbn [fst snd] in G1, G2, G3. rewrite <- G1, <- G2, <- G3.
  destruct (IH st1 log1) as (H1 & H2 & H3).
  destruct (vaultResources store p rest st1 log1) as [[st2 rest'] log2].
  cbn [fst snd flat_map ptrace.ScopeSpansOf] in *. by rewrite H1, H2, H3.
Qed.

Lemma ConsumeTraces_flat (next : ptrace.Traces → option error) (p : vaultProcessor)
    (st : V) (td : ptrace.Traces) :
  vault_after (ConsumeTraces store next p st td)
  = (vaultSpans store p (ptrace.spans_of td) st []).1.1
  ∧ ptrace.spans_of (forwarded (ConsumeTraces store next p st td))
    = (vaultSpans store p (ptrace.spans_of td) st []).1.2
  ∧ logged (ConsumeTraces store next p st td)
    = (vaultSpans store p (ptrace.spans_of td) st []).2.
Proof.
  pose proof (vaultResources_flat p td st []) as H. unfold ConsumeTraces.
  by destruct (vaultResources store p td st []) as [[st' td'] log].
Qed.

Lemma vaultSpans_state (p : vaultProcessor) (spans : list ptrace.Span) :
  ∀ st log,
    (vaultSpans store p spans st log).1.1
    = stored store (flat_map (λ span, collect p (ptrace.Attributes span)) spans) st.
Proof.
  induction spans as [|span rest IH]; intros st log; [done|].
  rewrite vaultSpans_cons. cbn [fst snd flat_map]. rewrite IH, stored_app.
  by rewrite vaultSpan_eq, offload_state.
Qed.

Lemma vaultSpans_log_keys (p : vaultProcessor) (spans : list ptrace.Span) :
  ∀ st log,
    log_key <$> (vaultSpans store p spans st log).2
    = (log_key <$> log)
      ++ (key <$> flat_map (λ span, collect p (ptrace.Attributes span)) spans).
Proof.
  induction spans as [|span rest IH]; intros st log.
  - cbn [vaultSpans snd flat_map fmap list_fmap]. by rewrite app_nil_r.
  - rewrite vaultSpans_cons. cbn [fst snd flat_map]. rewrite IH.
    rewrite vaultSpan_eq. cbn [fst snd]. by rewrite offload_log_keys, fmap_app, app_assoc.
Qed.

(** The span at a place of the batch is handed on as [vaultSpan] leaves
    it, from the state the spans before it have left. *)
Lemma vaultSpans_lookup (p : vaultProcessor) (spans : list ptrace.Span) (i : nat)
    (span : ptrace.Span) (st : V) (log : list LogEntry) :
  spans !! i = Some span →
  (vaultSpans store p spans st log).1.2 !! i
  = Some (vaultSpan store p span
            (stored store
               (flat_map (λ span, collect p (ptrace.Attributes span)) (take i spans)) st)
            (vaultSpans store p (take i spans) st log).2).1.2
  ∧ (vaultSpans store p spans st log).1.1
    = stored store
        (flat_map (λ span, collect p (ptrace.Attributes span)) (drop (S i) spans))
        (vaultSpan store p span
           (stored store
              (flat_map (λ span, collect p (ptrace.Attributes span)) (take i spans)) st)
           (vaultSpans store p (take i spans) st log).2).1.1.
Proof.
  intros Hi.
  assert (Hlen : length (vaultSpans store p (take i spans) st log).1.2 = i).
  { assert (G : ∀ l s g, length (vaultSpans store p l s g).1.2 = length l).
    { induction l as [|x l IH]; intros s g; [done|].
      rewrite vaultSpans_cons. cbn [fst snd length]. by rewrite IH. }
    rewrite G, length_take. apply lookup_lt_Some in Hi. lia. }
  pose proof (take_drop_middle spans i span Hi) as Hsp.
  set (l1 := take i spans) in *. set (l2 := drop (S i) spans) in *.
  clearbody l1 l2. subst spans.
  rewrite vaultSpans_app, vaultSpans_cons. cbn [fst snd].
  rewrite <- (vaultSpans_state p l1 st log). split.
  - rewrite lookup_app_r by lia. rewrite Hlen, Nat.sub_diag. reflexivity.
  - by rewrite vaultSpans_state.
Qed.

Lemma vaultSpans_ident (p : vaultProcessor) (spans : list ptrace.Span) :
  ∀ st log, span_ident <$> (vaultSpans store p spans st log).1.2 = span_ident <$> spans.
Proof.
  induction spans as [|span rest IH]; intros st log; [done|].
  rewrite vaultSpans_cons. cbn [fst snd]. rewrite !fmap_cons, IH. f_equal.
  by rewrite vaultSpan_eq.
Qed.

Lemma vaultSpans_length (p : vaultProcessor) (spans : list ptrace.Span) :
  ∀ st log, length (vaultSpans store p spans st log).1.2 = length spans.
Proof.
  induction spans as [|x l IH]; intros s g; [done|].
  rewrite vaultSpans_cons. cbn [fst snd length]. by rewrite IH.
Qed.

Lemma vaultScopes_shape (p : vaultProcessor) (ilss : list ptrace.ScopeSpans) :
  ∀ st log,
    (λ ss, length (ptrace.Spans ss)) <$> (vaultScopes store p ilss st log).1.2
    = (λ ss, length (ptrace.Spans ss)) <$> ilss.
Proof.
  induction ilss as [|ss rest IH]; intros st log; [done|].
  cbn [vaultScopes]. pose proof (vaultSpans_length p (ptrace.Spans ss) st log) as Hl.
  destruct (vaultSpans store p (ptrace.Spans ss) st log) as [[st1 spans'] log1].
  specialize (IH st1 log1).
  destruct (vaultScopes store p rest st1 log1) as [[st2 rest'] log2].
  cbn [fst snd] in *. rewrite !fmap_cons. cbn [ptrace.Spans]. by rewrite Hl, IH.
Qed.

Lemma vaultResources_shape (p : vaultProcessor) (rss : ptrace.Traces) :
  ∀ st log, batch_shape (vaultResources store p rss st log).1.2 = batch_shape rss.
Proof.
  induction rss as [|rs rest IH]; intros st log; [done|].
  cbn [vaultResources]. pose proof (vaultScopes_shape p (ptrace.ScopeSpansOf rs) st log) as Hs.
  destruct (vaultScopes store p (ptrace.ScopeSpansOf rs) st log) as [[st1 ilss'] log1].
  specialize (IH st1 log1).
  destruct (vaultResources store p rest st1 log1) as [[st2 rest'] log2].
  cbn [fst snd] in *. unfold batch_shape in *. rewrite !fmap_cons.
  cbn [ptrace.ResourceAttributes ptrace.ScopeSpansOf]. by rewrite Hs, IH.
Qed.

Lemma offload_NoDup (p : vaultProcessor) (toVault : list vaultEntry) (st : V)
    (attrs : list (string * pcommon.Value)) (log : list LogEntry) :
  NoDup attrs.*1 → NoDup (offload store p toVault st attrs log).1.2.*1.
Proof.
  intros Hnd.
  apply (offload_preserves store p (λ _, True) (λ _, True)); [done | | done | done].
  by apply Forall_forall.
Qed.

Lemma rewrite_keys_replace (p : vaultProcessor) (attrs : list (string * pcommon.Value))
    (e : vaultEntry) (ref : string) :
  Mode (Vault (config p)) = "replace_with_ref" →
  attrs.*1 `prefix_of` (rewrite p attrs e ref).*1.
Proof.
  intros Hm. unfold rewrite. rewrite Hm. cbn [String.eqb Ascii.eqb Bool.eqb].
  rewrite !PutStr_keys.
  assert (G : ∀ (l : list string) k, l `prefix_of` (if bool_decide (k ∈ l) then l else l ++ [k])).
  { intros l k. case_bool_decide; [done | by apply prefix_app_r]. }
  etrans; [apply (G _ (key e))|]. apply G.
Qed.

Lemma offload_keys_replace (p : vaultProcessor) (toVault : list vaultEntry) :
  Mode (Vault (config p)) = "replace_with_ref" →
  ∀ st attrs log, attrs.*1 `prefix_of` (offload store p toVault st attrs log).1.2.*1.
Proof.
  intros Hm. induction toVault as [|e rest IH]; intros st attrs log; [done|].
  cbn [offload]. destruct (store st (list_byte_of_string (content e))) as [st' [ref|err]].
  - etrans; [|apply IH]. by apply rewrite_keys_replace.
  - apply IH.
Qed.

End BatchFacts.

(** X4.  Whatever the mode, and whether the calls succeed or fail,
    [ConsumeTraces] calls [Store] exactly once for each pending entry of
    the batch (the eligible attributes as they were received, span after
    span, in map order), threading the state of the vault through the
    calls in that order; and it logs exactly one line for each, under
    the key of the entry. *)
Theorem each_pending_entry_is_stored_once {V : Type}
    (store : V → list byte → V * result string error)
    (next : ptrace.Traces → option error) (p : vaultProcessor) (st : V) (td : ptrace.Traces) :
  vault_after (ConsumeTraces store next p st td) = stored store (pending p td) st
  ∧ log_key <$> logged (ConsumeTraces store next p st td) = key <$> pending p td.
Proof.
  destruct (ConsumeTraces_flat store next p st td) as (H1 & _ & H3).
  rewrite H1, H3. split.
  - apply vaultSpans_state.
  - by rewrite vaultSpans_log_keys.
Qed.

(** X5.  A batch none of whose span attributes has a listed key goes
    through untouched: no call to the vault, no log line, and the batch
    is handed to the next consumer as it was received, whose result is
    returned. *)
Theorem batch_without_listed_keys_passes_through {V : Type}
    (store : V → list byte → V * result string error)
    (next : ptrace.Traces → option error) (p : vaultProcessor) (st : V) (td : ptrace.Traces) :
  (∀ span kv, span ∈ ptrace.spans_of td → kv ∈ ptrace.Attributes span →
              inKeysSet p kv.1 = false) →
  ConsumeTraces store next p st td
  = {| vault_after := st; forwarded := td; logged := []; returned := next td |}.
Proof.
  intros Hno.
  assert (Hc : ∀ attrs, (∀ kv, kv ∈ attrs → inKeysSet p kv.1 = false) → collect p attrs = []).
  { intros attrs H. unfold collect. induction attrs as [|kv attrs IH]; [done|].
    cbn [omap list_omap]. rewrite (H kv) by apply list_elem_of_here. cbn [negb].
    apply IH. intros kv' Hin. apply H. by apply list_elem_of_further. }
  assert (Hspan : ∀ span s g, (∀ kv, kv ∈ ptrace.Attributes span → inKeysSet p kv.1 = false) →
                              vaultSpan store p span s g = (s, span, g)).
  { intros span s g H. rewrite vaultSpan_eq, (Hc _ H). cbn [offload fst snd]. by destruct span. }
  assert (Hspans : ∀ spans s g,
             (∀ span kv, span ∈ spans → kv ∈ ptrace.Attributes span → inKeysSet p kv.1 = false) →
             vaultSpans store p spans s g = (s, spans, g)).
  { induction spans as [|span rest IH]; intros s g H; [done|].
    cbn [vaultSpans]. rewrite Hspan by (intros kv; apply H, list_elem_of_here).
    rewrite IH; [done|]. intros span' kv Hin. apply H. by apply list_elem_of_further. }
  assert (Hscopes : ∀ ilss s g,
             (∀ span kv, span ∈ flat_map ptrace.Spans ilss → kv ∈ ptrace.Attributes span →
                         inKeysSet p kv.1 = false) →
             vaultScopes store p ilss s g = (s, ilss, g)).
  { induction ilss as [|ss rest IH]; intros s g H; [done|].
    cbn [vaultScopes]. cbn [flat_map] in H. rewrite Hspans.
    - rewrite IH; [by destruct ss|]. intros span kv Hin. apply H.
      apply elem_of_app. by right.
    - intros span kv Hin. apply H. apply elem_of_app. by left. }
  assert (Hres : ∀ rss s g,
             (∀ span kv, span ∈ ptrace.spans_of rss → kv ∈ ptrace.Attributes span →
                         inKeysSet p kv.1 = false) →
             vaultResources store p rss s g = (s, rss, g)).
  { induction rss as [|rs rest IH]; intros s g H; [done|].
    cbn [vaultResources]. unfold ptrace.spans_of in H. cbn [flat_map] in H. rewrite Hscopes.
    - rewrite IH; [by destruct rs|]. intros span kv Hin. apply H.
      apply elem_of_app. by right.
    - intros span kv Hin. apply H. apply elem_of_app. by left. }
  unfold ConsumeTraces. by rewrite Hres.
Qed.

Lemma batch_without_listed_keys_passes_through_witness :
  (∀ span kv,
     span ∈ ptrace.spans_of (Examples.batch_of Examples.span_with_event) →
     kv ∈ ptrace.Attributes span →
     inKeysSet (newVaultProcessor createDefaultConfig) kv.1 = false)
  ∧ ConsumeTraces Examples.failStore Examples.downstream
      (newVaultProcessor createDefaultConfig) tt (Examples.batch_of Examples.span_with_event)
    = {| vault_after := tt;
         forwarded := Examples.batch_of Examples.span_with_event;
         logged := [];
         returned := Examples.downstream (Examples.batch_of Examples.span_with_event) |}.
Proof.
  assert (H : ∀ span kv,
            span ∈ ptrace.spans_of (Examples.batch_of Examples.span_with_event) →
            kv ∈ ptrace.Attributes span →
            inKeysSet (newVaultProcessor createDefaultConfig) kv.1 = false).
  { intros span kv Hs Hkv. cbn in Hs. apply list_elem_of_singleton in Hs. subst span.
    cbn in Hkv. apply list_elem_of_singleton in Hkv. subst kv. vm_compute. reflexivity. }
  split; [exact H|].
  exact (batch_without_listed_keys_passes_through Examples.failStore Examples.downstream
           (newVaultProcessor createDefaultConfig) tt _ H).
Defined.

(** X6.  [ConsumeTraces] hands on a batch of the shape it received: the
    same resource spans with their resource attributes, the same number
    of spans in every scope, and every span with the trace id, span id
    and name it came with, in the same order. *)
Theorem batch_keeps_its_shape {V : Type}
    (store : V → list byte → V * result string error)
    (next : ptrace.Traces → option error) (p : vaultProcessor) (st : V) (td : ptrace.Traces) :
  batch_shape (forwarded (ConsumeTraces store next p st td)) = batch_shape td
  ∧ span_ident <$> ptrace.spans_of (forwarded (ConsumeTraces store next p st td))
    = span_ident <$> ptrace.spans_of td.
Proof.
  split.
  - pose proof (vaultResources_shape store p td st []) as H. unfold ConsumeTraces.
    by destruct (vaultResources store p td st []) as [[st' td'] log].
  - destruct (ConsumeTraces_flat store next p st td) as (_ & H2 & _).
    rewrite H2. apply vaultSpans_ident.
Qed.

(** X7.  Distinct keys stay distinct: when no span of the batch has two
    attributes of the same key, no span of the batch handed on has,
    whatever the mode and the vault. *)
Theorem attribute_keys_stay_distinct {V : Type}
    (store : V → list byte → V * result string error)
    (next : ptrace.Traces → option error) (p : vaultProcessor) (st : V) (td : ptrace.Traces) :
  Forall (λ span, NoDup (ptrace.Attributes span).*1) (ptrace.spans_of td) →
  Forall (λ span, NoDup (ptrace.Attributes span).*1)
    (ptrace.spans_of (forwarded (ConsumeTraces store next p st td))).
Proof.
  intros Hnd. destruct (ConsumeTraces_flat store next p st td) as (_ & H2 & _).
  rewrite H2. apply Forall_lookup. intros i span' Hi.
  assert (Hlt : (i < length (ptrace.spans_of td))%nat).
  { apply lookup_lt_Some in Hi. by rewrite vaultSpans_length in Hi. }
  destruct (lookup_lt_is_Some_2 _ _ Hlt) as [span Hspan].
  destruct (vaultSpans_lookup store p _ i span st [] Hspan) as [Hl _].
  rewrite Hl in Hi. injection Hi as <-.
  rewrite vaultSpan_attrs. apply offload_NoDup.
  exact (proj1 (Forall_lookup _ _) Hnd i span Hspan).
Qed.

Lemma attribute_keys_stay_distinct_witness :
  Forall (λ span, NoDup (ptrace.Attributes span).*1)
    (ptrace.spans_of (Examples.batch_of (Examples.span_of Examples.with_sibling [])))
  ∧ Forall (λ span, NoDup (ptrace.Attributes span).*1)
      (ptrace.spans_of
         (forwarded (ConsumeTraces Examples.memStore Examples.downstream
                       (newVaultProcessor createDefaultConfig) []
                       (Examples.batch_of (Examples.span_of Examples.with_sibling []))))).
Proof.
  assert (H : Forall (λ span, NoDup (ptrace.Attributes span).*1)
                (ptrace.spans_of (Examples.batch_of (Examples.span_of Examples.with_sibling [])))).
  { cbn. apply Forall_singleton. apply NoDup_cons. split.
    - rewrite list_elem_of_singleton. discriminate.
    - apply NoDup_singleton. }
  split; [exact H|].
  exact (attribute_keys_stay_distinct Examples.memStore Examples.downstream
           (newVaultProcessor createDefaultConfig) [] _ H).
Defined.

(** X8.  In [replace_with_ref] mode [vaultSpan] removes no attribute and
    moves none: the keys of the span as received are, in their order,
    the first keys of the span as it is left; what is added (the
    [.vault_ref] siblings that were not there) comes after them. *)
Theorem replace_mode_keeps_attributes_in_place {V : Type}
    (store : V → list byte → V * result string error)
    (p : vaultProcessor) (span : ptrace.Span) (st : V) (log : list LogEntry) :
  Mode (Vault (config p)) = "replace_with_ref" →
  (ptrace.Attributes span).*1
    `prefix_of` (ptrace.Attributes (vaultSpan store p span st log).1.2).*1.
Proof. intros Hm. rewrite vaultSpan_attrs. by apply offload_keys_replace. Qed.

Lemma replace_mode_keeps_attributes_in_place_witness :
  Mode (Vault (config (newVaultProcessor createDefaultConfig))) = "replace_with_ref"
  ∧ (ptrace.Attributes (Examples.span_of Examples.sensitive [])).*1
      `prefix_of`
      (ptrace.Attributes
         (vaultSpan Examples.memStore (newVaultProcessor createDefaultConfig)
            (Examples.span_of Examples.sensitive []) [] []).1.2).*1.
Proof.
  split; [reflexivity|].
  exact (replace_mode_keeps_attributes_in_place Examples.memStore
           (newVaultProcessor createDefaultConfig) (Examples.span_of Examples.sensitive [])
           [] [] eq_refl).
Defined.

(** ** What one pending entry leaves in the span *)

Lemma collect_keys_sublist (p : vaultProcessor) (attrs : list (string * pcommon.Value)) :
  key <$> collect p attrs `sublist_of` attrs.*1.
Proof.
  unfold collect. induction attrs as [|kv attrs IH]; [done|].
  cbn [omap list_omap]. rewrite fmap_cons.
  destruct (negb (inKeysSet p kv.1)); [by apply sublist_cons|].
  destruct (Z.of_nat (String.length (pcommon.Str kv.2)) <? SizeThreshold (Vault (config p)))%Z;
    [by apply sublist_cons|].
  cbn [mbind option_bind]. rewrite fmap_cons. cbn [key]. by apply sublist_skip.
Qed.

Lemma NoDup_collect (p : vaultProcessor) (attrs : list (string * pcommon.Value)) :
  NoDup attrs.*1 → NoDup (key <$> collect p attrs).
Proof. intros H. eapply sublist_NoDup; [exact H | apply collect_keys_sublist]. Qed.

Lemma sibling_inj (k k' : string) : k +:+ ".vault_ref" = k' +:+ ".vault_ref" → k = k'.
Proof.
  intros H. apply (append_inj_l _ _ ".vault_ref"); [|exact H].
  apply (f_equal String.length) in H. rewrite !length_append in H. lia.
Qed.

Lemma Get_rewrite_congr (p : vaultProcessor) (attrs attrs' : list (string * pcommon.Value))
    (e : vaultEntry) (ref K : string) :
  NoDup attrs.*1 → NoDup attrs'.*1 →
  pcommon.Get attrs K = pcommon.Get attrs' K →
  pcommon.Get (rewrite p attrs e ref) K = pcommon.Get (rewrite p attrs' e ref) K.
Proof.
  intros Hnd Hnd' HK. unfold rewrite.
  destruct (String.eqb (Mode (Vault (config p))) "replace_with_ref").
  - destruct (decide (key e +:+ ".vault_ref" = K)) as [<-|Hs]; [by rewrite !Get_PutStr_eq|].
    rewrite !(Get_PutStr_ne _ (key e +:+ ".vault_ref")) by done.
    destruct (decide (key e = K)) as [<-|Hk]; [by rewrite !Get_PutStr_eq|].
    by rewrite !Get_PutStr_ne.
  - destruct (String.eqb (Mode (Vault (config p))) "remove"); [|exact HK].
    destruct (decide (key e +:+ ".vault_ref" = K)) as [<-|Hs]; [by rewrite !Get_PutStr_eq|].
    rewrite !(Get_PutStr_ne _ (key e +:+ ".vault_ref")) by done.
    destruct (decide (key e = K)) as [<-|Hk]; [by rewrite !Get_Remove_eq|].
    by rewrite !Get_Remove_ne.
Qed.

Section EntryFacts.
Context {V : Type}.
Variable store : V → list byte → V * result string error.

Lemma offload_split (p : vaultProcessor) (l1 l2 : list vaultEntry) (e0 : vaultEntry)
    (st : V) (attrs : list (string * pcommon.Value)) (log : list LogEntry) :
  offload store p (l1 ++ e0 :: l2) st attrs log
  = match store (offload store p l1 st attrs log).1.1
            (list_byte_of_string (content e0)) with
    | (st', Err err) =>
        offload store p l2 st' (offload store p l1 st attrs log).1.2
          ((offload store p l1 st attrs log).2
           ++ [LogWarn "vault store failed" (key e0) err])
    | (st', Ok ref) =>
        offload store p l2 st' (rewrite p (offload store p l1 st attrs log).1.2 e0 ref)
          ((offload store p l1 st attrs log).2
           ++ [LogDebug "vaulted attribute" (key e0) ref
                 (Z.of_nat (String.length (content e0)))])
    end.
Proof. rewrite offload_app. cbv zeta. reflexivity. Qed.

Lemma offload_log_mono (p : vaultProcessor) (toVault : list vaultEntry) :
  ∀ st attrs log x, x ∈ log → x ∈ (offload store p toVault st attrs log).2.
Proof.
  induction toVault as [|e rest IH]; intros st attrs log x Hx; [done|].
  cbn [offload]. destruct (store st (list_byte_of_string (content e))) as [st' [ref|err]];
    apply IH, elem_of_app; by left.
Qed.

(** The entry [e0] of the pending list: the call made for it, from the
    state the entries before it have left, and what it leaves under a key
    that no other entry writes. *)
Lemma offload_entry (p : vaultProcessor) (toVault : list vaultEntry) (e0 : vaultEntry)
    (st : V) (attrs : list (string * pcommon.Value)) (log : list LogEntry) (K : string) :
  NoDup attrs.*1 → NoDup (key <$> toVault) → e0 ∈ toVault →
  Forall (λ e, key e ≠ key e0 → key e ≠ K ∧ key e +:+ ".vault_ref" ≠ K) toVault →
  ∃ l1 l2 st1 res,
    toVault = l1 ++ e0 :: l2
    ∧ store (stored store l1 st) (list_byte_of_string (content e0)) = (st1, res)
    ∧ (offload store p toVault st attrs log).1.1 = stored store l2 st1
    ∧ match res with
      | Ok ref =>
          pcommon.Get (offload store p toVault st attrs log).1.2 K
          = pcommon.Get (rewrite p attrs e0 ref) K
          ∧ LogDebug "vaulted attribute" (key e0) ref (Z.of_nat (String.length (content e0)))
              ∈ (offload store p toVault st attrs log).2
      | Err err =>
          pcommon.Get (offload store p toVault st attrs log).1.2 K = pcommon.Get attrs K
          ∧ LogWarn "vault store failed" (key e0) err
              ∈ (offload store p toVault st attrs log).2
      end.
Proof.
  intros Hnd Hkeys Hin HK.
  apply list_elem_of_split in Hin as (l1 & l2 & ->).
  rewrite fmap_app, fmap_cons in Hkeys.
  apply NoDup_app in Hkeys as (_ & Hl1 & Hl2). apply NoDup_cons in Hl2 as [Hl2 _].
  apply Forall_app in HK as [HK1 HK2]. apply Forall_cons in HK2 as [_ HK2].
  assert (F1 : Forall (λ e, key e ≠ K ∧ key e +:+ ".vault_ref" ≠ K) l1).
  { apply Forall_forall. intros e He. apply (proj1 (Forall_forall _ _) HK1 e He).
    intros Heq. apply (Hl1 (key e0)); [|apply list_elem_of_here].
    rewrite <- Heq. by apply list_elem_of_fmap_2. }
  assert (F2 : Forall (λ e, key e ≠ K ∧ key e +:+ ".vault_ref" ≠ K) l2).
  { apply Forall_forall. intros e He. apply (proj1 (Forall_forall _ _) HK2 e He).
    intros Heq. apply Hl2. rewrite <- Heq. by apply list_elem_of_fmap_2. }
  pose proof (offload_state store p l1 st attrs log) as Hst.
  pose proof (offload_NoDup store p l1 st attrs log Hnd) as Hnd1.
  pose proof (offload_frame store p K l1 st attrs log Hnd F1) as Hf1.
  exists l1, l2. rewrite <- Hst.
  destruct (store (offload store p l1 st attrs log).1.1 (list_byte_of_string (content e0)))
    as [st1 res] eqn:Es.
  exists st1, res. split; [done|]. split; [done|].
  rewrite offload_split, Es. destruct res as [ref|err].
  - split; [apply offload_state|]. split.
    + rewrite offload_frame; [|by apply NoDup_rewrite | exact F2].
      apply Get_rewrite_congr; done.
    + apply offload_log_mono, elem_of_app. right. apply list_elem_of_here.
  - split; [apply offload_state|]. split.
    + rewrite offload_frame; done.
    + apply offload_log_mono, elem_of_app. right. apply list_elem_of_here.
Qed.

(** The same, for an attribute of the span that is eligible. *)
Lemma vaultSpan_entry (p : vaultProcessor) (span : ptrace.Span) (k : string)
    (v : pcommon.Value) (st : V) (log : list LogEntry) (K : string) :
  NoDup (ptrace.Attributes span).*1 →
  (k, v) ∈ ptrace.Attributes span →
  inKeysSet p k = true →
  (SizeThreshold (Vault (config p)) ≤ Z.of_nat (String.length (pcommon.Str v)))%Z →
  Forall (λ e, key e ≠ k → key e ≠ K ∧ key e +:+ ".vault_ref" ≠ K)
    (collect p (ptrace.Attributes span)) →
  ∃ l1 l2 st1 res,
    collect p (ptrace.Attributes span)
    = l1 ++ {| key := k; content := pcommon.Str v |} :: l2
    ∧ store (stored store l1 st) (list_byte_of_string (pcommon.Str v)) = (st1, res)
    ∧ (vaultSpan store p span st log).1.1 = stored store l2 st1
    ∧ match res with
      | Ok ref =>
          pcommon.Get (ptrace.Attributes (vaultSpan store p span st log).1.2) K
          = pcommon.Get
              (rewrite p (ptrace.Attributes span) {| key := k; content := pcommon.Str v |} ref)
              K
          ∧ LogDebug "vaulted attribute" k ref (Z.of_nat (String.length (pcommon.Str v)))
              ∈ (vaultSpan store p span st log).2
      | Err err =>
          pcommon.Get (ptrace.Attributes (vaultSpan store p span st log).1.2) K
          = pcommon.Get (ptrace.Attributes span) K
          ∧ LogWarn "vault store failed" k err ∈ (vaultSpan store p span st log).2
      end.
Proof.
  intros Hnd Hin Hk Ht HK.
  assert (He : {| key := k; content := pcommon.Str v |} ∈ collect p (ptrace.Attributes span)).
  { apply elem_of_collect. by exists (k, v). }
  destruct (offload_entry p _ _ st (ptrace.Attributes span) log K Hnd
              (NoDup_collect p _ Hnd) He HK) as (l1 & l2 & st1 & res & H1 & H2 & H3 & H4).
  exists l1, l2, st1, res. rewrite vaultSpan_eq. cbn [fst snd ptrace.Attributes].
  done.
Qed.

End EntryFacts.

Lemma Get_rewrite_sibling (p : vaultProcessor) (attrs : list (string * pcommon.Value))
    (e : vaultEntry) (ref : string) :
  Mode (Vault (config p)) = "replace_with_ref" ∨ Mode (Vault (config p)) = "remove" →
  pcommon.Get (rewrite p attrs e ref) (key e +:+ ".vault_ref") = Some (pcommon.ValueStr ref).
Proof.
  intros [Hm|Hm]; unfold rewrite; rewrite Hm; cbn [String.eqb Ascii.eqb Bool.eqb];
    apply Get_PutStr_eq.
Qed.

Lemma Get_rewrite_value (p : vaultProcessor) (attrs : list (string * pcommon.Value))
    (e : vaultEntry) (ref : string) :
  Mode (Vault (config p)) = "replace_with_ref" →
  pcommon.Get (rewrite p attrs e ref) (key e) = Some (pcommon.ValueStr ref).
Proof.
  intros Hm. unfold rewrite. rewrite Hm. cbn [String.eqb Ascii.eqb Bool.eqb].
  rewrite Get_PutStr_ne by apply sibling_ne. apply Get_PutStr_eq.
Qed.

Lemma Forall_value_key (l : list vaultEntry) (k : string) :
  Forall (λ e, key e +:+ ".vault_ref" ≠ k) l →
  Forall (λ e, key e ≠ k → key e ≠ k ∧ key e +:+ ".vault_ref" ≠ k) l.
Proof. intros HF. eapply Forall_impl; [exact HF|]. intros e H Hne. done. Qed.

Lemma Forall_sibling_key (l : list vaultEntry) (k : string) :
  Forall (λ e, key e ≠ k +:+ ".vault_ref") l →
  Forall (λ e, key e ≠ k → key e ≠ k +:+ ".vault_ref"
                           ∧ key e +:+ ".vault_ref" ≠ k +:+ ".vault_ref") l.
Proof.
  intros HF. eapply Forall_impl; [exact HF|].
  intros e H Hne. split; [done|]. intros Heq. by apply sibling_inj in Heq.
Qed.

(** X9.  [replace_with_ref] mode, for a vault whose reference is a
    function [ref_of] of the payload (as [vault://] with the checksum
    is): an eligible attribute of a span with distinct keys, once the
    call for its value succeeds, holds the reference of its own value,
    and so does its sibling [k.vault_ref]; the first unless [k] is itself
    the sibling key of a pending entry, the second unless [k.vault_ref]
    is itself the key of a pending entry. *)
Theorem replace_mode_writes_the_reference_twice {V : Type}
    (store : V → list byte → V * result string error) (ref_of : list byte → string)
    (p : vaultProcessor) (span : ptrace.Span) (k : string) (v : pcommon.Value)
    (st : V) (log : list LogEntry) :
  Mode (Vault (config p)) = "replace_with_ref" →
  NoDup (ptrace.Attributes span).*1 →
  (k, v) ∈ ptrace.Attributes span →
  inKeysSet p k = true →
  (SizeThreshold (Vault (config p)) ≤ Z.of_nat (String.length (pcommon.Str v)))%Z →
  (∀ s c s' r, store s c = (s', Ok r) → r = ref_of c) →
  (∀ s, ∃ s' r, store s (list_byte_of_string (pcommon.Str v)) = (s', Ok r)) →
  (Forall (λ e, key e +:+ ".vault_ref" ≠ k) (collect p (ptrace.Attributes span)) →
   pcommon.Get (ptrace.Attributes (vaultSpan store p span st log).1.2) k
   = Some (pcommon.ValueStr (ref_of (list_byte_of_string (pcommon.Str v)))))
  ∧ (Forall (λ e, key e ≠ k +:+ ".vault_ref") (collect p (ptrace.Attributes span)) →
     pcommon.Get (ptrace.Attributes (vaultSpan store p span st log).1.2) (k +:+ ".vault_ref")
     = Some (pcommon.ValueStr (ref_of (list_byte_of_string (pcommon.Str v))))).
Proof.
  intros Hm Hnd Hin Hk Ht Href Hok. split; intros HF.
  - destruct (vaultSpan_entry store p span k v st log k Hnd Hin Hk Ht
                (Forall_value_key _ _ HF)) as (l1 & l2 & st1 & res & _ & Hs & _ & Hres).
    destruct res as [ref|err].
    + destruct Hres as [-> _]. rewrite (Href _ _ _ _ Hs).
      by apply (Get_rewrite_value p _ {| key := k; content := pcommon.Str v |}).
    + destruct (Hok (stored store l1 st)) as (s' & r & Hs'). congruence.
  - destruct (vaultSpan_entry store p span k v st log (k +:+ ".vault_ref") Hnd Hin Hk Ht
                (Forall_sibling_key _ _ HF)) as (l1 & l2 & st1 & res & _ & Hs & _ & Hres).
    destruct res as [ref|err].
    + destruct Hres as [-> _]. rewrite (Href _ _ _ _ Hs).
      apply (Get_rewrite_sibling p _ {| key := k; content := pcommon.Str v |}). by left.
    + destruct (Hok (stored store l1 st)) as (s' & r & Hs'). congruence.
Qed.

Lemma replace_mode_writes_the_reference_twice_witness :
  (Mode (Vault (config (newVaultProcessor createDefaultConfig))) = "replace_with_ref"
   ∧ NoDup (ptrace.Attributes (Examples.span_of Examples.sensitive [])).*1
   ∧ ("gen_ai.input.messages", pcommon.ValueStr "hello world, this is sensitive")
       ∈ ptrace.Attributes (Examples.span_of Examples.sensitive [])
   ∧ inKeysSet (newVaultProcessor createDefaultConfig) "gen_ai.input.messages" = true
   ∧ (SizeThreshold (Vault (config (newVaultProcessor createDefaultConfig)))
      ≤ Z.of_nat (String.length
                    (pcommon.Str (pcommon.ValueStr "hello world, this is sensitive"))))%Z
   ∧ (∀ s c s' r, Examples.memStore s c = (s', Ok r) → r = "vault://" +:+ checksum_of c)
   ∧ (∀ s, ∃ s' r, Examples.memStore s
                     (list_byte_of_string
                        (pcommon.Str (pcommon.ValueStr "hello world, this is sensitive")))
                   = (s', Ok r))
   ∧ Forall (λ e, key e +:+ ".vault_ref" ≠ "gen_ai.input.messages")
       (collect (newVaultProcessor createDefaultConfig)
          (ptrace.Attributes (Examples.span_of Examples.sensitive []))))
  ∧ pcommon.Get
      (ptrace.Attributes
         (vaultSpan Examples.memStore (newVaultProcessor createDefaultConfig)
            (Examples.span_of Examples.sensitive []) [] []).1.2)
      "gen_ai.input.messages"
    = Some (pcommon.ValueStr
              ("vault://"
               +:+ checksum_of
                     (list_byte_of_string
                        (pcommon.Str (pcommon.ValueStr "hello world, this is sensitive"))))).
Proof.
  assert (H1 : Mode (Vault (config (newVaultProcessor createDefaultConfig)))
               = "replace_with_ref") by reflexivity.
  assert (H2 : NoDup (ptrace.Attributes (Examples.span_of Examples.sensitive [])).*1).
  { simpl. apply NoDup_singleton. }
  assert (H3 : ("gen_ai.input.messages", pcommon.ValueStr "hello world, this is sensitive")
                 ∈ ptrace.Attributes (Examples.span_of Examples.sensitive [])).
  { apply list_elem_of_here. }
  assert (H4 : inKeysSet (newVaultProcessor createDefaultConfig) "gen_ai.input.messages"
               = true).
  { vm_compute. reflexivity. }
  assert (H5 : (SizeThreshold (Vault (config (newVaultProcessor createDefaultConfig)))
                ≤ Z.of_nat (String.length
                              (pcommon.Str
                                 (pcommon.ValueStr "hello world, this is sensitive"))))%Z).
  { vm_compute. discriminate. }
  assert (H6 : ∀ s c s' r, Examples.memStore s c = (s', Ok r) → r = "vault://" +:+ checksum_of c).
  { intros s c s' r H. unfold Examples.memStore in H. congruence. }
  assert (H7 : ∀ s, ∃ s' r,
               Examples.memStore s
                 (list_byte_of_string
                    (pcommon.Str (pcommon.ValueStr "hello world, this is sensitive")))
               = (s', Ok r)).
  { intros s. eexists _, _. reflexivity. }
  assert (H8 : Forall (λ e, key e +:+ ".vault_ref" ≠ "gen_ai.input.messages")
                 (collect (newVaultProcessor createDefaultConfig)
                    (ptrace.Attributes (Examples.span_of Examples.sensitive [])))).
  { vm_compute. repeat constructor; discriminate. }
  split; [exact (conj H1 (conj H2 (conj H3 (conj H4 (conj H5 (conj H6 (conj H7 H8)))))))|].
  exact (proj1 (replace_mode_writes_the_reference_twice Examples.memStore
                  (λ c, "vault://" +:+ checksum_of c)
                  (newVaultProcessor createDefaultConfig)
                  (Examples.span_of Examples.sensitive []) "gen_ai.input.messages"
                  (pcommon.ValueStr "hello world, this is sensitive") [] []
                  H1 H2 H3 H4 H5 H6 H7) H8).
Defined.

(** X10.  [remove] mode, for a vault whose reference is a function
    [ref_of] of the payload: an eligible attribute of a span with
    distinct keys, once the call for its value succeeds, is gone from
    the span, and its sibling [k.vault_ref] holds the reference of its
    value; the first unless [k] is itself the sibling key of a pending
    entry, the second unless [k.vault_ref] is itself the key of a pending
    entry. *)
Theorem remove_mode_leaves_only_the_reference {V : Type}
    (store : V → list byte → V * result string error) (ref_of : list byte → string)
    (p : vaultProcessor) (span : ptrace.Span) (k : string) (v : pcommon.Value)
    (st : V) (log : list LogEntry) :
  Mode (Vault (config p)) = "remove" →
  NoDup (ptrace.Attributes span).*1 →
  (k, v) ∈ ptrace.Attributes span →
  inKeysSet p k = true →
  (SizeThreshold (Vault (config p)) ≤ Z.of_nat (String.length (pcommon.Str v)))%Z →
  (∀ s c s' r, store s c = (s', Ok r) → r = ref_of c) →
  (∀ s, ∃ s' r, store s (list_byte_of_string (pcommon.Str v)) = (s', Ok r)) →
  (Forall (λ e, key e +:+ ".vault_ref" ≠ k) (collect p (ptrace.Attributes span)) →
   pcommon.Get (ptrace.Attributes (vaultSpan store p span st log).1.2) k = None)
  ∧ (Forall (λ e, key e ≠ k +:+ ".vault_ref") (collect p (ptrace.Attributes span)) →
     pcommon.Get (ptrace.Attributes (vaultSpan store p span st log).1.2) (k +:+ ".vault_ref")
     = Some (pcommon.ValueStr (ref_of (list_byte_of_string (pcommon.Str v))))).
Proof.
  intros Hm Hnd Hin Hk Ht Href Hok. split; intros HF.
  - destruct (vaultSpan_entry store p span k v st log k Hnd Hin Hk Ht
                (Forall_value_key _ _ HF)) as (l1 & l2 & st1 & res & _ & Hs & _ & Hres).
    destruct res as [ref|err].
    + destruct Hres as [-> _].
      rewrite (Get_rewrite_remove p _ {| key := k; content := pcommon.Str v |} ref k Hm Hnd)
        by apply sibling_ne.
      cbn [key]. by rewrite decide_True.
    + destruct (Hok (stored store l1 st)) as (s' & r & Hs'). congruence.
  - destruct (vaultSpan_entry store p span k v st log (k +:+ ".vault_ref") Hnd Hin Hk Ht
                (Forall_sibling_key _ _ HF)) as (l1 & l2 & st1 & res & _ & Hs & _ & Hres).
    destruct res as [ref|err].
    + destruct Hres as [-> _]. rewrite (Href _ _ _ _ Hs).
      apply (Get_rewrite_sibling p _ {| key := k; content := pcommon.Str v |}). by right.
    + destruct (Hok (stored store l1 st)) as (s' & r & Hs'). congruence.
Qed.

Lemma remove_mode_leaves_only_the_reference_witness :
  (Mode (Vault (config (newVaultProcessor
                          (Examples.policy ["gen_ai.prompt"] 0 "remove")))) = "remove"
   ∧ NoDup (ptrace.Attributes
              (Examples.span_of
                 [("gen_ai.prompt", pcommon.ValueStr "sensitive content here")] [])).*1
   ∧ ("gen_ai.prompt", pcommon.ValueStr "sensitive content here")
       ∈ ptrace.Attributes
           (Examples.span_of [("gen_ai.prompt", pcommon.ValueStr "sensitive content here")] [])
   ∧ inKeysSet (newVaultProcessor (Examples.policy ["gen_ai.prompt"] 0 "remove"))
       "gen_ai.prompt" = true
   ∧ (SizeThreshold (Vault (config (newVaultProcessor
                                      (Examples.policy ["gen_ai.prompt"] 0 "remove"))))
      ≤ Z.of_nat (String.length (pcommon.Str (pcommon.ValueStr "sensitive content here"))))%Z
   ∧ (∀ s c s' r, Examples.memStore s c = (s', Ok r) → r = "vault://" +:+ checksum_of c)
   ∧ (∀ s, ∃ s' r, Examples.memStore s
                     (list_byte_of_string
                        (pcommon.Str (pcommon.ValueStr "sensitive content here")))
                   = (s', Ok r))
   ∧ Forall (λ e, key e ≠ "gen_ai.prompt" +:+ ".vault_ref")
       (collect (newVaultProcessor (Examples.policy ["gen_ai.prompt"] 0 "remove"))
          (ptrace.Attributes
             (Examples.span_of
                [("gen_ai.prompt", pcommon.ValueStr "sensitive content here")] []))))
  ∧ pcommon.Get
      (ptrace.Attributes
         (vaultSpan Examples.memStore
            (newVaultProcessor (Examples.policy ["gen_ai.prompt"] 0 "remove"))
            (Examples.span_of [("gen_ai.prompt", pcommon.ValueStr "sensitive content here")] [])
            [] []).1.2)
      ("gen_ai.prompt" +:+ ".vault_ref")
    = Some (pcommon.ValueStr
              ("vault://"
               +:+ checksum_of
                     (list_byte_of_string
                        (pcommon.Str (pcommon.ValueStr "sensitive content here"))))).
Proof.
  assert (H1 : Mode (Vault (config (newVaultProcessor
                                      (Examples.policy ["gen_ai.prompt"] 0 "remove"))))
               = "remove") by reflexivity.
  assert (H2 : NoDup (ptrace.Attributes
                        (Examples.span_of
                           [("gen_ai.prompt", pcommon.ValueStr "sensitive content here")]
                           [])).*1).
  { simpl. apply NoDup_singleton. }
  assert (H3 : ("gen_ai.prompt", pcommon.ValueStr "sensitive content here")
                 ∈ ptrace.Attributes
                     (Examples.span_of
                        [("gen_ai.prompt", pcommon.ValueStr "sensitive content here")] [])).
  { apply list_elem_of_here. }
  assert (H4 : inKeysSet (newVaultProcessor (Examples.policy ["gen_ai.prompt"] 0 "remove"))
                 "gen_ai.prompt" = true).
  { vm_compute. reflexivity. }
  assert (H5 : (SizeThreshold (Vault (config (newVaultProcessor
                                                (Examples.policy ["gen_ai.prompt"] 0 "remove"))))
                ≤ Z.of_nat (String.length
                              (pcommon.Str (pcommon.ValueStr "sensitive content here"))))%Z).
  { vm_compute. discriminate. }
  assert (H6 : ∀ s c s' r, Examples.memStore s c = (s', Ok r) → r = "vault://" +:+ checksum_of c).
  { intros s c s' r H. unfold Examples.memStore in H. congruence. }
  assert (H7 : ∀ s, ∃ s' r,
               Examples.memStore s
                 (list_byte_of_string (pcommon.Str (pcommon.ValueStr "sensitive content here")))
               = (s', Ok r)).
  { intros s. eexists _, _. reflexivity. }
  assert (H8 : Forall (λ e, key e ≠ "gen_ai.prompt" +:+ ".vault_ref")
                 (collect (newVaultProcessor (Examples.policy ["gen_ai.prompt"] 0 "remove"))
                    (ptrace.Attributes
                       (Examples.span_of
                          [("gen_ai.prompt", pcommon.ValueStr "sensitive content here")] [])))).
  { vm_compute. repeat constructor; discriminate. }
  split; [exact (conj H1 (conj H2 (conj H3 (conj H4 (conj H5 (conj H6 (conj H7 H8)))))))|].
  exact (proj2 (remove_mode_leaves_only_the_reference Examples.memStore
                  (λ c, "vault://" +:+ checksum_of c)
                  (newVaultProcessor (Examples.policy ["gen_ai.prompt"] 0 "remove"))
                  (Examples.span_of
                     [("gen_ai.prompt", pcommon.ValueStr "sensitive content here")] [])
                  "gen_ai.prompt" (pcommon.ValueStr "sensitive content here") [] []
                  H1 H2 H3 H4 H5 H6 H7) H8).
Defined.

(** ** Directories: what [MkdirAll] does and when it fails *)

Lemma lookup_path_insert_ne (fs : gmap (bool * list string) node) (p q : bool * list string)
    (n : node) :
  p ≠ q → os.lookup_path (<[p := n]> fs) q = os.lookup_path fs q.
Proof.
  intros H. unfold os.lookup_path. destruct (os.implicit_dir q); [done|].
  by rewrite lookup_insert_ne.
Qed.

Lemma prefix_key_ne (rooted : bool) (pre rest : list string) (c : string) (i : nat) :
  (0 < i ≤ length rest)%nat →
  (rooted, pre ++ [c]) ≠ (rooted, (pre ++ [c]) ++ take i rest).
Proof.
  intros Hi [= H]. apply (f_equal length) in H.
  rewrite !length_app, length_take in H. simpl in H. lia.
Qed.

(** Over directories that are there, [MkdirAll] changes nothing. *)
Lemma mkdirs_existing (rooted : bool) (rest : list string) :
  ∀ pre fs,
    (∀ i, (0 < i ≤ length rest)%nat →
          os.lookup_path fs (rooted, pre ++ take i rest) = Some Directory) →
    os.mkdirs rooted pre rest fs = Ok fs.
Proof.
  induction rest as [|c rest IH]; intros pre fs H; [done|].
  cbn [os.mkdirs]. pose proof (H 1%nat ltac:(simpl; lia)) as H1. cbn [take] in H1.
  rewrite take_0 in H1. rewrite H1. apply IH. intros i Hi.
  rewrite <- app_assoc. apply (H (S i)). simpl. lia.
Qed.

(** A regular file on the way makes it fail. *)
Lemma mkdirs_blocked (rooted : bool) (rest : list string) :
  ∀ pre fs i c,
    (0 < i ≤ length rest)%nat →
    os.lookup_path fs (rooted, pre ++ take i rest) = Some (File c) →
    os.mkdirs rooted pre rest fs = Err ENOTDIR.
Proof.
  induction rest as [|x rest IH]; intros pre fs i c Hi Hf; [simpl in Hi; lia|].
  cbn [os.mkdirs]. destruct i as [|i]; [lia|]. cbn [take] in Hf.
  destruct i as [|i].
  - rewrite take_0 in Hf. by rewrite Hf.
  - assert (Hi' : (0 < S i ≤ length rest)%nat) by (simpl in Hi; lia).
    replace (pre ++ x :: take (S i) rest) with ((pre ++ [x]) ++ take (S i) rest) in Hf
      by by rewrite <- app_assoc.
    destruct (os.lookup_path fs (rooted, pre ++ [x])) as [[d|]|] eqn:E; [done| |].
    + by apply (IH _ _ (S i) c).
    + apply (IH _ _ (S i) c); [done|].
      rewrite lookup_path_insert_ne; [done|]. by apply prefix_key_ne.
Qed.

(** With no regular file on the way it succeeds. *)
Lemma mkdirs_total (rooted : bool) (rest : list string) :
  ∀ pre fs,
    (∀ i c, (0 < i ≤ length rest)%nat →
            os.lookup_path fs (rooted, pre ++ take i rest) ≠ Some (File c)) →
    ∃ fs', os.mkdirs rooted pre rest fs = Ok fs'.
Proof.
  induction rest as [|x rest IH]; intros pre fs H; [by exists fs|].
  cbn [os.mkdirs].
  assert (Hnext : ∀ fs0,
             (∀ i, (0 < i ≤ length rest)%nat →
                   os.lookup_path fs0 (rooted, (pre ++ [x]) ++ take i rest)
                   = os.lookup_path fs (rooted, (pre ++ [x]) ++ take i rest)) →
             ∃ fs', os.mkdirs rooted (pre ++ [x]) rest fs0 = Ok fs').
  { intros fs0 Hsame. apply IH. intros i c Hi. rewrite Hsame by done.
    rewrite <- app_assoc. apply (H (S i)). simpl. lia. }
  destruct (os.lookup_path fs (rooted, pre ++ [x])) as [[d|]|] eqn:E.
  - exfalso. apply (H 1%nat d); [simpl; lia|]. cbn [take]. by rewrite take_0.
  - by apply Hnext.
  - apply Hnext. intros i Hi. apply lookup_path_insert_ne. by apply prefix_key_ne.
Qed.

Lemma MkdirAll_monotone (fs fs' : gmap (bool * list string) node) (path : string)
    (q : bool * list string) (n : node) :
  os.MkdirAll fs path = Ok fs' → os.lookup_path fs q = Some n → os.lookup_path fs' q = Some n.
Proof.
  intros Hm. unfold os.lookup_path. destruct (os.implicit_dir q); [done|]. intros Hq.
  destruct (MkdirAll_lookup _ _ _ q Hm) as [->|[Hn _]]; [done | congruence].
Qed.

Lemma MkdirAll_idem (fs fs' : gmap (bool * list string) node) (path : string) :
  os.MkdirAll fs path = Ok fs' → os.MkdirAll fs' path = Ok fs'.
Proof.
  intros Hm. pose proof Hm as Hm'. unfold os.MkdirAll in Hm' |- *.
  destruct (os.resolve path) as [[r cs]|] eqn:Er; [|done]. cbn [fst snd] in *.
  apply mkdirs_existing. intros i Hi. cbn [app].
  apply (MkdirAll_dirs _ _ _ _ _ Hm Er). lia.
Qed.

Lemma MkdirAll_Stat (fs fs' : gmap (bool * list string) node) (path : string) :
  os.MkdirAll fs path = Ok fs' →
  path ≠ "" ∧ ∃ info, os.Stat fs' path = Ok info ∧ IsDir info = true.
Proof.
  intros Hm. pose proof Hm as Hm'. unfold os.MkdirAll in Hm'.
  destruct (os.resolve path) as [[r cs]|] eqn:Er; [|done].
  split; [by apply resolve_Some in Er as [? _]|].
  exists (os.info_of (r, cs) Directory). split; [|done].
  apply Lstat_Ok. exists (r, cs), Directory. split; [done|]. split; [|done].
  pose proof (MkdirAll_dirs _ _ _ _ _ Hm Er (length cs) ltac:(lia)) as H.
  by rewrite firstn_all in H.
Qed.

Lemma MkdirAll_file (fs : gmap (bool * list string) node) (path : string) (c : list byte) :
  os.ReadFile fs path = Ok c → os.MkdirAll fs path = Err ENOTDIR.
Proof.
  intros (p & Hp & Hi & Hf)%ReadFile_Ok. unfold os.MkdirAll. rewrite Hp.
  destruct p.2 as [|x rest] eqn:E.
  - destruct p as [r cs]. simpl in E. subst cs. by cbv in Hi.
  - rewrite <- E. apply (mkdirs_blocked _ _ _ _ (length p.2) c).
    + rewrite E. simpl. lia.
    + cbn [app]. rewrite firstn_all. apply lookup_path_File. split; [|by destruct p].
      by destruct p.
Qed.

(** X11.  [NewFilesystemVault] and [NewFilesystemBackend], when they
    succeed: the store returned has the base path asked for, which is
    not empty and is a directory on the disk they leave; no regular file
    has been created, removed or changed; and a second call with the
    same path, on the disk the first has left, succeeds and changes
    nothing. *)
Theorem constructors_make_the_base_directory (fs fs' : gmap (bool * list string) node)
    (basePath : string) :
  (∀ v, FilesystemVault.NewFilesystemVault fs basePath = (fs', Ok v) →
        FilesystemVault.basePath v = basePath
        ∧ basePath ≠ ""
        ∧ (∃ info, os.Stat fs' basePath = Ok info ∧ IsDir info = true)
        ∧ (∀ name d, os.ReadFile fs' name = Ok d ↔ os.ReadFile fs name = Ok d)
        ∧ FilesystemVault.NewFilesystemVault fs' basePath = (fs', Ok v))
  ∧ (∀ f, FilesystemBackend.NewFilesystemBackend fs basePath = (fs', Ok f) →
          FilesystemBackend.basePath f = basePath
          ∧ basePath ≠ ""
          ∧ (∃ info, os.Stat fs' basePath = Ok info ∧ IsDir info = true)
          ∧ (∀ name d, os.ReadFile fs' name = Ok d ↔ os.ReadFile fs name = Ok d)
          ∧ FilesystemBackend.NewFilesystemBackend fs' basePath = (fs', Ok f)).
Proof.
  split.
  - intros v. unfold FilesystemVault.NewFilesystemVault.
    destruct (os.MkdirAll fs basePath) as [fs1|e] eqn:Em; [|done].
    intros [= <- <-]. destruct (MkdirAll_Stat _ _ _ Em) as [Hne Hst].
    split; [done|]. split; [done|]. split; [done|]. split.
    + intros name d. by apply MkdirAll_ReadFile with (path := basePath).
    + by rewrite (MkdirAll_idem _ _ _ Em).
  - intros f. unfold FilesystemBackend.NewFilesystemBackend.
    destruct (os.MkdirAll fs basePath) as [fs1|e] eqn:Em; [|done].
    intros [= <- <-]. destruct (MkdirAll_Stat _ _ _ Em) as [Hne Hst].
    split; [done|]. split; [done|]. split; [done|]. split.
    + intros name d. by apply MkdirAll_ReadFile with (path := basePath).
    + by rewrite (MkdirAll_idem _ _ _ Em).
Qed.

Lemma constructors_make_the_base_directory_witness :
  FilesystemVault.NewFilesystemVault Examples.disk0 "/data/vault"
  = ((FilesystemVault.NewFilesystemVault Examples.disk0 "/data/vault").1, Ok Examples.vault)
  ∧ ∃ info,
      os.Stat (FilesystemVault.NewFilesystemVault Examples.disk0 "/data/vault").1 "/data/vault"
      = Ok info
      ∧ IsDir info = true.
Proof.
  assert (H : FilesystemVault.NewFilesystemVault Examples.disk0 "/data/vault"
              = ((FilesystemVault.NewFilesystemVault Examples.disk0 "/data/vault").1,
                 Ok Examples.vault)).
  { apply pair_eta_snd. vm_compute. reflexivity. }
  split; [exact H|].
  exact (proj1 (proj2 (proj2 (proj1 (constructors_make_the_base_directory
                                       Examples.disk0 _ "/data/vault") Examples.vault H)))).
Defined.

(** X12.  [NewFilesystemVault] and [NewFilesystemBackend] fail, with
    their own message around the error of [os.MkdirAll], return no store
    and leave the disk as it is, when the base path is empty (no such
    file or directory) and when a regular file is at the base path (not
    a directory). *)
Theorem constructors_fail_on_an_unusable_base_path (fs : gmap (bool * list string) node)
    (basePath : string) :
  (basePath = "" →
   FilesystemVault.NewFilesystemVault fs basePath = (fs, Err (ErrCreateVaultDir ENOENT))
   ∧ FilesystemBackend.NewFilesystemBackend fs basePath
     = (fs, Err (ErrCreateVaultDirectory ENOENT)))
  ∧ (∀ c, os.ReadFile fs basePath = Ok c →
          FilesystemVault.NewFilesystemVault fs basePath = (fs, Err (ErrCreateVaultDir ENOTDIR))
          ∧ FilesystemBackend.NewFilesystemBackend fs basePath
            = (fs, Err (ErrCreateVaultDirectory ENOTDIR))).
Proof.
  split.
  - intros ->. done.
  - intros c Hc. unfold FilesystemVault.NewFilesystemVault,
      FilesystemBackend.NewFilesystemBackend.
    by rewrite (MkdirAll_file _ _ _ Hc).
Qed.

Lemma constructors_fail_on_an_unusable_base_path_witness :
  os.ReadFile Examples.bdisk1 Examples.object_file = Ok (Examples.bytes "abc")
  ∧ FilesystemVault.NewFilesystemVault Examples.bdisk1 Examples.object_file
    = (Examples.bdisk1, Err (ErrCreateVaultDir ENOTDIR)).
Proof.
  assert (H : os.ReadFile Examples.bdisk1 Examples.object_file = Ok (Examples.bytes "abc")).
  { vm_compute. reflexivity. }
  split; [exact H|].
  exact (proj1 (proj2 (constructors_fail_on_an_unusable_base_path Examples.bdisk1
                         Examples.object_file) _ H)).
Defined.

(** ** The vault of vault.go: what [Store] leaves and what [Retrieve] finds *)

Lemma hex_digit_lower (n : N) : is_lower_hex (hex.digit n) = true.
Proof.
  unfold hex.digit.
  destruct (N.to_nat n) as [|[|[|[|[|[|[|[|[|[|[|[|[|[|[|[|m]]]]]]]]]]]]]]]]; try reflexivity.
  by destruct m as [|[|m]].
Qed.

Lemma EncodeToString_lower (bs : list byte) :
  forallb is_lower_hex (list_ascii_of_string (hex.EncodeToString bs)) = true.
Proof.
  induction bs as [|b bs IH]; [done|].
  cbn [hex.EncodeToString list_ascii_of_string forallb].
  by rewrite !hex_digit_lower, IH.
Qed.

Lemma hexHash_of_ref (h : string) : h ≠ "" → FilesystemVault.hexHash_of ("vault://" +:+ h) = h.
Proof.
  intros Hh. unfold FilesystemVault.hexHash_of.
  rewrite length_append.
  replace (string_take 8 ("vault://" +:+ h)) with "vault://"
    by (symmetry; apply (string_take_app "vault://")).
  replace (string_drop 8 ("vault://" +:+ h)) with h
    by (symmetry; apply (string_drop_app "vault://")).
  destruct h as [|c h]; [done|]. reflexivity.
Qed.

Lemma hexHash_of_bare (h : string) :
  string_take 8 h ≠ "vault://" → FilesystemVault.hexHash_of h = h.
Proof.
  intros Hh. unfold FilesystemVault.hexHash_of.
  destruct (String.eqb_spec (string_take 8 h) "vault://") as [E|_]; [done|].
  by rewrite andb_false_r.
Qed.

(** [Store] adds to the disk and takes nothing away: what is at a path
    stays there, directory or file, with its bytes. *)
Lemma Store_monotone (v : FilesystemVault.t) (now : time.Time)
    (fs fs' : gmap (bool * list string) node) (content : list byte)
    (r : result string error) (q : bool * list string) (n : node) :
  FilesystemVault.Store v now fs content = (fs', r) →
  os.lookup_path fs q = Some n → os.lookup_path fs' q = Some n.
Proof.
  unfold FilesystemVault.Store. cbv zeta. intros HS Hq.
  destruct (os.MkdirAll fs _) as [fs1|e] eqn:Em; [|by injection HS as <- _].
  apply (MkdirAll_monotone _ _ _ _ _ Em) in Hq.
  destruct (os.Stat fs1 _) as [info|e] eqn:Es; [by injection HS as <- _|].
  destruct (os.WriteFile fs1 _ content) as [fs2|e'] eqn:Ew; [|by injection HS as <- _].
  injection HS as <- _.
  apply WriteFile_Ok in Ew as (T & HrT & HiT & _ & ->).
  rewrite lookup_path_insert_ne; [done|]. intros <-.
  unfold os.lookup_path in Hq. rewrite HiT in Hq.
  rewrite (Stat_Err _ _ _ _ Es HrT) in Hq. discriminate Hq.
Qed.

(** The regular files after a [Store] are those before it and, at most,
    one more that holds the payload. *)
Lemma Store_files (v : FilesystemVault.t) (now : time.Time)
    (fs fs' : gmap (bool * list string) node) (content : list byte)
    (r : result string error) (q : bool * list string) (c : list byte) :
  FilesystemVault.basePath v ≠ "" →
  FilesystemVault.Store v now fs content = (fs', r) →
  fs' !! q = Some (File c) →
  fs !! q = Some (File c)
  ∨ (c = content
     ∧ length q.2 = (length (filepath.normal (FilesystemVault.basePath v)).2 + 4)%nat).
Proof.
  intros Hb. destruct (vault_paths v now content Hb) as (y & m & d & Hn & Hsuf & Hdir & HT).
  unfold FilesystemVault.Store. cbv zeta. intros HS Hq.
  destruct (os.MkdirAll fs _) as [fs1|e] eqn:Em; [|injection HS as <- _; by left].
  destruct (os.Stat fs1 _) as [info|e] eqn:Es.
  { injection HS as <- _. left. by apply (MkdirAll_files _ _ _ q c Em). }
  destruct (os.WriteFile fs1 _ content) as [fs2|e'] eqn:Ew.
  2:{ injection HS as <- _. left. by apply (MkdirAll_files _ _ _ q c Em). }
  injection HS as <- _.
  apply WriteFile_Ok in Ew as (T & HrT & HiT & _ & ->).
  destruct (decide (T = q)) as [<-|Hne].
  - right. rewrite lookup_insert_eq in Hq. injection Hq as <-. split; [done|].
    rewrite HT in HrT. injection HrT as <-. cbn [snd]. by rewrite length_app.
  - left. rewrite lookup_insert_ne in Hq by done. by apply (MkdirAll_files _ _ _ q c Em).
Qed.

Lemma holds_mono (v : FilesystemVault.t) (fs fs' : gmap (bool * list string) node)
    (h : string) :
  (∀ q n, os.lookup_path fs q = Some n → os.lookup_path fs' q = Some n) →
  FilesystemVault.holds v fs h → FilesystemVault.holds v fs' h.
Proof.
  intros Hmono (y & m & d & c & Hn & Hd & Hf). exists y, m, d, c.
  split; [done|]. split; [by intros i Hi; apply Hmono, Hd|].
  apply lookup_path_File, Hmono, lookup_path_File. split; [|done].
  apply implicit_dir_names; done.
Qed.

(** After a successful [Store], in a vault kept as its stores keep it,
    the object is in the vault directory. *)
Lemma Store_holds (v : FilesystemVault.t) (now : time.Time)
    (fs fs' : gmap (bool * list string) node) (content : list byte) (ref : string) :
  FilesystemVault.basePath v ≠ "" →
  FilesystemVault.content_addressed fs v = true →
  FilesystemVault.Store v now fs content = (fs', Ok ref) →
  ref = "vault://" +:+ checksum_of content
  ∧ FilesystemVault.holds v fs' (checksum_of content).
Proof.
  intros Hb Hca HS.
  pose proof (Store_content_addressed v now fs fs' content (Ok ref) Hb Hca HS) as Hca'.
  destruct (vault_paths v now content Hb) as (y & m & d & Hn & Hsuf & Hdir & HT).
  unfold FilesystemVault.Store in HS. cbv zeta in HS.
  destruct (os.MkdirAll fs _) as [fs1|e] eqn:Em; [|done].
  set (p0 := filepath.normal (FilesystemVault.basePath v)) in *.
  assert (Hd1 : ∀ i, (i ≤ 3)%nat →
                     os.lookup_path fs1 (p0.1, p0.2 ++ take i [y; m; d]) = Some Directory).
  { intros i Hi. rewrite <- take_app_add.
    apply (MkdirAll_dirs _ _ _ _ _ Em Hdir). rewrite length_app. simpl. lia. }
  assert (Hnames : Forall (λ n, os.entry_name n = true)
                     [y; m; d; checksum_of content +:+ ".vault"]).
  { apply Forall_app with (l1 := [y; m; d]) (l2 := [checksum_of content +:+ ".vault"]).
    split; [done|]. apply Forall_singleton, object_name_ok. }
  assert (HuT : FilesystemVault.under p0
                  (p0.1, p0.2 ++ [y; m; d; checksum_of content +:+ ".vault"]) = true).
  { apply under_spec. cbn [fst snd]. split; [done|]. split; [by apply prefix_app_r|].
    intros H. apply (f_equal length) in H. rewrite length_app in H. simpl in H. lia. }
  assert (HbT : os.base_name (p0.1, p0.2 ++ [y; m; d; checksum_of content +:+ ".vault"])
                = checksum_of content +:+ ".vault").
  { change [y; m; d; checksum_of content +:+ ".vault"]
      with ([y; m; d] ++ [checksum_of content +:+ ".vault"]).
    rewrite app_assoc. apply base_name_snoc. }
  destruct (os.Stat fs1 _) as [info|e] eqn:Es.
  - injection HS as <- <-. split; [done|]. unfold os.Stat in Es.
    apply Lstat_Ok in Es as (T & nT & HrT & HlT & _).
    assert (HTeq : T = (p0.1, p0.2 ++ [y; m; d; checksum_of content +:+ ".vault"]))
      by congruence.
    subst T. unfold os.lookup_path in HlT.
    rewrite (implicit_dir_names _ _ [y; m; d; checksum_of content +:+ ".vault"]) in HlT by done.
    cbv iota in HlT.
    assert (HnT : ∃ cT, nT = File cT).
    { pose proof (content_addressed_spec fs1 v _ nT Hca' HlT HuT) as Hok.
      unfold FilesystemVault.object_ok in Hok. rewrite HbT, has_suffix_app in Hok.
      destruct nT as [cT|]; [by exists cT | done]. }
    destruct HnT as [cT ->]. by exists y, m, d, cT.
  - destruct (os.WriteFile fs1 _ content) as [fs2|e'] eqn:Ew; [|done].
    injection HS as <- <-. split; [done|].
    apply WriteFile_Ok in Ew as (T & HrT & HiT & _ & ->).
    assert (HTeq : T = (p0.1, p0.2 ++ [y; m; d; checksum_of content +:+ ".vault"]))
      by congruence.
    subst T. exists y, m, d, content. split; [done|]. split.
    + intros i Hi. rewrite lookup_path_insert_ne; [by apply Hd1|].
      intros [= H]. apply app_inv_head in H.
      apply (f_equal length) in H. rewrite length_take in H. simpl in H. lia.
    + by rewrite lookup_insert_eq.
Qed.

(** What the walk of [Retrieve] selects, and what [Retrieve] returns
    then. *)
Lemma Retrieve_find (v : FilesystemVault.t) (fs : gmap (bool * list string) node)
    (ref : string) :
  match List.find
          (fun pi : string * FileInfo =>
             negb (IsDir pi.2)
             && String.eqb (Name pi.2) (FilesystemVault.hexHash_of ref +:+ ".vault"))
          (os.Walk fs (FilesystemVault.basePath v)) with
  | None => FilesystemVault.Retrieve v fs ref = Err (ErrVaultRefNotFound ref)
  | Some _ =>
      ∃ d q, FilesystemVault.Retrieve v fs ref = Ok d
             ∧ fs !! q = Some (File d)
             ∧ os.implicit_dir q = false
             ∧ os.base_name q = FilesystemVault.hexHash_of ref +:+ ".vault"
             ∧ q.1 = (filepath.normal (FilesystemVault.basePath v)).1
             ∧ (filepath.normal (FilesystemVault.basePath v)).2 `prefix_of` q.2
  end.
Proof.
  unfold FilesystemVault.Retrieve. cbv zeta. fold (FilesystemVault.hexHash_of ref).
  destruct (find _ (os.Walk fs (FilesystemVault.basePath v))) as [[s' fi']|] eqn:Ef; [|done].
  apply find_some in Ef as [Hin HP]. cbn [fst snd] in HP |- *.
  apply andb_prop in HP as [Hnd Hnm]. apply negb_true_iff in Hnd.
  apply String.eqb_eq in Hnm.
  unfold os.Walk in Hin.
  destruct (os.Lstat fs (FilesystemVault.basePath v)) as [info|e] eqn:El; [|by destruct Hin].
  pose proof El as El'. apply Lstat_Ok in El' as (p0 & n0 & Hr0 & _ & _).
  pose proof (walk_sound _ _ _ _ _ _ Hin El) as Hls'.
  apply Lstat_Ok in Hls' as (q & nq & Hrq & Hlq & ->).
  destruct (walk_under _ _ _ _ _ _ _ Hin Hr0) as (q' & Hrq' & Hq1 & Hq2).
  rewrite Hrq in Hrq'. injection Hrq' as <-.
  destruct nq as [c'|]; [|done].
  apply lookup_path_File in Hlq as [Hiq Hfq].
  apply resolve_Some in Hr0 as [_ ->].
  exists c', q. split.
  - destruct (String.eqb_spec s' "") as [->|_]; [done|].
    assert (Hread : os.ReadFile fs s' = Ok c') by (apply ReadFile_Ok; by exists q).
    by rewrite Hread.
  - done.
Qed.

Lemma Retrieve_cases (v : FilesystemVault.t) (fs : gmap (bool * list string) node)
    (ref : string) :
  FilesystemVault.Retrieve v fs ref = Err (ErrVaultRefNotFound ref)
  ∨ ∃ d q, FilesystemVault.Retrieve v fs ref = Ok d
           ∧ fs !! q = Some (File d)
           ∧ os.implicit_dir q = false
           ∧ os.base_name q = FilesystemVault.hexHash_of ref +:+ ".vault"
           ∧ q.1 = (filepath.normal (FilesystemVault.basePath v)).1
           ∧ (filepath.normal (FilesystemVault.basePath v)).2 `prefix_of` q.2.
Proof.
  pose proof (Retrieve_find v fs ref) as H.
  destruct (find _ (os.Walk fs (FilesystemVault.basePath v))); [by right | by left].
Qed.

(** An object that is in the vault directory is found, or another file
    of its name is. *)
Lemma Retrieve_holds (v : FilesystemVault.t) (fs : gmap (bool * list string) node)
    (h : string) :
  FilesystemVault.basePath v ≠ "" → h ≠ "" →
  FilesystemVault.holds v fs h →
  ∃ d q, FilesystemVault.Retrieve v fs ("vault://" +:+ h) = Ok d
         ∧ fs !! q = Some (File d)
         ∧ os.base_name q = h +:+ ".vault"
         ∧ FilesystemVault.under (filepath.normal (FilesystemVault.basePath v)) q = true.
Proof.
  intros Hb Hh (y & m & d & cT & Hn & Hdirs & HT).
  set (p0 := filepath.normal (FilesystemVault.basePath v)) in *.
  set (name := h +:+ ".vault") in *.
  assert (Hr0 : os.resolve (FilesystemVault.basePath v) = Some p0) by by apply resolve_nonempty.
  assert (Hd0 : os.lookup_path fs p0 = Some Directory).
  { specialize (Hdirs 0%nat ltac:(lia)). rewrite take_0, app_nil_r in Hdirs.
    by replace (p0.1, p0.2) with p0 in Hdirs by by destruct p0. }
  assert (Hl0 : os.Lstat fs (FilesystemVault.basePath v) = Ok (os.info_of p0 Directory)).
  { apply Lstat_Ok. by exists p0, Directory. }
  pose proof (Retrieve_find v fs ("vault://" +:+ h)) as HF.
  rewrite (hexHash_of_ref h Hh) in HF. fold name in HF.
  destruct (find _ (os.Walk fs (FilesystemVault.basePath v))) as [pi|] eqn:Ef.
  - destruct HF as (c & q & HR & Hq & Hiq & Hbn & Hq1 & Hq2).
    exists c, q. split; [done|]. split; [done|]. split; [done|].
    apply under_spec. split; [done|]. split; [done|].
    intros Heq. assert (q = p0) as -> by (by apply injective_projections).
    unfold os.lookup_path in Hd0. rewrite Hiq in Hd0. congruence.
  - exfalso. unfold os.Walk in Ef. rewrite Hl0 in Ef.
    destruct (walk_complete fs [y; m; d; name] (S (os.depth fs))
                (FilesystemVault.basePath v) _ p0 Hr0 Hl0) as (s & fi & Hin & Hs).
    { pose proof (depth_bound _ _ _ HT) as Hd. simpl in Hd. rewrite length_app in Hd.
      simpl in *. lia. }
    { done. }
    { intros i Hi. simpl in Hi.
      replace (take i [y; m; d; name]) with (take i [y; m; d]).
      - apply Hdirs. lia.
      - by destruct i as [|[|[|[|i]]]]; [..|lia]. }
    { right. by rewrite HT. }
    pose proof (walk_sound _ _ _ _ _ _ Hin Hl0) as Hls.
    apply Lstat_Ok in Hls as (T & nT & HrT & HlT & ->).
    rewrite Hs in HrT. injection HrT as <-.
    assert (HnT : nT = File cT).
    { unfold os.lookup_path in HlT.
      rewrite (implicit_dir_names _ _ [y; m; d; name]) in HlT by done.
      cbv iota in HlT. enough (Some nT = Some (File cT)) by congruence.
      rewrite <- HlT. exact HT. }
    subst nT. eapply find_none in Ef; [|exact Hin].
    assert (HP : negb (IsDir (os.info_of (p0.1, p0.2 ++ [y; m; d; name]) (File cT)))
                 && String.eqb (Name (os.info_of (p0.1, p0.2 ++ [y; m; d; name]) (File cT)))
                      name = true).
    { unfold os.info_of, os.base_name. cbn [IsDir Name fst snd negb andb].
      change [y; m; d; name] with ([y; m; d] ++ [name]).
      rewrite app_assoc, last_last. apply String.eqb_refl. }
    exact (eq_true_false_abs _ HP Ef).
Qed.

(** What [Retrieve] returns from a vault kept as its stores keep it has
    the hash asked for. *)
Lemma Retrieve_checksum (v : FilesystemVault.t) (fs : gmap (bool * list string) node)
    (q : bool * list string) (d : list byte) (h : string) :
  FilesystemVault.content_addressed fs v = true →
  fs !! q = Some (File d) →
  FilesystemVault.under (filepath.normal (FilesystemVault.basePath v)) q = true →
  os.base_name q = h +:+ ".vault" →
  checksum_of d = h.
Proof.
  intros Hca Hq Hu Hname.
  pose proof (content_addressed_spec fs v q (File d) Hca Hq Hu) as Hok.
  unfold FilesystemVault.object_ok in Hok.
  rewrite Hname, has_suffix_app in Hok. apply String.eqb_eq in Hok.
  assert (Hlen : String.length h = 64%nat).
  { apply (f_equal String.length) in Hok. rewrite !length_append, checksum_of_length in Hok.
    lia. }
  symmetry. apply (append_inj_l _ _ ".vault"); [|done].
  by rewrite checksum_of_length.
Qed.

Lemma kept_spec (fs : gmap (bool * list string) node) (v : FilesystemVault.t) :
  FilesystemVault.kept fs v = true ↔
  FilesystemVault.content_addressed fs v = true
  ∧ (∀ i, (i ≤ length (filepath.normal (FilesystemVault.basePath v)).2)%nat →
          os.lookup_path fs ((filepath.normal (FilesystemVault.basePath v)).1,
                             take i (filepath.normal (FilesystemVault.basePath v)).2)
          = Some Directory)
  ∧ (∀ q c, fs !! q = Some (File c) →
            FilesystemVault.under (filepath.normal (FilesystemVault.basePath v)) q = true →
            length q.2 = (length (filepath.normal (FilesystemVault.basePath v)).2 + 4)%nat).
Proof.
  unfold FilesystemVault.kept. rewrite !andb_true_iff, !forallb_forall.
  split.
  - intros [[H1 H2] H3]. split; [done|]. split.
    + intros i Hi. specialize (H2 i). rewrite in_seq in H2.
      specialize (H2 ltac:(lia)).
      by destruct (os.lookup_path fs _) as [[?|]|].
    + intros q c Hq Hu. specialize (H3 (q, File c)). cbn [fst snd] in H3.
      rewrite Hu in H3. cbn [negb orb] in H3. apply Nat.eqb_eq, H3.
      by apply list_elem_of_In, elem_of_map_to_list.
  - intros (H1 & H2 & H3). split; [split; [done|]|].
    + intros i Hi%in_seq. rewrite H2; [done | lia].
    + intros [q [c|]] Hin%list_elem_of_In%elem_of_map_to_list; [|done]. cbn [fst snd].
      destruct (FilesystemVault.under _ q) eqn:Hu; [|done]. cbn [negb orb].
      apply Nat.eqb_eq. by apply (H3 q c).
Qed.

Lemma fresh_spec (fs : gmap (bool * list string) node) (base : string) :
  FilesystemVault.fresh fs base = true ↔
  ∀ q n, fs !! q = Some n → FilesystemVault.under (filepath.normal base) q = false.
Proof.
  unfold FilesystemVault.fresh. rewrite forallb_forall. split.
  - intros H q n Hq. apply negb_true_iff. apply (H (q, n)).
    by apply list_elem_of_In, elem_of_map_to_list.
  - intros H [q n] Hin%list_elem_of_In%elem_of_map_to_list. cbn [fst].
    apply negb_true_iff. by apply (H q n).
Qed.

Lemma WriteFile_child (fs : gmap (bool * list string) node) (r : bool) (cs : list string)
    (n name : string) (data : list byte) :
  os.resolve name = Some (r, cs ++ [n]) → os.entry_name n = true →
  os.lookup_path fs (r, cs) = Some Directory →
  fs !! (r, cs ++ [n]) ≠ Some Directory →
  os.WriteFile fs name data = Ok (<[(r, cs ++ [n]) := File data]> fs).
Proof.
  intros Hr Hn Hp Hf. unfold os.WriteFile. rewrite Hr, implicit_dir_child by done.
  unfold os.parent. cbn [fst snd]. rewrite removelast_last, Hp.
  by destruct (fs !! (r, cs ++ [n])) as [[?|]|].
Qed.

(** On a vault directory kept as its stores keep it, [Store] succeeds. *)
Lemma Store_total (v : FilesystemVault.t) (now : time.Time)
    (fs : gmap (bool * list string) node) (content : list byte) :
  FilesystemVault.basePath v ≠ "" →
  FilesystemVault.kept fs v = true →
  ∃ fs', FilesystemVault.Store v now fs content
         = (fs', Ok ("vault://" +:+ checksum_of content)).
Proof.
  intros Hb (Hca & Hbase & Hdepth)%kept_spec.
  destruct (vault_paths v now content Hb) as (y & m & d & Hn & Hsuf & Hdir & HT).
  set (p0 := filepath.normal (FilesystemVault.basePath v)) in *.
  assert (Hm : ∃ fs1, os.MkdirAll fs
                        (filepath.Join [FilesystemVault.basePath v; time.Format now])
                      = Ok fs1).
  { unfold os.MkdirAll. rewrite Hdir. cbn [fst snd]. apply mkdirs_total.
    intros i c Hi Hf. cbn [app] in Hf. rewrite take_app in Hf.
    destruct (decide (i ≤ length p0.2)%nat) as [Hle|Hgt].
    - replace (i - length p0.2)%nat with 0%nat in Hf by lia.
      rewrite take_0, app_nil_r, (Hbase i Hle) in Hf. discriminate Hf.
    - rewrite take_ge in Hf by lia.
      apply lookup_path_File in Hf as [_ Hf].
      rewrite length_app in Hi. change (length [y; m; d]) with 3%nat in Hi.
      assert (Hlen : length (take (i - length p0.2) [y; m; d]) = (i - length p0.2)%nat).
      { rewrite length_take. change (length [y; m; d]) with 3%nat. lia. }
      assert (Hu : FilesystemVault.under p0
                     (p0.1, p0.2 ++ take (i - length p0.2) [y; m; d]) = true).
      { apply under_spec. cbn [fst snd]. split; [done|]. split; [by apply prefix_app_r|].
        intros H. apply (f_equal length) in H. rewrite length_app, Hlen in H. lia. }
      specialize (Hdepth _ c Hf Hu). cbn [snd] in Hdepth.
      rewrite length_app, Hlen in Hdepth. lia. }
  destruct Hm as [fs1 Em]. unfold FilesystemVault.Store. cbv zeta. rewrite Em.
  destruct (os.Stat fs1 _) as [info|e] eqn:Es; [by exists fs1|].
  pose proof (Stat_Err _ _ _ _ Es HT) as Hnone.
  assert (Hnames : Forall (λ n, os.entry_name n = true)
                     [y; m; d; checksum_of content +:+ ".vault"]).
  { apply Forall_app with (l1 := [y; m; d]) (l2 := [checksum_of content +:+ ".vault"]).
    split; [done|]. apply Forall_singleton, object_name_ok. }
  replace (p0.2 ++ [y; m; d; checksum_of content +:+ ".vault"])
    with ((p0.2 ++ [y; m; d]) ++ [checksum_of content +:+ ".vault"]) in HT, Hnone
    by by rewrite <- app_assoc.
  pose proof (MkdirAll_dirs _ _ _ _ _ Em Hdir (length (p0.2 ++ [y; m; d])) ltac:(lia)) as Hpd.
  rewrite firstn_all in Hpd.
  rewrite (WriteFile_child fs1 _ _ _ _ content HT (object_name_ok content) Hpd)
    by by rewrite Hnone.
  eexists. reflexivity.
Qed.

(** And it leaves the vault directory kept. *)
Lemma Store_kept (v : FilesystemVault.t) (now : time.Time)
    (fs fs' : gmap (bool * list string) node) (content : list byte)
    (r : result string error) :
  FilesystemVault.basePath v ≠ "" →
  FilesystemVault.kept fs v = true →
  FilesystemVault.Store v now fs content = (fs', r) →
  FilesystemVault.kept fs' v = true.
Proof.
  intros Hb (Hca & Hbase & Hdepth)%kept_spec HS. apply kept_spec.
  split; [by apply (Store_content_addressed v now fs fs' content r)|]. split.
  - intros i Hi. apply (Store_monotone _ _ _ _ _ _ _ _ HS). by apply Hbase.
  - intros q c Hq Hu.
    destruct (Store_files v now fs fs' content r q c Hb HS Hq) as [Hold|[_ Hlen]]; [|done].
    by apply (Hdepth q c).
Qed.

(** X13.  The reference [FilesystemVault.Store] returns depends on the
    payload alone: it is [vault://] followed by the SHA-256 of the
    payload in 64 lowercase hexadecimal digits, 72 bytes in all, the
    hash [Retrieve] reads back off it; so another store of the same
    payload, in any vault, on any disk and at any date, returns the same
    reference. *)
Theorem vault_reference_is_the_checksum (v : FilesystemVault.t) (now : time.Time)
    (fs fs' : gmap (bool * list string) node) (content : list byte) (ref : string) :
  FilesystemVault.Store v now fs content = (fs', Ok ref) →
  ref = "vault://" +:+ checksum_of content
  ∧ String.length ref = 72%nat
  ∧ forallb is_lower_hex (list_ascii_of_string (checksum_of content)) = true
  ∧ FilesystemVault.hexHash_of ref = checksum_of content
  ∧ ∀ v2 now2 fs2 fs2' ref2,
      FilesystemVault.Store v2 now2 fs2 content = (fs2', Ok ref2) → ref2 = ref.
Proof.
  assert (G : ∀ v0 now0 fs0 fs0' ref0,
             FilesystemVault.Store v0 now0 fs0 content = (fs0', Ok ref0) →
             ref0 = "vault://" +:+ checksum_of content).
  { intros v0 now0 fs0 fs0' ref0. unfold FilesystemVault.Store. cbv zeta.
    destruct (os.MkdirAll fs0 _) as [fs1|e]; [|done].
    destruct (os.Stat fs1 _) as [info|e]; [by intros [= _ <-]|].
    destruct (os.WriteFile fs1 _ content) as [fs2|e']; [by intros [= _ <-] | done]. }
  intros HS. pose proof (G _ _ _ _ _ HS) as ->.
  split; [done|]. split; [by rewrite length_append, checksum_of_length|].
  split; [apply EncodeToString_lower|].
  split; [apply hexHash_of_ref, checksum_of_nonempty|].
  intros v2 now2 fs2 fs2' ref2 H2. by apply G in H2.
Qed.

Lemma vault_reference_is_the_checksum_witness :
  FilesystemVault.Store Examples.vault Examples.now Examples.disk0 (Examples.bytes "abc")
  = (Examples.disk1, Ok "vault://ba7816bf8f01cfea414140de5dae2223b00361a396177a9cb410ff61f20015ad")
  ∧ String.length "vault://ba7816bf8f01cfea414140de5dae2223b00361a396177a9cb410ff61f20015ad"
    = 72%nat.
Proof.
  assert (H : FilesystemVault.Store Examples.vault Examples.now Examples.disk0
                (Examples.bytes "abc")
              = (Examples.disk1,
                 Ok "vault://ba7816bf8f01cfea414140de5dae2223b00361a396177a9cb410ff61f20015ad")).
  { unfold Examples.disk1. apply pair_eta_snd. vm_compute. reflexivity. }
  split; [exact H|].
  exact (proj1 (proj2 (vault_reference_is_the_checksum _ _ _ _ _ _ H))).
Defined.

(** X14.  On a vault directory kept as the stores of the vault keep it
    (as [kept] says), [Store] cannot fail: for every payload and date it
    returns the reference of the payload and leaves the directory kept,
    and [Retrieve] of that reference, on the disk it leaves, returns
    bytes of the checksum of the payload. *)
Theorem Store_succeeds_on_a_kept_vault (v : FilesystemVault.t) (now : time.Time)
    (fs : gmap (bool * list string) node) (content : list byte) :
  FilesystemVault.basePath v ≠ "" →
  FilesystemVault.kept fs v = true →
  ∃ fs' d,
    FilesystemVault.Store v now fs content = (fs', Ok ("vault://" +:+ checksum_of content))
    ∧ FilesystemVault.kept fs' v = true
    ∧ FilesystemVault.Retrieve v fs' ("vault://" +:+ checksum_of content) = Ok d
    ∧ checksum_of d = checksum_of content.
Proof.
  intros Hb Hk. destruct (Store_total v now fs content Hb Hk) as [fs' HS].
  pose proof (Store_kept v now fs fs' content _ Hb Hk HS) as Hk'.
  pose proof Hk as (Hca & _)%kept_spec. pose proof Hk' as (Hca' & _)%kept_spec.
  destruct (Store_holds v now fs fs' content _ Hb Hca HS) as [_ Hh].
  destruct (Retrieve_holds v fs' (checksum_of content) Hb (checksum_of_nonempty _) Hh)
    as (d & q & HR & Hq & Hbn & Hu).
  exists fs', d. split; [done|]. split; [done|]. split; [done|].
  by apply (Retrieve_checksum v fs' q).
Qed.

Lemma Store_succeeds_on_a_kept_vault_witness :
  (FilesystemVault.basePath Examples.vault ≠ ""
   ∧ FilesystemVault.kept Examples.disk1 Examples.vault = true)
  ∧ ∃ fs' d,
      FilesystemVault.Store Examples.vault Examples.later Examples.disk1 (Examples.bytes "xyz")
      = (fs', Ok ("vault://" +:+ checksum_of (Examples.bytes "xyz")))
      ∧ FilesystemVault.kept fs' Examples.vault = true
      ∧ FilesystemVault.Retrieve Examples.vault fs'
          ("vault://" +:+ checksum_of (Examples.bytes "xyz")) = Ok d
      ∧ checksum_of d = checksum_of (Examples.bytes "xyz").
Proof.
  assert (H1 : FilesystemVault.basePath Examples.vault ≠ "") by discriminate.
  assert (H2 : FilesystemVault.kept Examples.disk1 Examples.vault = true).
  { vm_compute. reflexivity. }
  split; [exact (conj H1 H2)|].
  exact (Store_succeeds_on_a_kept_vault Examples.vault Examples.later Examples.disk1
           (Examples.bytes "xyz") H1 H2).
Defined.

Lemma MkdirAll_after_insert (fs1 : gmap (bool * list string) node) (fs : gmap (bool * list string) node)
    (dir : string) (T : bool * list string) (n : node) :
  os.MkdirAll fs dir = Ok fs1 →
  os.lookup_path fs1 T ≠ Some Directory →
  os.MkdirAll (<[T := n]> fs1) dir = Ok (<[T := n]> fs1).
Proof.
  intros Em HT. pose proof Em as Em'. unfold os.MkdirAll in Em' |- *.
  destruct (os.resolve dir) as [[r cs]|] eqn:Er; [|done]. cbn [fst snd] in *.
  apply mkdirs_existing. intros i Hi. cbn [app].
  pose proof (MkdirAll_dirs _ _ _ _ _ Em Er i ltac:(lia)) as Hd.
  rewrite lookup_path_insert_ne; [done|]. intros Heq. rewrite Heq in HT. by rewrite Hd in HT.
Qed.

Lemma WriteFile_inv (fs fs' : gmap (bool * list string) node) (name : string)
    (data : list byte) :
  os.WriteFile fs name data = Ok fs' →
  ∃ p, os.resolve name = Some p ∧ os.implicit_dir p = false
       ∧ os.lookup_path fs (os.parent p) = Some Directory
       ∧ fs !! p ≠ Some Directory ∧ fs' = <[p := File data]> fs.
Proof.
  unfold os.WriteFile. destruct (os.resolve name) as [p|]; [|done].
  destruct (os.implicit_dir p) eqn:Ei; [done|].
  destruct (os.lookup_path fs (os.parent p)) as [[d|]|] eqn:Ep; [done| |done].
  intros H. exists p. split; [done|]. split; [done|]. split; [done|].
  destruct (fs !! p) as [[d|]|]; [| done |]; injection H as <-; done.
Qed.

(** X15.  A store made twice is made once: after a successful [Store]
    of either store, the same call again (for the vault of vault.go, at
    the same date), on the disk the first has left, succeeds with the
    same reference and changes nothing on the disk. *)
Theorem stores_are_idempotent (v : FilesystemVault.t) (now : time.Time)
    (f : FilesystemBackend.t) (traceID spanID attrKey : string)
    (fs fs' : gmap (bool * list string) node) (content : list byte) :
  (∀ ref, FilesystemVault.Store v now fs content = (fs', Ok ref) →
          FilesystemVault.Store v now fs' content = (fs', Ok ref))
  ∧ (∀ ref, FilesystemBackend.Store f fs traceID spanID attrKey content = (fs', Ok ref) →
            FilesystemBackend.Store f fs' traceID spanID attrKey content = (fs', Ok ref)).
Proof.
  split.
  - intros ref. unfold FilesystemVault.Store. cbv zeta.
    destruct (os.MkdirAll fs _) as [fs1|e] eqn:Em; [|done].
    destruct (os.Stat fs1 _) as [info|e] eqn:Es.
    + intros [= <- <-]. by rewrite (MkdirAll_idem _ _ _ Em), Es.
    + destruct (os.WriteFile fs1 _ content) as [fs2|e'] eqn:Ew; [|done].
      intros [= <- <-].
      apply WriteFile_inv in Ew as (T & HrT & HiT & _ & _ & ->).
      pose proof (Stat_Err _ _ _ _ Es HrT) as Hnone.
      rewrite (MkdirAll_after_insert _ _ _ T (File content) Em).
      2:{ unfold os.lookup_path. by rewrite HiT, Hnone. }
      assert (Hs : os.Stat (<[T := File content]> fs1)
                     (filepath.Join
                        [filepath.Join [FilesystemVault.basePath v; time.Format now];
                         checksum_of content +:+ ".vault"])
                   = Ok (os.info_of T (File content))).
      { apply Lstat_Ok. exists T, (File content). split; [done|]. split; [|done].
        unfold os.lookup_path. by rewrite HiT, lookup_insert_eq. }
      by rewrite Hs.
  - intros ref. unfold FilesystemBackend.Store. cbv zeta.
    destruct (os.MkdirAll fs _) as [fs1|e] eqn:Em; [|done].
    destruct (os.WriteFile fs1 _ content) as [fs2|e'] eqn:Ew; [|done].
    intros [= <- <-].
    apply WriteFile_inv in Ew as (T & HrT & HiT & HpT & HnT & ->).
    rewrite (MkdirAll_after_insert _ _ _ T (File content) Em).
    2:{ unfold os.lookup_path. by rewrite HiT. }
    assert (Hw : os.WriteFile (<[T := File content]> fs1)
                   (filepath.Join [FilesystemBackend.basePath f; traceID; spanID; attrKey])
                   content
                 = Ok (<[T := File content]> fs1)).
    { unfold os.WriteFile. rewrite HrT, HiT.
      rewrite lookup_path_insert_ne, HpT.
      - by rewrite lookup_insert_eq, insert_insert_eq.
      - intros Heq. rewrite <- Heq in HpT. unfold os.lookup_path in HpT.
        rewrite HiT in HpT. done. }
    by rewrite Hw.
Qed.

Lemma stores_are_idempotent_witness :
  FilesystemVault.Store Examples.vault Examples.now Examples.disk0 (Examples.bytes "abc")
  = (Examples.disk1, Ok "vault://ba7816bf8f01cfea414140de5dae2223b00361a396177a9cb410ff61f20015ad")
  ∧ FilesystemVault.Store Examples.vault Examples.now Examples.disk1 (Examples.bytes "abc")
    = (Examples.disk1,
       Ok "vault://ba7816bf8f01cfea414140de5dae2223b00361a396177a9cb410ff61f20015ad").
Proof.
  assert (H : FilesystemVault.Store Examples.vault Examples.now Examples.disk0
                (Examples.bytes "abc")
              = (Examples.disk1,
                 Ok "vault://ba7816bf8f01cfea414140de5dae2223b00361a396177a9cb410ff61f20015ad")).
  { unfold Examples.disk1. apply pair_eta_snd. vm_compute. reflexivity. }
  split; [exact H|].
  exact (proj1 (stores_are_idempotent Examples.vault Examples.now Examples.backend "" "" ""
                  Examples.disk0 Examples.disk1 (Examples.bytes "abc")) _ H).
Defined.

Lemma Store_blocked (v : FilesystemVault.t) (now : time.Time)
    (fs : gmap (bool * list string) node) (c content : list byte) :
  os.ReadFile fs (FilesystemVault.basePath v) = Ok c →
  FilesystemVault.Store v now fs content = (fs, Err (ErrCreateDateDir ENOTDIR)).
Proof.
  intros Hc. pose proof Hc as (p & Hp & Hi & Hf)%ReadFile_Ok.
  apply resolve_Some in Hp as [Hb ->].
  destruct (vault_paths v now content Hb) as (y & m & d & Hn & Hsuf & Hdir & HT).
  unfold FilesystemVault.Store. cbv zeta.
  assert (Em : os.MkdirAll fs (filepath.Join [FilesystemVault.basePath v; time.Format now])
               = Err ENOTDIR).
  { unfold os.MkdirAll. rewrite Hdir. cbn [fst snd].
    destruct (filepath.normal (FilesystemVault.basePath v)) as [r cs] eqn:En.
    cbn [fst snd] in *.
    apply (mkdirs_blocked _ _ _ _ (length cs) c).
    - rewrite length_app. destruct cs; [by cbv in Hi | simpl; lia].
    - cbn [app]. rewrite take_app_length. by apply lookup_path_File. }
  by rewrite Em.
Qed.

(** X16.  When a regular file is at the base path of the vault, [Store]
    fails for every payload and date with the create-date-dir error (not
    a directory): it returns no reference and leaves the disk as it
    is. *)
Theorem Store_fails_under_a_regular_file (v : FilesystemVault.t) (now : time.Time)
    (fs : gmap (bool * list string) node) (c content : list byte) :
  os.ReadFile fs (FilesystemVault.basePath v) = Ok c →
  FilesystemVault.Store v now fs content = (fs, Err (ErrCreateDateDir ENOTDIR)).
Proof. intros Hc. exact (Store_blocked v now fs c content Hc). Qed.

Lemma Store_fails_under_a_regular_file_witness :
  os.ReadFile Examples.bdisk1 Examples.object_file = Ok (Examples.bytes "abc")
  ∧ FilesystemVault.Store {| FilesystemVault.basePath := Examples.object_file |} Examples.now
      Examples.bdisk1 (Examples.bytes "xyz")
    = (Examples.bdisk1, Err (ErrCreateDateDir ENOTDIR)).
Proof.
  assert (H : os.ReadFile Examples.bdisk1 Examples.object_file = Ok (Examples.bytes "abc")).
  { vm_compute. reflexivity. }
  split; [exact H|].
  exact (Store_fails_under_a_regular_file {| FilesystemVault.basePath := Examples.object_file |}
           Examples.now Examples.bdisk1 _ (Examples.bytes "xyz") H).
Defined.

(** X17.  [Retrieve] of the vault returns either the not-found error,
    with the reference as it was given, or the bytes of a regular file
    that is the base path or lies below it and is called [h.vault], [h]
    being the reference without its [vault://]; it returns no other
    error and the bytes of no file of another name.  When the disk has
    no regular file of that name it returns the not-found error. *)
Theorem vault_Retrieve_returns_a_file_of_that_name (v : FilesystemVault.t)
    (fs : gmap (bool * list string) node) (ref : string) :
  (FilesystemVault.Retrieve v fs ref = Err (ErrVaultRefNotFound ref)
   ∨ ∃ d q, FilesystemVault.Retrieve v fs ref = Ok d
            ∧ fs !! q = Some (File d)
            ∧ os.base_name q = FilesystemVault.hexHash_of ref +:+ ".vault"
            ∧ q.1 = (filepath.normal (FilesystemVault.basePath v)).1
            ∧ (filepath.normal (FilesystemVault.basePath v)).2 `prefix_of` q.2)
  ∧ ((∀ q d, fs !! q = Some (File d) →
             os.base_name q ≠ FilesystemVault.hexHash_of ref +:+ ".vault") →
     FilesystemVault.Retrieve v fs ref = Err (ErrVaultRefNotFound ref)).
Proof.
  destruct (Retrieve_cases v fs ref) as [H|(d & q & HR & Hq & Hi & Hn & Hq1 & Hq2)].
  - split; [by left | done].
  - split.
    + right. by exists d, q.
    + intros Hno. by destruct (Hno q d Hq).
Qed.

Lemma vault_Retrieve_returns_a_file_of_that_name_witness :
  (∀ q d, (∅ : gmap (bool * list string) node) !! q = Some (File d) →
          os.base_name q
          ≠ FilesystemVault.hexHash_of
              "vault://ba7816bf8f01cfea414140de5dae2223b00361a396177a9cb410ff61f20015ad"
            +:+ ".vault")
  ∧ FilesystemVault.Retrieve Examples.vault ∅
      "vault://ba7816bf8f01cfea414140de5dae2223b00361a396177a9cb410ff61f20015ad"
    = Err (ErrVaultRefNotFound
             "vault://ba7816bf8f01cfea414140de5dae2223b00361a396177a9cb410ff61f20015ad").
Proof.
  assert (H : ∀ q d, (∅ : gmap (bool * list string) node) !! q = Some (File d) →
                     os.base_name q
                     ≠ FilesystemVault.hexHash_of
                         "vault://ba7816bf8f01cfea414140de5dae2223b00361a396177a9cb410ff61f20015ad"
                       +:+ ".vault").
  { intros q d Hq. by rewrite lookup_empty in Hq. }
  split; [exact H|].
  exact (proj2 (vault_Retrieve_returns_a_file_of_that_name Examples.vault ∅ _) H).
Defined.

Lemma Retrieve_same_hash (v : FilesystemVault.t) (fs : gmap (bool * list string) node)
    (ref ref' : string) (d : list byte) :
  FilesystemVault.hexHash_of ref = FilesystemVault.hexHash_of ref' →
  FilesystemVault.Retrieve v fs ref = Ok d → FilesystemVault.Retrieve v fs ref' = Ok d.
Proof.
  intros Hh. unfold FilesystemVault.Retrieve. cbv zeta.
  fold (FilesystemVault.hexHash_of ref). fold (FilesystemVault.hexHash_of ref').
  rewrite Hh.
  destruct (String.eqb _ ""); [done|].
  by destruct (os.ReadFile fs _).
Qed.

(** X18.  [Retrieve] takes the bare hash for the reference: for a hash
    [h] that is not empty and does not itself begin with [vault://], it
    returns bytes for [h] exactly when it returns them for [vault://h],
    and the same bytes.  A reference of 8 bytes or fewer (so [vault://]
    alone, which is not longer than the prefix) is looked up whole, as a
    hash. *)
Theorem vault_Retrieve_takes_the_bare_hash (v : FilesystemVault.t)
    (fs : gmap (bool * list string) node) (h : string) :
  h ≠ "" → string_take 8 h ≠ "vault://" →
  (∀ d, FilesystemVault.Retrieve v fs h = Ok d
        ↔ FilesystemVault.Retrieve v fs ("vault://" +:+ h) = Ok d)
  ∧ (∀ ref, (String.length ref ≤ 8)%nat → FilesystemVault.hexHash_of ref = ref).
Proof.
  intros Hh Hp. split.
  - assert (E : FilesystemVault.hexHash_of h = FilesystemVault.hexHash_of ("vault://" +:+ h)).
    { by rewrite hexHash_of_ref, hexHash_of_bare. }
    intros d. split; apply Retrieve_same_hash; done.
  - intros ref Hlen. unfold FilesystemVault.hexHash_of.
    replace (Nat.ltb 8 (String.length ref)) with false; [done|].
    symmetry. apply Nat.ltb_ge. lia.
Qed.

Lemma vault_Retrieve_takes_the_bare_hash_witness :
  ("ba7816bf8f01cfea414140de5dae2223b00361a396177a9cb410ff61f20015ad" ≠ ""
   ∧ string_take 8 "ba7816bf8f01cfea414140de5dae2223b00361a396177a9cb410ff61f20015ad"
     ≠ "vault://")
  ∧ (FilesystemVault.Retrieve Examples.vault Examples.disk1
       "ba7816bf8f01cfea414140de5dae2223b00361a396177a9cb410ff61f20015ad"
     = Ok (Examples.bytes "abc")
     ↔ FilesystemVault.Retrieve Examples.vault Examples.disk1
         ("vault://" +:+ "ba7816bf8f01cfea414140de5dae2223b00361a396177a9cb410ff61f20015ad")
       = Ok (Examples.bytes "abc")).
Proof.
  assert (H1 : "ba7816bf8f01cfea414140de5dae2223b00361a396177a9cb410ff61f20015ad" ≠ "")
    by discriminate.
  assert (H2 : string_take 8 "ba7816bf8f01cfea414140de5dae2223b00361a396177a9cb410ff61f20015ad"
               ≠ "vault://") by discriminate.
  split; [exact (conj H1 H2)|].
  exact (proj1 (vault_Retrieve_takes_the_bare_hash Examples.vault Examples.disk1 _ H1 H2)
           (Examples.bytes "abc")).
Defined.

(** X19.  In a vault directory kept as the stores of the vault keep it
    (what is called [x.vault] below the base is a file named by its
    checksum), with a directory at the base path, the bytes [Retrieve]
    returns have the hash of the reference for SHA-256: it never returns
    bytes of another checksum than the one asked for. *)
Theorem vault_Retrieve_returns_the_hash_asked_for (v : FilesystemVault.t)
    (fs : gmap (bool * list string) node) (ref : string) (info : FileInfo) (d : list byte) :
  FilesystemVault.content_addressed fs v = true →
  os.Stat fs (FilesystemVault.basePath v) = Ok info → IsDir info = true →
  FilesystemVault.Retrieve v fs ref = Ok d →
  checksum_of d = FilesystemVault.hexHash_of ref.
Proof.
  intros Hca Hs Hd HR.
  destruct (Retrieve_cases v fs ref) as [H|(d' & q & HR' & Hq & Hi & Hn & Hq1 & Hq2)];
    [congruence|].
  assert (d' = d) as -> by congruence.
  apply (Retrieve_checksum v fs q); [done | done | | done].
  apply under_spec. split; [done|]. split; [done|]. intros Heq.
  unfold os.Stat in Hs. apply Lstat_Ok in Hs as (p0 & n0 & Hr0 & Hl0 & ->).
  apply resolve_Some in Hr0 as [_ ->].
  assert (q = filepath.normal (FilesystemVault.basePath v)) as ->
    by by apply injective_projections.
  unfold os.lookup_path in Hl0. rewrite Hi, Hq in Hl0. injection Hl0 as <-. done.
Qed.

Lemma vault_Retrieve_returns_the_hash_asked_for_witness :
  (FilesystemVault.content_addressed Examples.disk1 Examples.vault = true
   ∧ os.Stat Examples.disk1 (FilesystemVault.basePath Examples.vault)
     = Ok {| Name := "vault"; IsDir := true |}
   ∧ FilesystemVault.Retrieve Examples.vault Examples.disk1
       "vault://ba7816bf8f01cfea414140de5dae2223b00361a396177a9cb410ff61f20015ad"
     = Ok (Examples.bytes "abc"))
  ∧ checksum_of (Examples.bytes "abc")
    = FilesystemVault.hexHash_of
        "vault://ba7816bf8f01cfea414140de5dae2223b00361a396177a9cb410ff61f20015ad".
Proof.
  assert (H1 : FilesystemVault.content_addressed Examples.disk1 Examples.vault = true).
  { vm_compute. reflexivity. }
  assert (H2 : os.Stat Examples.disk1 (FilesystemVault.basePath Examples.vault)
               = Ok {| Name := "vault"; IsDir := true |}).
  { vm_compute. reflexivity. }
  assert (H3 : FilesystemVault.Retrieve Examples.vault Examples.disk1
                 "vault://ba7816bf8f01cfea414140de5dae2223b00361a396177a9cb410ff61f20015ad"
               = Ok (Examples.bytes "abc")).
  { vm_compute. reflexivity. }
  split; [exact (conj H1 (conj H2 H3))|].
  exact (vault_Retrieve_returns_the_hash_asked_for Examples.vault Examples.disk1 _ _ _
           H1 H2 eq_refl H3).
Defined.

(** ** The factory, and the processor over the vault it makes *)

Lemma under_prefix_false (p0 : bool * list string) (i : nat) :
  FilesystemVault.under p0 (p0.1, take i p0.2) = false.
Proof.
  apply not_true_iff_false. intros (_ & Hpre & Hne)%under_spec. cbn [fst snd] in *.
  apply Hne. apply prefix_length in Hpre as Hlen. rewrite length_take in Hlen.
  apply take_ge. lia.
Qed.

Lemma MkdirAll_fresh (fs fs' : gmap (bool * list string) node) (base : string) :
  os.MkdirAll fs base = Ok fs' →
  FilesystemVault.fresh fs base = true → FilesystemVault.fresh fs' base = true.
Proof.
  intros Em Hf. apply fresh_spec. intros q n Hq.
  destruct (fs !! q) as [n0|] eqn:E0.
  - by apply (proj1 (fresh_spec fs base) Hf q n0).
  - pose proof Em as Em'. unfold os.MkdirAll in Em'.
    destruct (os.resolve base) as [p|] eqn:Er; [|done].
    apply resolve_Some in Er as [_ ->].
    destruct (mkdirs_new _ _ _ _ _ q Em' E0 ltac:(by exists n)) as (i & Hi & ->).
    cbn [app]. apply under_prefix_false.
Qed.

Lemma fresh_kept (fs : gmap (bool * list string) node) (v : FilesystemVault.t) :
  FilesystemVault.fresh fs (FilesystemVault.basePath v) = true →
  (∀ i, (i ≤ length (filepath.normal (FilesystemVault.basePath v)).2)%nat →
        os.lookup_path fs ((filepath.normal (FilesystemVault.basePath v)).1,
                           take i (filepath.normal (FilesystemVault.basePath v)).2)
        = Some Directory) →
  FilesystemVault.kept fs v = true.
Proof.
  intros Hf Hd. pose proof (proj1 (fresh_spec _ _) Hf) as Hno.
  apply kept_spec. split; [|split; [done|]].
  - apply content_addressed_intro. intros q n Hq Hu. by rewrite (Hno q n Hq) in Hu.
  - intros q c Hq Hu. by rewrite (Hno q _ Hq) in Hu.
Qed.

Lemma createTracesProcessor_Ok (fs fs' : gmap (bool * list string) node) (cfg : Config)
    (p : vaultProcessor) (v : FilesystemVault.t) :
  createTracesProcessor fs cfg = (fs', Ok (p, v)) →
  p = newVaultProcessor cfg
  ∧ v = {| FilesystemVault.basePath := BasePath (Filesystem (Storage cfg)) |}
  ∧ os.MkdirAll fs (BasePath (Filesystem (Storage cfg))) = Ok fs'.
Proof.
  unfold createTracesProcessor, FilesystemVault.NewFilesystemVault.
  destruct (os.MkdirAll fs _) as [fs1|e]; [|done]. by intros [= <- <- <-].
Qed.

Lemma createTracesProcessor_kept (fs fs' : gmap (bool * list string) node) (cfg : Config)
    (p : vaultProcessor) (v : FilesystemVault.t) :
  createTracesProcessor fs cfg = (fs', Ok (p, v)) →
  FilesystemVault.fresh fs (BasePath (Filesystem (Storage cfg))) = true →
  FilesystemVault.basePath v ≠ "" ∧ FilesystemVault.kept fs' v = true
  ∧ FilesystemVault.fresh fs' (FilesystemVault.basePath v) = true.
Proof.
  intros (-> & -> & Em)%createTracesProcessor_Ok Hf. cbn [FilesystemVault.basePath].
  destruct (MkdirAll_Stat _ _ _ Em) as [Hne _].
  pose proof (MkdirAll_fresh _ _ _ Em Hf) as Hf'.
  split; [done|]. split; [|done]. apply fresh_kept; [done|].
  cbn [FilesystemVault.basePath]. intros i Hi.
  apply (MkdirAll_dirs _ _ _ _ _ Em (resolve_nonempty _ Hne)). done.
Qed.

(** X20.  [createTracesProcessor] makes the vault at the base path of
    the configuration and returns the processor of that configuration
    with it.  When it succeeds the base path is not empty and is a
    directory, no regular file has changed, and over a base directory
    with nothing below it the vault is kept as its stores keep it (so
    that no [Store] on it fails); when the directory cannot be made it
    returns the create-vault-dir error and no processor, and leaves the
    disk as it is. *)
Theorem createTracesProcessor_makes_the_vault (fs fs' : gmap (bool * list string) node)
    (cfg : Config) :
  (∀ p v, createTracesProcessor fs cfg = (fs', Ok (p, v)) →
          p = newVaultProcessor cfg
          ∧ FilesystemVault.basePath v = BasePath (Filesystem (Storage cfg))
          ∧ FilesystemVault.basePath v ≠ ""
          ∧ (∃ info, os.Stat fs' (FilesystemVault.basePath v) = Ok info ∧ IsDir info = true)
          ∧ (∀ name d, os.ReadFile fs' name = Ok d ↔ os.ReadFile fs name = Ok d)
          ∧ (FilesystemVault.fresh fs (BasePath (Filesystem (Storage cfg))) = true →
             FilesystemVault.kept fs' v = true))
  ∧ (∀ err, createTracesProcessor fs cfg = (fs', Err err) →
            fs' = fs ∧ ∃ e, err = ErrCreateVaultDir e).
Proof.
  split.
  - intros p v H. pose proof H as (-> & -> & Em)%createTracesProcessor_Ok.
    cbn [FilesystemVault.basePath]. destruct (MkdirAll_Stat _ _ _ Em) as [Hne Hst].
    split; [done|]. split; [done|]. split; [done|]. split; [done|]. split.
    + intros name d. by apply MkdirAll_ReadFile with (path := BasePath (Filesystem (Storage cfg))).
    + intros Hf. by destruct (createTracesProcessor_kept _ _ _ _ _ H Hf) as (_ & Hk & _).
  - intros err. unfold createTracesProcessor, FilesystemVault.NewFilesystemVault.
    destruct (os.MkdirAll fs _) as [fs1|e]; [done|]. intros [= <- <-]. split; [done|].
    by exists e.
Qed.

Lemma createTracesProcessor_makes_the_vault_witness :
  createTracesProcessor Examples.disk0 createDefaultConfig
  = ((createTracesProcessor Examples.disk0 createDefaultConfig).1,
     Ok (newVaultProcessor createDefaultConfig, Examples.vault))
  ∧ FilesystemVault.fresh Examples.disk0 (BasePath (Filesystem (Storage createDefaultConfig)))
    = true
  ∧ FilesystemVault.kept (createTracesProcessor Examples.disk0 createDefaultConfig).1
      Examples.vault = true.
Proof.
  assert (H : createTracesProcessor Examples.disk0 createDefaultConfig
              = ((createTracesProcessor Examples.disk0 createDefaultConfig).1,
                 Ok (newVaultProcessor createDefaultConfig, Examples.vault))).
  { apply pair_eta_snd. reflexivity. }
  assert (Hf : FilesystemVault.fresh Examples.disk0
                 (BasePath (Filesystem (Storage createDefaultConfig))) = true).
  { reflexivity. }
  split; [exact H|]. split; [exact Hf|].
  exact (proj2 (proj2 (proj2 (proj2 (proj2
           (proj1 (createTracesProcessor_makes_the_vault Examples.disk0 _ createDefaultConfig)
              _ _ H))))) Hf).
Defined.

Section VaultStorageFacts.
Variable v : FilesystemVault.t.
Variable clock : nat → time.Time.
Hypothesis Hbase : FilesystemVault.basePath v ≠ "".

Lemma vaultStorage_Store (st : gmap (bool * list string) node * nat) (c : list byte) :
  FilesystemVault.Store v (clock st.2) st.1 c
  = ((FilesystemVault.vaultStorage v clock st c).1.1,
     (FilesystemVault.vaultStorage v clock st c).2).
Proof. unfold FilesystemVault.vaultStorage. cbn [fst snd]. apply surjective_pairing. Qed.

Lemma stored_invariant (I : gmap (bool * list string) node * nat → Prop)
    (Q : vaultEntry → Prop) :
  (∀ s e, I s → Q e →
          I (FilesystemVault.vaultStorage v clock s (list_byte_of_string (content e))).1) →
  ∀ l st, I st → Forall Q l → I (stored (FilesystemVault.vaultStorage v clock) l st).
Proof.
  intros Hstep. induction l as [|e l IH]; intros st Hst HQ; [done|].
  apply Forall_cons in HQ as [He HQ]. unfold stored. cbn [fold_left].
  apply IH; [|done]. by apply Hstep.
Qed.

Lemma stored_monotone (l : list vaultEntry) (st : gmap (bool * list string) node * nat)
    (q : bool * list string) (n : node) :
  os.lookup_path st.1 q = Some n →
  os.lookup_path (stored (FilesystemVault.vaultStorage v clock) l st).1 q = Some n.
Proof.
  intros Hq.
  apply (stored_invariant (λ s, os.lookup_path s.1 q = Some n) (λ _, True));
    [|done|by apply Forall_forall].
  intros s e Hs _. eapply Store_monotone; [apply vaultStorage_Store | done].
Qed.

Lemma stored_holds (l : list vaultEntry) (st : gmap (bool * list string) node * nat)
    (h : string) :
  FilesystemVault.holds v st.1 h →
  FilesystemVault.holds v (stored (FilesystemVault.vaultStorage v clock) l st).1 h.
Proof. apply holds_mono. intros q n. apply stored_monotone. Qed.

(** The vault directory stays kept, with no other regular files below
    the base than payloads of the entries stored. *)
Lemma stored_kept (S : list vaultEntry) (l : list vaultEntry)
    (st : gmap (bool * list string) node * nat) :
  FilesystemVault.kept st.1 v = true →
  (∀ q c, st.1 !! q = Some (File c) →
          FilesystemVault.under (filepath.normal (FilesystemVault.basePath v)) q = true →
          ∃ e, e ∈ S ∧ c = list_byte_of_string (content e)) →
  Forall (λ e, e ∈ S) l →
  FilesystemVault.kept (stored (FilesystemVault.vaultStorage v clock) l st).1 v = true
  ∧ (∀ q c, (stored (FilesystemVault.vaultStorage v clock) l st).1 !! q = Some (File c) →
            FilesystemVault.under (filepath.normal (FilesystemVault.basePath v)) q = true →
            ∃ e, e ∈ S ∧ c = list_byte_of_string (content e)).
Proof.
  intros Hk Hc Hl.
  apply (stored_invariant
           (λ s, FilesystemVault.kept s.1 v = true
                 ∧ (∀ q c, s.1 !! q = Some (File c) →
                           FilesystemVault.under
                             (filepath.normal (FilesystemVault.basePath v)) q = true →
                           ∃ e, e ∈ S ∧ c = list_byte_of_string (content e)))
           (λ e, e ∈ S)); [|done|done].
  intros s e [Hks Hcs] He. pose proof (vaultStorage_Store s (list_byte_of_string (content e)))
    as HS.
  split; [by apply (Store_kept _ _ _ _ _ _ Hbase Hks HS)|].
  intros q c Hq Hu.
  destruct (Store_files _ _ _ _ _ _ q c Hbase HS Hq) as [Hold|[-> _]].
  - by apply (Hcs q c).
  - by exists e.
Qed.

End VaultStorageFacts.

Lemma pending_take (p : vaultProcessor) (td : ptrace.Traces) (i : nat) :
  Forall (λ e, e ∈ pending p td)
    (flat_map (λ span, collect p (ptrace.Attributes span)) (take i (ptrace.spans_of td))).
Proof.
  apply Forall_forall. intros e He. unfold pending.
  rewrite <- (take_drop i (ptrace.spans_of td)), flat_map_app. apply elem_of_app. by left.
Qed.

Lemma pending_drop (p : vaultProcessor) (td : ptrace.Traces) (i : nat) :
  Forall (λ e, e ∈ pending p td)
    (flat_map (λ span, collect p (ptrace.Attributes span)) (drop i (ptrace.spans_of td))).
Proof.
  apply Forall_forall. intros e He. unfold pending.
  rewrite <- (take_drop i (ptrace.spans_of td)), flat_map_app. apply elem_of_app. by right.
Qed.

Lemma pending_span (p : vaultProcessor) (td : ptrace.Traces) (i : nat) (span : ptrace.Span) :
  ptrace.spans_of td !! i = Some span →
  Forall (λ e, e ∈ pending p td) (collect p (ptrace.Attributes span)).
Proof.
  intros Hi. apply Forall_forall. intros e He. unfold pending.
  rewrite <- (take_drop_middle _ _ _ Hi), flat_map_app. cbn [flat_map].
  apply elem_of_app. right. apply elem_of_app. by left.
Qed.

(** X21.  The processor the factory makes over a base directory with
    nothing below it, in [replace_with_ref] mode, for a batch whose
    pending values do not collide for SHA-256, whatever the dates of the
    calls: for every span of the batch with distinct keys and every
    eligible attribute [k] of it (that is not the sibling key of another
    pending entry), the span handed on holds a reference under [k], and
    [Retrieve] of that reference, on the disk as the batch leaves it,
    returns the bytes of the value the attribute came with. *)
Theorem offloaded_values_can_be_retrieved (cfg : Config)
    (fs0 fs : gmap (bool * list string) node) (p : vaultProcessor) (v : FilesystemVault.t)
    (clock : nat → time.Time) (next : ptrace.Traces → option error) (n : nat)
    (td : ptrace.Traces) (i : nat) (span : ptrace.Span) (k : string) (val : pcommon.Value) :
  createTracesProcessor fs0 cfg = (fs, Ok (p, v)) →
  FilesystemVault.fresh fs0 (BasePath (Filesystem (Storage cfg))) = true →
  Mode (Vault cfg) = "replace_with_ref" →
  (∀ e e', e ∈ pending p td → e' ∈ pending p td →
           checksum_of (list_byte_of_string (content e))
           = checksum_of (list_byte_of_string (content e')) →
           content e = content e') →
  ptrace.spans_of td !! i = Some span →
  NoDup (ptrace.Attributes span).*1 →
  (k, val) ∈ ptrace.Attributes span →
  k ∈ Keys (Vault cfg) →
  (SizeThreshold (Vault cfg) ≤ Z.of_nat (String.length (pcommon.Str val)))%Z →
  Forall (λ e, key e +:+ ".vault_ref" ≠ k) (collect p (ptrace.Attributes span)) →
  ∃ span' ref,
    ptrace.spans_of
      (forwarded (ConsumeTraces (FilesystemVault.vaultStorage v clock) next p (fs, n) td)) !! i
    = Some span'
    ∧ pcommon.Get (ptrace.Attributes span') k = Some (pcommon.ValueStr ref)
    ∧ FilesystemVault.Retrieve v
        (vault_after (ConsumeTraces (FilesystemVault.vaultStorage v clock) next p (fs, n) td)).1
        ref
      = Ok (list_byte_of_string (pcommon.Str val)).
Proof.
  intros Hc Hfresh Hm Hcol Hi Hnd Hin Hk Ht HF.
  destruct (createTracesProcessor_kept _ _ _ _ _ Hc Hfresh) as (Hb & Hkept & Hfresh').
  apply createTracesProcessor_Ok in Hc as (-> & _ & _).
  set (p := newVaultProcessor cfg) in *.
  set (store := FilesystemVault.vaultStorage v clock).
  set (e0 := {| key := k; content := pcommon.Str val |}).
  assert (Hk' : inKeysSet p k = true) by by apply inKeysSet_new.
  destruct (ConsumeTraces_flat store next p (fs, n) td) as (H1 & H2 & _).
  rewrite H1, H2.
  destruct (vaultSpans_lookup store p _ i span (fs, n) [] Hi) as [Hl Hfin].
  rewrite Hl, Hfin.
  set (st_i := stored store
                 (flat_map (λ span, collect p (ptrace.Attributes span))
                    (take i (ptrace.spans_of td))) (fs, n)) in *.
  set (log_i := (vaultSpans store p (take i (ptrace.spans_of td)) (fs, n) []).2) in *.
  destruct (vaultSpan_entry store p span k val st_i log_i k Hnd Hin Hk' Ht
              (Forall_value_key _ _ HF)) as (l1 & l2 & st1 & res & Hsplit & Hs & Hst & Hres).
  pose proof (pending_span p td i span Hi) as Hpend. rewrite Hsplit in Hpend.
  apply Forall_app in Hpend as [Hp1 Hp2]. apply Forall_cons in Hp2 as [Hp0 Hp2].
  (* the state before the call for [k] *)
  assert (Hinit : ∀ q c, fs !! q = Some (File c) →
                         FilesystemVault.under
                           (filepath.normal (FilesystemVault.basePath v)) q = true →
                         ∃ e, e ∈ pending p td ∧ c = list_byte_of_string (content e)).
  { intros q c Hq Hu. by rewrite (proj1 (fresh_spec _ _) Hfresh' q _ Hq) in Hu. }
  destruct (stored_kept v clock Hb (pending p td) _ (fs, n) Hkept Hinit (pending_take p td i))
    as [Hk_i Hc_i]. fold store st_i in Hk_i, Hc_i.
  destruct (stored_kept v clock Hb (pending p td) l1 st_i Hk_i Hc_i Hp1) as [Hk_a Hc_a].
  fold store in Hk_a, Hc_a.
  set (st_a := stored store l1 st_i) in *.
  destruct (Store_total v (clock st_a.2) st_a.1 (list_byte_of_string (pcommon.Str val))
              Hb Hk_a) as [fs1 HS].
  pose proof (vaultStorage_Store v clock st_a (list_byte_of_string (pcommon.Str val))) as HS'.
  fold store in HS'. rewrite Hs in HS'. cbn [fst snd] in HS'.
  rewrite HS in HS'. injection HS' as Hfs1 Hres1. subst res.
  destruct Hres as [Hget _].
  pose proof (proj1 (kept_spec _ _) Hk_a) as (Hca_a & _).
  destruct (Store_holds v _ _ _ _ _ Hb Hca_a HS) as [_ Hholds]. rewrite Hfs1 in Hholds.
  (* the state the batch leaves *)
  set (fin := stored store
                (flat_map (λ span, collect p (ptrace.Attributes span))
                   (drop (S i) (ptrace.spans_of td)))
                (vaultSpan store p span st_i log_i).1.1) in *.
  assert (Hfin_eq : fin = stored store
                            (l2 ++ flat_map (λ span, collect p (ptrace.Attributes span))
                                     (drop (S i) (ptrace.spans_of td))) st1).
  { unfold fin. by rewrite Hst, stored_app. }
  assert (Hk_1 : FilesystemVault.kept st1.1 v = true
                 ∧ (∀ q c, st1.1 !! q = Some (File c) →
                           FilesystemVault.under
                             (filepath.normal (FilesystemVault.basePath v)) q = true →
                           ∃ e, e ∈ pending p td ∧ c = list_byte_of_string (content e))).
  { pose proof (stored_kept v clock Hb (pending p td) [e0] st_a Hk_a Hc_a
                  ltac:(by apply Forall_singleton)) as H.
    unfold stored in H. cbn [fold_left content e0] in H. fold store in H.
    by rewrite Hs in H. }
  destruct Hk_1 as [Hk_1 Hc_1].
  destruct (stored_kept v clock Hb (pending p td)
              (l2 ++ flat_map (λ span, collect p (ptrace.Attributes span))
                       (drop (S i) (ptrace.spans_of td))) st1 Hk_1 Hc_1)
    as [Hk_f Hc_f].
  { apply Forall_app. split; [done | apply pending_drop]. }
  fold store in Hk_f, Hc_f. rewrite <- Hfin_eq in Hk_f, Hc_f.
  assert (Hh_f : FilesystemVault.holds v fin.1
                   (checksum_of (list_byte_of_string (pcommon.Str val)))).
  { rewrite Hfin_eq. by apply stored_holds. }
  destruct (Retrieve_holds v fin.1 _ Hb (checksum_of_nonempty _) Hh_f)
    as (d & q & HR & Hq & Hbn & Hu).
  pose proof (proj1 (kept_spec _ _) Hk_f) as (Hca_f & _).
  pose proof (Retrieve_checksum v fin.1 q d _ Hca_f Hq Hu Hbn) as Hsum.
  destruct (Hc_f q d Hq Hu) as (e' & He' & ->).
  assert (He0 : content e' = content e0) by by apply Hcol.
  eexists _, ("vault://" +:+ checksum_of (list_byte_of_string (pcommon.Str val))).
  split; [reflexivity|]. split.
  - rewrite Hget. by apply (Get_rewrite_value p _ e0).
  - rewrite HR, He0. reflexivity.
Qed.

Lemma offloaded_values_can_be_retrieved_witness :
  (createTracesProcessor Examples.disk0 createDefaultConfig
   = ((createTracesProcessor Examples.disk0 createDefaultConfig).1,
      Ok (newVaultProcessor createDefaultConfig, Examples.vault))
   ∧ FilesystemVault.fresh Examples.disk0 (BasePath (Filesystem (Storage createDefaultConfig)))
     = true
   ∧ Mode (Vault createDefaultConfig) = "replace_with_ref"
   ∧ (∀ e e',
        e ∈ pending (newVaultProcessor createDefaultConfig)
              (Examples.batch_of (Examples.span_of Examples.quantum [])) →
        e' ∈ pending (newVaultProcessor createDefaultConfig)
               (Examples.batch_of (Examples.span_of Examples.quantum [])) →
        checksum_of (list_byte_of_string (content e))
        = checksum_of (list_byte_of_string (content e')) →
        content e = content e')
   ∧ ptrace.spans_of (Examples.batch_of (Examples.span_of Examples.quantum [])) !! 0%nat
     = Some (Examples.span_of Examples.quantum [])
   ∧ NoDup (ptrace.Attributes (Examples.span_of Examples.quantum [])).*1
   ∧ ("gen_ai.completion", pcommon.ValueStr "Quantum computing uses qubits...")
       ∈ ptrace.Attributes (Examples.span_of Examples.quantum [])
   ∧ "gen_ai.completion" ∈ Keys (Vault createDefaultConfig)
   ∧ (SizeThreshold (Vault createDefaultConfig)
      ≤ Z.of_nat (String.length
                    (pcommon.Str (pcommon.ValueStr "Quantum computing uses qubits..."))))%Z
   ∧ Forall (λ e, key e +:+ ".vault_ref" ≠ "gen_ai.completion")
       (collect (newVaultProcessor createDefaultConfig)
          (ptrace.Attributes (Examples.span_of Examples.quantum []))))
  ∧ ∃ span' ref,
      ptrace.spans_of
        (forwarded
           (ConsumeTraces (FilesystemVault.vaultStorage Examples.vault Examples.clock)
              Examples.downstream (newVaultProcessor createDefaultConfig)
              ((createTracesProcessor Examples.disk0 createDefaultConfig).1, 0%nat)
              (Examples.batch_of (Examples.span_of Examples.quantum [])))) !! 0%nat
      = Some span'
      ∧ pcommon.Get (ptrace.Attributes span') "gen_ai.completion"
        = Some (pcommon.ValueStr ref)
      ∧ FilesystemVault.Retrieve Examples.vault
          (vault_after
             (ConsumeTraces (FilesystemVault.vaultStorage Examples.vault Examples.clock)
                Examples.downstream (newVaultProcessor createDefaultConfig)
                ((createTracesProcessor Examples.disk0 createDefaultConfig).1, 0%nat)
                (Examples.batch_of (Examples.span_of Examples.quantum [])))).1
          ref
        = Ok (list_byte_of_string
                (pcommon.Str (pcommon.ValueStr "Quantum computing uses qubits..."))).
Proof.
  assert (H1 : createTracesProcessor Examples.disk0 createDefaultConfig
               = ((createTracesProcessor Examples.disk0 createDefaultConfig).1,
                  Ok (newVaultProcessor createDefaultConfig, Examples.vault))).
  { apply pair_eta_snd. reflexivity. }
  assert (H2 : FilesystemVault.fresh Examples.disk0
                 (BasePath (Filesystem (Storage createDefaultConfig))) = true)
    by reflexivity.
  assert (H3 : Mode (Vault createDefaultConfig) = "replace_with_ref") by reflexivity.
  assert (Hp : pending (newVaultProcessor createDefaultConfig)
                 (Examples.batch_of (Examples.span_of Examples.quantum []))
               = [ {| key := "gen_ai.prompt"; content := "Tell me about quantum computing" |};
                   {| key := "gen_ai.completion";
                      content := "Quantum computing uses qubits..." |} ]).
  { vm_compute. reflexivity. }
  assert (H4 : ∀ e e',
             e ∈ pending (newVaultProcessor createDefaultConfig)
                   (Examples.batch_of (Examples.span_of Examples.quantum [])) →
             e' ∈ pending (newVaultProcessor createDefaultConfig)
                    (Examples.batch_of (Examples.span_of Examples.quantum [])) →
             checksum_of (list_byte_of_string (content e))
             = checksum_of (list_byte_of_string (content e')) →
             content e = content e').
  { intros e e'. rewrite Hp, !elem_of_cons, !elem_of_nil.
    intros [->|[->|[]]] [->|[->|[]]] H; try reflexivity; vm_compute in H; discriminate H. }
  assert (H5 : ptrace.spans_of (Examples.batch_of (Examples.span_of Examples.quantum []))
                 !! 0%nat
               = Some (Examples.span_of Examples.quantum [])) by reflexivity.
  assert (H6 : NoDup (ptrace.Attributes (Examples.span_of Examples.quantum [])).*1).
  { simpl. apply NoDup_cons. split; [|apply NoDup_singleton].
    intros H. apply list_elem_of_singleton in H. discriminate H. }
  assert (H7 : ("gen_ai.completion", pcommon.ValueStr "Quantum computing uses qubits...")
                 ∈ ptrace.Attributes (Examples.span_of Examples.quantum [])).
  { apply list_elem_of_further, list_elem_of_here. }
  assert (H8 : "gen_ai.completion" ∈ Keys (Vault createDefaultConfig)).
  { apply list_elem_of_further, list_elem_of_here. }
  assert (H9 : (SizeThreshold (Vault createDefaultConfig)
                ≤ Z.of_nat (String.length
                              (pcommon.Str
                                 (pcommon.ValueStr "Quantum computing uses qubits..."))))%Z).
  { vm_compute. discriminate. }
  assert (H10 : Forall (λ e, key e +:+ ".vault_ref" ≠ "gen_ai.completion")
                  (collect (newVaultProcessor createDefaultConfig)
                     (ptrace.Attributes (Examples.span_of Examples.quantum [])))).
  { vm_compute. repeat constructor; discriminate. }
  split.
  { exact (conj H1 (conj H2 (conj H3 (conj H4 (conj H5 (conj H6 (conj H7 (conj H8
             (conj H9 H10))))))))). }
  exact (offloaded_values_can_be_retrieved createDefaultConfig Examples.disk0 _ _ _
           Examples.clock Examples.downstream 0%nat _ 0%nat _ _ _
           H1 H2 H3 H4 H5 H6 H7 H8 H9 H10).
Defined.

(** ** The backend of storage/filesystem.go *)

Lemma join_sep_four (a b c d : string) :
  filepath.join_sep [a; b; c; d] = a +:+ "/" +:+ b +:+ "/" +:+ c +:+ "/" +:+ d.
Proof. reflexivity. Qed.

(** Where the backend puts an object whose trace and span ids are plain
    names and whose key is made of plain names. *)
Lemma backend_path (base traceID spanID attrKey : string) :
  base ≠ "" →
  os.entry_name traceID = true → os.entry_name spanID = true →
  Forall (λ n, os.entry_name n = true) (filepath.components attrKey) →
  os.resolve (filepath.Join [base; traceID; spanID; attrKey])
  = Some ((filepath.normal base).1,
          (filepath.normal base).2 ++ traceID :: spanID :: filepath.components attrKey).
Proof.
  intros Hb Ht Hs Hk. rewrite Join_nonempty_head by done.
  rewrite resolve_Clean, join_sep_four. f_equal.
  apply normal_join_names; [done| |].
  - apply Forall_cons. split; [done|]. apply Forall_cons. by split.
  - apply entry_name_spec in Ht as (Ht1 & Ht2 & _).
    apply entry_name_spec in Hs as (Hs1 & Hs2 & _).
    rewrite !components_sep, !components_single by done. reflexivity.
Qed.

(** X22.  Where [FilesystemBackend.Store] writes: when the trace id and
    the span id are plain names (not empty, without separator, neither
    [.] nor [..]) and the attribute key is made of plain names between
    its separators, the object file is below the base directory, at
    base/trace/span/key, and holds the payload after a successful
    store. *)
Theorem backend_objects_lie_below_the_base (f : FilesystemBackend.t)
    (traceID spanID attrKey : string) :
  FilesystemBackend.basePath f ≠ "" →
  os.entry_name traceID = true → os.entry_name spanID = true →
  Forall (λ n, os.entry_name n = true) (filepath.components attrKey) →
  os.resolve (filepath.Join [FilesystemBackend.basePath f; traceID; spanID; attrKey])
  = Some ((filepath.normal (FilesystemBackend.basePath f)).1,
          (filepath.normal (FilesystemBackend.basePath f)).2
          ++ traceID :: spanID :: filepath.components attrKey)
  ∧ FilesystemVault.under (filepath.normal (FilesystemBackend.basePath f))
      ((filepath.normal (FilesystemBackend.basePath f)).1,
       (filepath.normal (FilesystemBackend.basePath f)).2
       ++ traceID :: spanID :: filepath.components attrKey) = true
  ∧ ∀ fs fs' data ref,
      FilesystemBackend.Store f fs traceID spanID attrKey data = (fs', Ok ref) →
      fs' !! ((filepath.normal (FilesystemBackend.basePath f)).1,
              (filepath.normal (FilesystemBackend.basePath f)).2
              ++ traceID :: spanID :: filepath.components attrKey)
      = Some (File data).
Proof.
  intros Hb Ht Hs Hk. pose proof (backend_path _ _ _ _ Hb Ht Hs Hk) as Hp.
  split; [exact Hp|]. split.
  - apply under_spec. cbn [fst snd]. split; [done|]. split; [by apply prefix_app_r|].
    intros H. apply (f_equal length) in H. rewrite length_app in H. simpl in H. lia.
  - intros fs fs' data ref (_ & fs1 & _ & Hw)%backend_Store_Ok.
    apply WriteFile_Ok in Hw as (T & HrT & _ & _ & ->).
    rewrite Hp in HrT. injection HrT as <-. by rewrite lookup_insert_eq.
Qed.

Lemma backend_objects_lie_below_the_base_witness :
  (FilesystemBackend.basePath Examples.backend ≠ ""
   ∧ os.entry_name Examples.trace_id = true
   ∧ os.entry_name Examples.span_id = true
   ∧ Forall (λ n, os.entry_name n = true) (filepath.components "event_0/gen_ai.prompt"))
  ∧ os.resolve (filepath.Join [FilesystemBackend.basePath Examples.backend; Examples.trace_id;
                               Examples.span_id; "event_0/gen_ai.prompt"])
    = Some ((filepath.normal (FilesystemBackend.basePath Examples.backend)).1,
            (filepath.normal (FilesystemBackend.basePath Examples.backend)).2
            ++ Examples.trace_id :: Examples.span_id
               :: filepath.components "event_0/gen_ai.prompt").
Proof.
  assert (H1 : FilesystemBackend.basePath Examples.backend ≠ "") by discriminate.
  assert (H2 : os.entry_name Examples.trace_id = true) by reflexivity.
  assert (H3 : os.entry_name Examples.span_id = true) by reflexivity.
  assert (H4 : Forall (λ n, os.entry_name n = true)
                 (filepath.components "event_0/gen_ai.prompt")).
  { vm_compute. repeat constructor. }
  split; [exact (conj H1 (conj H2 (conj H3 H4)))|].
  exact (proj1 (backend_objects_lie_below_the_base Examples.backend Examples.trace_id
                  Examples.span_id "event_0/gen_ai.prompt" H1 H2 H3 H4)).
Defined.

(** X23.  The last write wins.  After two successful stores of the
    backend for the same trace, span and key, the second on the disk the
    first has left: the reference of the second resolves to the second
    payload, and the reference of the first, when the payloads differ in
    SHA-256, no longer resolves: [Retrieve] returns the checksum
    mismatch, with the checksum of the first payload as expected and
    that of the second as found. *)
Theorem backend_last_write_wins (f : FilesystemBackend.t)
    (fs0 fs1 fs2 : gmap (bool * list string) node) (traceID spanID attrKey : string)
    (a b : list byte) (ref_a ref_b : storage.Reference) :
  FilesystemBackend.basePath f ≠ "" →
  fmt.starts_visible traceID = true →
  FilesystemBackend.Store f fs0 traceID spanID attrKey a = (fs1, Ok ref_a) →
  FilesystemBackend.Store f fs1 traceID spanID attrKey b = (fs2, Ok ref_b) →
  FilesystemBackend.Retrieve f fs2 ref_b = Ok b
  ∧ (checksum_of a ≠ checksum_of b →
     FilesystemBackend.Retrieve f fs2 ref_a
     = Err (ErrChecksumMismatch (checksum_of a) (checksum_of b))).
Proof.
  intros Hb Hv (-> & _)%backend_Store_Ok (-> & fs1' & _ & Hw)%backend_Store_Ok.
  apply ReadFile_WriteFile in Hw. split.
  - rewrite backend_Retrieve_read with (data' := b) by done. by rewrite String.eqb_refl.
  - intros Hne. rewrite backend_Retrieve_read with (data' := b) by done.
    destruct (String.eqb_spec (checksum_of b) (checksum_of a)) as [E|_]; [|done].
    by destruct Hne.
Qed.

Lemma backend_last_write_wins_witness :
  (FilesystemBackend.basePath Examples.backend ≠ ""
   ∧ fmt.starts_visible Examples.trace_id = true
   ∧ FilesystemBackend.Store Examples.backend Examples.disk0 Examples.trace_id
       Examples.span_id "gen_ai.prompt" (Examples.bytes "abc")
     = (Examples.bdisk1, Ok Examples.ref_abc)
   ∧ FilesystemBackend.Store Examples.backend Examples.bdisk1 Examples.trace_id
       Examples.span_id "gen_ai.prompt" (Examples.bytes "xyz")
     = (Examples.bdisk2,
        Ok {| storage.URI := storage.URI Examples.ref_abc;
              storage.Checksum :=
                "3608bca1e44ea6c4d268eb6db02260269892c0b42b86bbf1e77a6fa16c3c9282";
              storage.Encrypted := false;
              storage.SizeBytes := 3 |}))
  ∧ FilesystemBackend.Retrieve Examples.backend Examples.bdisk2
      {| storage.URI := storage.URI Examples.ref_abc;
         storage.Checksum := "3608bca1e44ea6c4d268eb6db02260269892c0b42b86bbf1e77a6fa16c3c9282";
         storage.Encrypted := false;
         storage.SizeBytes := 3 |}
    = Ok (Examples.bytes "xyz").
Proof.
  assert (H1 : FilesystemBackend.basePath Examples.backend ≠ "") by discriminate.
  assert (H2 : fmt.starts_visible Examples.trace_id = true) by reflexivity.
  assert (H3 : FilesystemBackend.Store Examples.backend Examples.disk0 Examples.trace_id
                 Examples.span_id "gen_ai.prompt" (Examples.bytes "abc")
               = (Examples.bdisk1, Ok Examples.ref_abc)).
  { unfold Examples.bdisk1. apply pair_eta_snd. vm_compute. reflexivity. }
  assert (H4 : FilesystemBackend.Store Examples.backend Examples.bdisk1 Examples.trace_id
                 Examples.span_id "gen_ai.prompt" (Examples.bytes "xyz")
               = (Examples.bdisk2,
                  Ok {| storage.URI := storage.URI Examples.ref_abc;
                        storage.Checksum :=
                          "3608bca1e44ea6c4d268eb6db02260269892c0b42b86bbf1e77a6fa16c3c9282";
                        storage.Encrypted := false;
                        storage.SizeBytes := 3 |})).
  { unfold Examples.bdisk2. apply pair_eta_snd. vm_compute. reflexivity. }
  split; [exact (conj H1 (conj H2 (conj H3 H4)))|].
  exact (proj1 (backend_last_write_wins Examples.backend _ _ _ _ _ _ _ _ _ _ H1 H2 H3 H4)).
Defined.

(** X24.  Stores of the backend under different paths do not disturb
    one another: an object stored stays retrievable, with its payload,
    after a later successful store for another trace, span or key (one
    whose file is another file). *)
Theorem backend_stores_elsewhere_keep_the_object (f : FilesystemBackend.t)
    (fs0 fs1 fs2 : gmap (bool * list string) node)
    (traceID spanID attrKey traceID' spanID' attrKey' : string)
    (a b : list byte) (ref_a ref_b : storage.Reference) :
  FilesystemBackend.basePath f ≠ "" →
  fmt.starts_visible traceID = true →
  os.resolve (filepath.Join [FilesystemBackend.basePath f; traceID; spanID; attrKey])
  ≠ os.resolve (filepath.Join [FilesystemBackend.basePath f; traceID'; spanID'; attrKey']) →
  FilesystemBackend.Store f fs0 traceID spanID attrKey a = (fs1, Ok ref_a) →
  FilesystemBackend.Store f fs1 traceID' spanID' attrKey' b = (fs2, Ok ref_b) →
  FilesystemBackend.Retrieve f fs2 ref_a = Ok a.
Proof.
  intros Hb Hv Hne (-> & fs0' & _ & Hwa)%backend_Store_Ok
         (_ & fs1' & Hm & Hwb)%backend_Store_Ok.
  apply ReadFile_WriteFile in Hwa.
  apply (MkdirAll_ReadFile _ _ _ _ a Hm) in Hwa.
  apply (ReadFile_WriteFile_other _ _ _ _ b a Hwb Hne) in Hwa.
  rewrite backend_Retrieve_read with (data' := a) by done. by rewrite String.eqb_refl.
Qed.

Lemma backend_stores_elsewhere_keep_the_object_witness :
  (FilesystemBackend.basePath Examples.backend ≠ ""
   ∧ fmt.starts_visible Examples.trace_id = true
   ∧ os.resolve (filepath.Join [FilesystemBackend.basePath Examples.backend;
                                Examples.trace_id; Examples.span_id; "gen_ai.prompt"])
     ≠ os.resolve (filepath.Join [FilesystemBackend.basePath Examples.backend;
                                  Examples.trace_id; Examples.span_id; "gen_ai.completion"])
   ∧ FilesystemBackend.Store Examples.backend Examples.disk0 Examples.trace_id
       Examples.span_id "gen_ai.prompt" (Examples.bytes "abc")
     = (Examples.bdisk1, Ok Examples.ref_abc))
  ∧ FilesystemBackend.Retrieve Examples.backend
      (FilesystemBackend.Store Examples.backend Examples.bdisk1 Examples.trace_id
         Examples.span_id "gen_ai.completion" (Examples.bytes "xyz")).1
      Examples.ref_abc
    = Ok (Examples.bytes "abc").
Proof.
  assert (H1 : FilesystemBackend.basePath Examples.backend ≠ "") by discriminate.
  assert (H2 : fmt.starts_visible Examples.trace_id = true) by reflexivity.
  assert (H3 : os.resolve (filepath.Join [FilesystemBackend.basePath Examples.backend;
                                          Examples.trace_id; Examples.span_id; "gen_ai.prompt"])
               ≠ os.resolve (filepath.Join [FilesystemBackend.basePath Examples.backend;
                                            Examples.trace_id; Examples.span_id;
                                            "gen_ai.completion"])).
  { vm_compute. discriminate. }
  assert (H4 : FilesystemBackend.Store Examples.backend Examples.disk0 Examples.trace_id
                 Examples.span_id "gen_ai.prompt" (Examples.bytes "abc")
               = (Examples.bdisk1, Ok Examples.ref_abc)).
  { unfold Examples.bdisk1. apply pair_eta_snd. vm_compute. reflexivity. }
  split; [exact (conj H1 (conj H2 (conj H3 H4)))|].
  apply (backend_stores_elsewhere_keep_the_object Examples.backend Examples.disk0
           Examples.bdisk1 _ Examples.trace_id Examples.span_id "gen_ai.prompt"
           Examples.trace_id Examples.span_id "gen_ai.completion"
           (Examples.bytes "abc") (Examples.bytes "xyz") Examples.ref_abc
           {| storage.URI :=
                "promptvault://fs/" +:+ Examples.trace_id +:+ "/" +:+ Examples.span_id
                +:+ "/" +:+ "gen_ai.completion";
              storage.Checksum := checksum_of (Examples.bytes "xyz");
              storage.Encrypted := false;
              storage.SizeBytes := 3 |} H1 H2 H3 H4).
  apply pair_eta_snd. vm_compute. reflexivity.
Defined.





(** ** The default configuration, the date of a store, and unknown modes *)

(** X26.  The default configuration: the vault is at [/data/vault], the
    mode is [replace_with_ref], and, the threshold being 0, the
    attributes of a span that are pending are exactly those whose key is
    one of the five listed [gen_ai] keys, in the order of the map and
    whatever their value. *)
Theorem default_configuration_vaults_the_five_keys
    (attrs : list (string * pcommon.Value)) :
  collect (newVaultProcessor createDefaultConfig) attrs
  = (λ kv : string * pcommon.Value, {| key := kv.1; content := pcommon.Str kv.2 |})
      <$> filter (λ kv : string * pcommon.Value,
                    kv.1 ∈ ["gen_ai.prompt"; "gen_ai.completion"; "gen_ai.system_instructions";
                            "gen_ai.input.messages"; "gen_ai.output.messages"])
            attrs
  ∧ Mode (Vault (config (newVaultProcessor createDefaultConfig))) = "replace_with_ref"
  ∧ (createTracesProcessor ∅ createDefaultConfig).2
    = Ok (newVaultProcessor createDefaultConfig,
          {| FilesystemVault.basePath := "/data/vault" |}).
Proof.
  split; [|split; reflexivity].
  rewrite collect_nonpositive by (cbn; lia). f_equal.
  induction attrs as [|kv attrs IH]; [done|].
  rewrite !filter_cons, IH.
  destruct (inKeysSet (newVaultProcessor createDefaultConfig) kv.1) eqn:Ek.
  - rewrite decide_True by done. rewrite decide_True; [done|].
    by apply (inKeysSet_new createDefaultConfig).
  - rewrite decide_False by done. rewrite decide_False; [done|].
    intros Hin. apply (inKeysSet_new createDefaultConfig) in Hin. congruence.
Qed.

(** X27.  The check for an object that is already there is made at the
    path of the day.  After a successful [Store] something is at
    base/YYYY/MM/DD/hash.vault for the date of the call; and when
    nothing was there before the call the payload has been written
    there, whether or not the vault holds the same payload under
    another date. *)
Theorem Store_writes_the_object_of_the_day (v : FilesystemVault.t) (now : time.Time)
    (fs fs' : gmap (bool * list string) node) (content : list byte) (ref : string) :
  FilesystemVault.basePath v ≠ "" →
  FilesystemVault.Store v now fs content = (fs', Ok ref) →
  (∃ info,
     os.Stat fs'
       (filepath.Join [filepath.Join [FilesystemVault.basePath v; time.Format now];
                       checksum_of content +:+ ".vault"]) = Ok info)
  ∧ (∀ e,
       os.Stat fs
         (filepath.Join [filepath.Join [FilesystemVault.basePath v; time.Format now];
                         checksum_of content +:+ ".vault"]) = Err e →
       os.ReadFile fs'
         (filepath.Join [filepath.Join [FilesystemVault.basePath v; time.Format now];
                         checksum_of content +:+ ".vault"]) = Ok content).
Proof.
  intros Hb HS.
  destruct (vault_paths v now content Hb) as (y & m & d & Hn & Hsuf & Hdir & HT).
  unfold FilesystemVault.Store in HS. cbv zeta in HS.
  destruct (os.MkdirAll fs _) as [fs1|e1] eqn:Em; [|done].
  assert (Hnames : Forall (λ n, os.entry_name n = true)
                     [y; m; d; checksum_of content +:+ ".vault"]).
  { apply Forall_app with (l1 := [y; m; d]) (l2 := [checksum_of content +:+ ".vault"]).
    split; [done|]. apply Forall_singleton, object_name_ok. }
  destruct (os.Stat fs1 _) as [info|e2] eqn:Es.
  - injection HS as <- <-. split; [by exists info|].
    intros e He. exfalso.
    pose proof (Stat_Err _ _ _ _ He HT) as Hnone.
    assert (H1 : fs1 !! ((filepath.normal (FilesystemVault.basePath v)).1,
                         (filepath.normal (FilesystemVault.basePath v)).2
                         ++ [y; m; d; checksum_of content +:+ ".vault"]) = None).
    { rewrite <- Hnone. unfold os.MkdirAll in Em. rewrite Hdir in Em. cbn [fst snd] in Em.
      apply (mkdirs_longer _ _ _ _ _ _ Em). cbn [fst snd]. rewrite !length_app. simpl. lia. }
    unfold os.Stat in Es. apply Lstat_Ok in Es as (T & nT & HrT & HlT & _).
    assert (HTeq : T = ((filepath.normal (FilesystemVault.basePath v)).1,
                        (filepath.normal (FilesystemVault.basePath v)).2
                        ++ [y; m; d; checksum_of content +:+ ".vault"])) by congruence.
    subst T. unfold os.lookup_path in HlT.
    rewrite (implicit_dir_names _ _ [y; m; d; checksum_of content +:+ ".vault"]) in HlT by done.
    cbv iota in HlT. rewrite H1 in HlT. discriminate HlT.
  - destruct (os.WriteFile fs1 _ content) as [fs2|e'] eqn:Ew; [|done].
    injection HS as <- <-. pose proof (ReadFile_WriteFile _ _ _ _ Ew) as Hr. split; [|done].
    apply ReadFile_Ok in Hr as (p & Hp & Hi & Hf).
    exists (os.info_of p (File content)). apply Lstat_Ok. exists p, (File content).
    split; [done|]. split; [|done]. by apply lookup_path_File.
Qed.

Lemma Store_writes_the_object_of_the_day_witness :
  (FilesystemVault.basePath Examples.vault ≠ ""
   ∧ FilesystemVault.Store Examples.vault Examples.later Examples.disk1 (Examples.bytes "abc")
     = ((FilesystemVault.Store Examples.vault Examples.later Examples.disk1
           (Examples.bytes "abc")).1,
        Ok "vault://ba7816bf8f01cfea414140de5dae2223b00361a396177a9cb410ff61f20015ad")
   ∧ os.Stat Examples.disk1
       (filepath.Join
          [filepath.Join [FilesystemVault.basePath Examples.vault; time.Format Examples.later];
           checksum_of (Examples.bytes "abc") +:+ ".vault"]) = Err ENOENT)
  ∧ os.ReadFile
      (FilesystemVault.Store Examples.vault Examples.later Examples.disk1
         (Examples.bytes "abc")).1
      (filepath.Join
         [filepath.Join [FilesystemVault.basePath Examples.vault; time.Format Examples.later];
          checksum_of (Examples.bytes "abc") +:+ ".vault"])
    = Ok (Examples.bytes "abc").
Proof.
  assert (H1 : FilesystemVault.basePath Examples.vault ≠ "") by discriminate.
  assert (H2 : FilesystemVault.Store Examples.vault Examples.later Examples.disk1
                 (Examples.bytes "abc")
               = ((FilesystemVault.Store Examples.vault Examples.later Examples.disk1
                     (Examples.bytes "abc")).1,
                  Ok "vault://ba7816bf8f01cfea414140de5dae2223b00361a396177a9cb410ff61f20015ad")).
  { apply pair_eta_snd. vm_compute. reflexivity. }
  assert (H3 : os.Stat Examples.disk1
                 (filepath.Join
                    [filepath.Join [FilesystemVault.basePath Examples.vault;
                                    time.Format Examples.later];
                     checksum_of (Examples.bytes "abc") +:+ ".vault"]) = Err ENOENT).
  { vm_compute. reflexivity. }
  split; [exact (conj H1 (conj H2 H3))|].
  exact (proj2 (Store_writes_the_object_of_the_day Examples.vault Examples.later Examples.disk1
                  _ (Examples.bytes "abc") _ H1 H2) _ H3).
Defined.

(** X28.  The mode is not checked.  With a mode that is neither
    [replace_with_ref] nor [remove] (a misspelt one, say), [vaultSpan]
    still calls [Store] for every pending entry, in order, and logs each
    call, but rewrites nothing: the span is left as it was received,
    with the values that were to be vaulted. *)
Theorem unknown_mode_stores_and_rewrites_nothing {V : Type}
    (store : V → list byte → V * result string error)
    (p : vaultProcessor) (span : ptrace.Span) (st : V) (log : list LogEntry) :
  Mode (Vault (config p)) ≠ "replace_with_ref" →
  Mode (Vault (config p)) ≠ "remove" →
  (vaultSpan store p span st log).1.2 = span
  ∧ (vaultSpan store p span st log).1.1 = stored store (collect p (ptrace.Attributes span)) st
  ∧ log_key <$> (vaultSpan store p span st log).2
    = (log_key <$> log) ++ (key <$> collect p (ptrace.Attributes span)).
Proof.
  intros H1 H2. split; [|split].
  - apply vaultSpan_id. by apply offload_other_mode.
  - rewrite vaultSpan_eq. apply offload_state.
  - rewrite vaultSpan_eq. apply offload_log_keys.
Qed.

Lemma unknown_mode_stores_and_rewrites_nothing_witness :
  (Mode (Vault (config (newVaultProcessor
                          (Examples.policy ["gen_ai.input.messages"] 0 "replace_with_reference"))))
   ≠ "replace_with_ref"
   ∧ Mode (Vault (config (newVaultProcessor
                            (Examples.policy ["gen_ai.input.messages"] 0
                               "replace_with_reference"))))
     ≠ "remove")
  ∧ (vaultSpan Examples.memStore
       (newVaultProcessor
          (Examples.policy ["gen_ai.input.messages"] 0 "replace_with_reference"))
       (Examples.span_of Examples.sensitive []) [] []).1.2
    = Examples.span_of Examples.sensitive []
  ∧ (vaultSpan Examples.memStore
       (newVaultProcessor
          (Examples.policy ["gen_ai.input.messages"] 0 "replace_with_reference"))
       (Examples.span_of Examples.sensitive []) [] []).1.1
    = stored Examples.memStore
        (collect (newVaultProcessor
                    (Examples.policy ["gen_ai.input.messages"] 0 "replace_with_reference"))
           (ptrace.Attributes (Examples.span_of Examples.sensitive []))) [].
Proof.
  assert (H1 : Mode (Vault (config (newVaultProcessor
                 (Examples.policy ["gen_ai.input.messages"] 0 "replace_with_reference"))))
               ≠ "replace_with_ref") by discriminate.
  assert (H2 : Mode (Vault (config (newVaultProcessor
                 (Examples.policy ["gen_ai.input.messages"] 0 "replace_with_reference"))))
               ≠ "remove") by discriminate.
  split; [exact (conj H1 H2)|].
  pose proof (unknown_mode_stores_and_rewrites_nothing Examples.memStore
                (newVaultProcessor
                   (Examples.policy ["gen_ai.input.messages"] 0 "replace_with_reference"))
                (Examples.span_of Examples.sensitive []) [] [] H1 H2) as (Ha & Hb & _).
  exact (conj Ha Hb).
Defined.

(** ** When the vault fails *)

(** X29.  A failed call touches nothing of its own and stops nothing
    else.  When the store of the value of an eligible attribute [k]
    fails, whatever happens to the other pending entries of the span
    (keys distinct): a warning is logged under [k], [k] keeps the value
    it came with, and [k.vault_ref] is as it was received (absent, if it
    was absent); the first two unless [k] is itself the sibling key of a
    pending entry, the last unless [k.vault_ref] is itself the key of a
    pending entry. *)
Theorem failed_store_leaves_the_attribute_and_its_sibling {V : Type}
    (store : V → list byte → V * result string error)
    (p : vaultProcessor) (span : ptrace.Span) (k : string) (v : pcommon.Value)
    (st : V) (log : list LogEntry) :
  NoDup (ptrace.Attributes span).*1 →
  (k, v) ∈ ptrace.Attributes span →
  inKeysSet p k = true →
  (SizeThreshold (Vault (config p)) ≤ Z.of_nat (String.length (pcommon.Str v)))%Z →
  (∀ s, ∃ s' err, store s (list_byte_of_string (pcommon.Str v)) = (s', Err err)) →
  (Forall (λ e, key e +:+ ".vault_ref" ≠ k) (collect p (ptrace.Attributes span)) →
   pcommon.Get (ptrace.Attributes (vaultSpan store p span st log).1.2) k = Some v
   ∧ ∃ err, LogWarn "vault store failed" k err ∈ (vaultSpan store p span st log).2)
  ∧ (Forall (λ e, key e ≠ k +:+ ".vault_ref") (collect p (ptrace.Attributes span)) →
     pcommon.Get (ptrace.Attributes (vaultSpan store p span st log).1.2) (k +:+ ".vault_ref")
     = pcommon.Get (ptrace.Attributes span) (k +:+ ".vault_ref")).
Proof.
  intros Hnd Hin Hk Ht Hfail. split; intros HF.
  - destruct (vaultSpan_entry store p span k v st log k Hnd Hin Hk Ht
                (Forall_value_key _ _ HF)) as (l1 & l2 & st1 & res & _ & Hs & _ & Hres).
    destruct (Hfail (stored store l1 st)) as (s' & err & Hs').
    rewrite Hs' in Hs. injection Hs as _ <-. destruct Hres as [-> Hlog]. split.
    + by apply Get_Some.
    + by exists err.
  - destruct (vaultSpan_entry store p span k v st log (k +:+ ".vault_ref") Hnd Hin Hk Ht
                (Forall_sibling_key _ _ HF)) as (l1 & l2 & st1 & res & _ & Hs & _ & Hres).
    destruct (Hfail (stored store l1 st)) as (s' & err & Hs').
    rewrite Hs' in Hs. injection Hs as _ <-. by destruct Hres as [-> _].
Qed.

Lemma failed_store_leaves_the_attribute_and_its_sibling_witness :
  (NoDup (ptrace.Attributes (Examples.span_of Examples.sensitive [])).*1
   ∧ ("gen_ai.input.messages", pcommon.ValueStr "hello world, this is sensitive")
       ∈ ptrace.Attributes (Examples.span_of Examples.sensitive [])
   ∧ inKeysSet (newVaultProcessor createDefaultConfig) "gen_ai.input.messages" = true
   ∧ (SizeThreshold (Vault (config (newVaultProcessor createDefaultConfig)))
      ≤ Z.of_nat (String.length
                    (pcommon.Str (pcommon.ValueStr "hello world, this is sensitive"))))%Z
   ∧ (∀ s, ∃ s' err,
        Examples.failStore s
          (list_byte_of_string
             (pcommon.Str (pcommon.ValueStr "hello world, this is sensitive")))
        = (s', Err err))
   ∧ Forall (λ e, key e +:+ ".vault_ref" ≠ "gen_ai.input.messages")
       (collect (newVaultProcessor createDefaultConfig)
          (ptrace.Attributes (Examples.span_of Examples.sensitive []))))
  ∧ pcommon.Get
      (ptrace.Attributes
         (vaultSpan Examples.failStore (newVaultProcessor createDefaultConfig)
            (Examples.span_of Examples.sensitive []) tt []).1.2)
      "gen_ai.input.messages"
    = Some (pcommon.ValueStr "hello world, this is sensitive").
Proof.
  assert (H2 : NoDup (ptrace.Attributes (Examples.span_of Examples.sensitive [])).*1).
  { simpl. apply NoDup_singleton. }
  assert (H3 : ("gen_ai.input.messages", pcommon.ValueStr "hello world, this is sensitive")
                 ∈ ptrace.Attributes (Examples.span_of Examples.sensitive [])).
  { apply list_elem_of_here. }
  assert (H4 : inKeysSet (newVaultProcessor createDefaultConfig) "gen_ai.input.messages"
               = true).
  { vm_compute. reflexivity. }
  assert (H5 : (SizeThreshold (Vault (config (newVaultProcessor createDefaultConfig)))
                ≤ Z.of_nat (String.length
                              (pcommon.Str
                                 (pcommon.ValueStr "hello world, this is sensitive"))))%Z).
  { vm_compute. discriminate. }
  assert (H7 : ∀ s, ∃ s' err,
               Examples.failStore s
                 (list_byte_of_string
                    (pcommon.Str (pcommon.ValueStr "hello world, this is sensitive")))
               = (s', Err err)).
  { intros s. eexists _, _. reflexivity. }
  assert (H8 : Forall (λ e, key e +:+ ".vault_ref" ≠ "gen_ai.input.messages")
                 (collect (newVaultProcessor createDefaultConfig)
                    (ptrace.Attributes (Examples.span_of Examples.sensitive [])))).
  { vm_compute. repeat constructor; discriminate. }
  split; [exact (conj H2 (conj H3 (conj H4 (conj H5 (conj H7 H8)))))|].
  exact (proj1 (proj1 (failed_store_leaves_the_attribute_and_its_sibling Examples.failStore
                         (newVaultProcessor createDefaultConfig)
                         (Examples.span_of Examples.sensitive []) "gen_ai.input.messages"
                         (pcommon.ValueStr "hello world, this is sensitive") tt []
                         H2 H3 H4 H5 H7) H8)).
Defined.

Section FailingVault.
Context {V : Type}.
Variable store : V → list byte → V * result string error.
Variable I : V → Prop.
Hypothesis Hfails : ∀ s c, I s → I (store s c).1 ∧ ∃ err, (store s c).2 = Err err.

Lemma offload_failing (p : vaultProcessor) (toVault : list vaultEntry) :
  ∀ st attrs log,
    I st →
    I (offload store p toVault st attrs log).1.1
    ∧ (offload store p toVault st attrs log).1.2 = attrs.
Proof.
  induction toVault as [|e rest IH]; intros st attrs log Hst; [done|].
  cbn [offload]. destruct (Hfails st (list_byte_of_string (content e)) Hst) as [HI [err He]].
  destruct (store st (list_byte_of_string (content e))) as [st' res].
  cbn [fst snd] in HI, He. subst res. by apply IH.
Qed.

Lemma vaultSpans_failing (p : vaultProcessor) (spans : list ptrace.Span) :
  ∀ st log,
    I st →
    I (vaultSpans store p spans st log).1.1 ∧ (vaultSpans store p spans st log).1.2 = spans.
Proof.
  induction spans as [|span rest IH]; intros st log Hst; [done|].
  rewrite vaultSpans_cons. cbn [fst snd]. rewrite vaultSpan_eq. cbn [fst snd].
  destruct (offload_failing p (collect p (ptrace.Attributes span)) st
              (ptrace.Attributes span) log Hst) as [HI Hattrs].
  destruct (IH _ (offload store p (collect p (ptrace.Attributes span)) st
                    (ptrace.Attributes span) log).2 HI) as [HI' Hrest].
  split; [done|]. rewrite Hrest, Hattrs. by destruct span.
Qed.

Lemma vaultScopes_failing (p : vaultProcessor) (ilss : list ptrace.ScopeSpans) :
  ∀ st log,
    I st →
    I (vaultScopes store p ilss st log).1.1 ∧ (vaultScopes store p ilss st log).1.2 = ilss.
Proof.
  induction ilss as [|ss rest IH]; intros st log Hst; [done|].
  cbn [vaultScopes].
  destruct (vaultSpans_failing p (ptrace.Spans ss) st log Hst) as [HI Hs].
  destruct (vaultSpans store p (ptrace.Spans ss) st log) as [[st1 spans'] log1].
  cbn [fst snd] in HI, Hs. destruct (IH st1 log1 HI) as [HI' Hrest].
  destruct (vaultScopes store p rest st1 log1) as [[st2 rest'] log2].
  cbn [fst snd] in *. split; [done|]. subst. by destruct ss.
Qed.

Lemma vaultResources_failing (p : vaultProcessor) (rss : ptrace.Traces) :
  ∀ st log,
    I st →
    I (vaultResources store p rss st log).1.1 ∧ (vaultResources store p rss st log).1.2 = rss.
Proof.
  induction rss as [|rs rest IH]; intros st log Hst; [done|].
  cbn [vaultResources].
  destruct (vaultScopes_failing p (ptrace.ScopeSpansOf rs) st log Hst) as [HI Hs].
  destruct (vaultScopes store p (ptrace.ScopeSpansOf rs) st log) as [[st1 ilss'] log1].
  cbn [fst snd] in HI, Hs. destruct (IH st1 log1 HI) as [HI' Hrest].
  destruct (vaultResources store p rest st1 log1) as [[st2 rest'] log2].
  cbn [fst snd] in *. split; [done|]. subst. by destruct rs.
Qed.

End FailingVault.

(** X30.  The processor over a vault that cannot store.  When a regular
    file is at the base path of the vault, every call of the batch
    fails, and [ConsumeTraces] hands the batch to the next consumer
    exactly as it was received, with every value that was to be vaulted
    still in it, returns what that consumer returns, and leaves the disk
    as it is. *)
Theorem unusable_vault_lets_the_batch_through (v : FilesystemVault.t)
    (clock : nat → time.Time) (next : ptrace.Traces → option error) (p : vaultProcessor)
    (fs : gmap (bool * list string) node) (n : nat) (c : list byte) (td : ptrace.Traces) :
  os.ReadFile fs (FilesystemVault.basePath v) = Ok c →
  forwarded (ConsumeTraces (FilesystemVault.vaultStorage v clock) next p (fs, n) td) = td
  ∧ returned (ConsumeTraces (FilesystemVault.vaultStorage v clock) next p (fs, n) td)
    = next td
  ∧ (vault_after (ConsumeTraces (FilesystemVault.vaultStorage v clock) next p (fs, n) td)).1
    = fs
  ∧ length (logged (ConsumeTraces (FilesystemVault.vaultStorage v clock) next p (fs, n) td))
    = length (pending p td).
Proof.
  intros Hc.
  destruct (vaultResources_failing (FilesystemVault.vaultStorage v clock) (λ s, s.1 = fs))
    with (p := p) (rss := td) (st := (fs, n)) (log := @nil LogEntry) as [HI Htd].
  { intros s content Hs. unfold FilesystemVault.vaultStorage. cbn [fst snd].
    rewrite Hs, (Store_blocked v _ fs c content Hc). cbn [fst snd]. split; [done|].
    by eexists. }
  { done. }
  assert (Hlog : length (logged (ConsumeTraces (FilesystemVault.vaultStorage v clock) next p
                                   (fs, n) td))
                 = length (pending p td)).
  { destruct (ConsumeTraces_flat (FilesystemVault.vaultStorage v clock) next p (fs, n) td)
      as (_ & _ & H3).
    rewrite H3.
    pose proof (vaultSpans_log_keys (FilesystemVault.vaultStorage v clock) p
                  (ptrace.spans_of td) (fs, n) []) as Hk.
    apply (f_equal length) in Hk. rewrite !length_fmap in Hk.
    cbn [fmap list_fmap app] in Hk. by rewrite length_fmap in Hk. }
  unfold ConsumeTraces in *.
  destruct (vaultResources (FilesystemVault.vaultStorage v clock) p td (fs, n) [])
    as [[st' td'] log'].
  cbn [fst snd forwarded returned vault_after logged] in *. subst td'. done.
Qed.

Lemma unusable_vault_lets_the_batch_through_witness :
  os.ReadFile Examples.bdisk1 Examples.object_file = Ok (Examples.bytes "abc")
  ∧ forwarded
      (ConsumeTraces
         (FilesystemVault.vaultStorage {| FilesystemVault.basePath := Examples.object_file |}
            Examples.clock)
         Examples.downstream (newVaultProcessor createDefaultConfig) (Examples.bdisk1, 0%nat)
         (Examples.batch_of (Examples.span_of Examples.quantum [])))
    = Examples.batch_of (Examples.span_of Examples.quantum []).
Proof.
  assert (H : os.ReadFile Examples.bdisk1 Examples.object_file = Ok (Examples.bytes "abc")).
  { vm_compute. reflexivity. }
  split; [exact H|].
  exact (proj1 (unusable_vault_lets_the_batch_through
                  {| FilesystemVault.basePath := Examples.object_file |} Examples.clock
                  Examples.downstream (newVaultProcessor createDefaultConfig)
                  Examples.bdisk1 0%nat _ _ H)).
Defined.
